(** * Lead auditor: a shallow embedding of [miner_models/lead_auditor.py]

    The pre-submission auditor maps a lead record (a JSON object) to lists of
    violation codes.  This development embeds the validators, the duplicate
    checker, the scoring preview and the orchestrator as Rocq functions and
    proves the properties stated for them.

    Conventions of the embedding.

    - A Python [str] is a [text], a list of characters.  A character is an
      8-bit [ascii] read as the code point U+0000..U+00FF (Latin-1); the
      Python predicates [isalpha], [isdigit], [isspace], [lower] and the
      regex classes [\w], [\d], [\s] are written out for that range.  The
      code-point ranges above U+00FF that the source tests for (CJK, emoji,
      ...) are kept as range tests on the code point.  A text holds no lone
      surrogate, so the exception that [encode] raises on one has no
      counterpart here.
    - A regular expression is a function on texts that follows the
      leftmost, greedy, backtracking match of [re]; the expression is quoted
      above each function.
    - A JSON value read from a lead is a [value]: null, a boolean, an
      integer or a string; floats, arrays and objects are left out, and
      what is proved of every [value] is proved of these four kinds.
    - A comparison of a ratio of two counts with a float constant
      ([digits / len(role) > 0.5]) is the comparison of integers that has
      the same truth value for every text shorter than 2^50 characters.
    - A Python [dict] is a [gmap]; the lead is only ever read.
    - A raised exception that nothing catches is the result [None].
    - External collaborators (the network, the transparency log, the
      taxonomy file, the interpreter's set iteration order) are parameters
      of the functions that use them; SHA-256 is written out. *)

From Stdlib Require Import ZArith NArith Ascii String List Bool Lia DecimalString.
From stdpp Require Import gmap strings list.

Open Scope Z_scope.

(** ** Characters and text *)

Abbreviation text := (list ascii).

(** A string literal as a [text]. *)
Definition str (s : string) : text := list_ascii_of_string s.

(** The code point of a character. *)
Definition cp (c : ascii) : N := N_of_ascii c.

Definition in_range (lo hi : N) (c : ascii) : bool :=
  (N.leb lo (cp c) && N.leb (cp c) hi)%N.

Definition chr (n : N) : ascii := ascii_of_N n.

(** [c in s] for a one-character [c]. *)
Definition char_in (c : ascii) (s : text) : bool :=
  existsb (fun d => bool_decide (c = d)) s.

(** Regex class [[a-z]], [[A-Z]], [[a-zA-Z]], [[0-9]]. *)
Definition is_az (c : ascii) : bool := in_range 97 122 c.
Definition is_AZ (c : ascii) : bool := in_range 65 90 c.
Definition is_azAZ (c : ascii) : bool := is_az c || is_AZ c.
Definition is_09 (c : ascii) : bool := in_range 48 57 c.

(** [str.isalpha] of one character: general category L*. *)
Definition py_isalpha (c : ascii) : bool :=
  is_azAZ c || N.eqb (cp c) 170 || N.eqb (cp c) 181 || N.eqb (cp c) 186
  || in_range 192 214 c || in_range 216 246 c || in_range 248 255 c.

(** [str.isdecimal], which is also the regex class [\d]. *)
Definition py_isdecimal (c : ascii) : bool := is_09 c.

(** [str.isdigit]: the decimal digits and the superscripts 1, 2, 3. *)
Definition py_isdigit (c : ascii) : bool :=
  is_09 c || N.eqb (cp c) 178 || N.eqb (cp c) 179 || N.eqb (cp c) 185.

(** [str.isnumeric]: the digits and the vulgar fractions. *)
Definition py_isnumeric (c : ascii) : bool :=
  py_isdigit c || in_range 188 190 c.

Definition py_isalnum (c : ascii) : bool :=
  py_isalpha c || py_isdecimal c || py_isdigit c || py_isnumeric c.

(** Regex class [\w]. *)
Definition re_word (c : ascii) : bool :=
  py_isalnum c || N.eqb (cp c) 95.

(** [str.isspace] of one character, which is also the regex class [\s]. *)
Definition py_isspace (c : ascii) : bool :=
  in_range 9 13 c || in_range 28 32 c || N.eqb (cp c) 133 || N.eqb (cp c) 160.

(** [str.lower] of one character. *)
Definition lower_char (c : ascii) : ascii :=
  if is_AZ c || (in_range 192 222 c && negb (N.eqb (cp c) 215))
  then chr (cp c + 32) else c.

(** [s.lower()]. *)
Definition lower (s : text) : text := map lower_char s.

(** [s.lstrip()], [s.rstrip()], [s.strip()]. *)
Fixpoint lstrip (s : text) : text :=
  match s with
  | c :: s' => if py_isspace c then lstrip s' else s
  | [] => []
  end.

Definition rstrip (s : text) : text := rev (lstrip (rev s)).

Definition strip (s : text) : text := rstrip (lstrip s).

(** [s.rstrip(chars)]. *)
Fixpoint lstrip_chars (chars s : text) : text :=
  match s with
  | c :: s' => if char_in c chars then lstrip_chars chars s' else s
  | [] => []
  end.

Definition rstrip_chars (chars s : text) : text :=
  rev (lstrip_chars chars (rev s)).

(** [s.startswith(p)] and [s.endswith(p)]. *)
Fixpoint startswith (p s : text) : bool :=
  match p, s with
  | [], _ => true
  | a :: p', b :: s' => bool_decide (a = b) && startswith p' s'
  | _ :: _, [] => false
  end.

Definition endswith (p s : text) : bool := startswith (rev p) (rev s).

(** The suffixes of a text, longest first, the empty one included. *)
Fixpoint tails (s : text) : list text :=
  s :: match s with
       | [] => []
       | _ :: s' => tails s'
       end.

(** [re.search] of a pattern given as a matcher of prefixes. *)
Definition search (m : text -> bool) (s : text) : bool := existsb m (tails s).

(** [sub in s]. *)
Definition contains (sub s : text) : bool := search (startswith sub) s.

(** [re.search] of a pattern whose matcher also looks at the character
    before the position (for [\b]). *)
Fixpoint search_prev (m : option ascii -> text -> bool) (prev : option ascii)
    (s : text) : bool :=
  m prev s ||
  match s with
  | [] => false
  | c :: s' => search_prev m (Some c) s'
  end.

(** The longest prefix of characters in a class, and what follows it. *)
Fixpoint span (p : ascii -> bool) (s : text) : text * text :=
  match s with
  | c :: s' => if p c then let '(a, b) := span p s' in (c :: a, b) else ([], s)
  | [] => ([], [])
  end.

(** [s.split()]: the maximal runs of non-whitespace characters. *)
Fixpoint split_ws_aux (cur : text) (s : text) : list text :=
  match s with
  | [] => match cur with [] => [] | _ => [rev cur] end
  | c :: s' =>
      if py_isspace c
      then match cur with
           | [] => split_ws_aux [] s'
           | _ => rev cur :: split_ws_aux [] s'
           end
      else split_ws_aux (c :: cur) s'
  end.

Definition split_ws (s : text) : list text := split_ws_aux [] s.

(** [s.split(sep)] for a one-character separator: never empty. *)
Fixpoint split_on_aux (sep : ascii) (cur : text) (s : text) : list text :=
  match s with
  | [] => [rev cur]
  | c :: s' =>
      if bool_decide (c = sep)
      then rev cur :: split_on_aux sep [] s'
      else split_on_aux sep (c :: cur) s'
  end.

Definition split_on (sep : ascii) (s : text) : list text :=
  split_on_aux sep [] s.

(** [s.split(sep)[0]]: the text before the first separator. *)
Fixpoint before (sep : ascii) (s : text) : text :=
  match s with
  | [] => []
  | c :: s' => if bool_decide (c = sep) then [] else c :: before sep s'
  end.

(** [s.split(sep)[1] if sep in s]: the text between the first and the
    second separator. *)
Fixpoint after (sep : ascii) (s : text) : text :=
  match s with
  | [] => []
  | c :: s' => if bool_decide (c = sep) then before sep s' else after sep s'
  end.

(** [s.replace(old, new)] for a non-empty [old]: occurrences are replaced
    from the left and do not overlap; [skip] counts the characters of a
    replaced occurrence still to be dropped. *)
Fixpoint replace_aux (old new : text) (skip : nat) (s : text) : text :=
  match s with
  | [] => []
  | c :: s' =>
      match skip with
      | S k => replace_aux old new k s'
      | O =>
          if startswith old s
          then new ++ replace_aux old new (length old - 1) s'
          else c :: replace_aux old new O s'
      end
  end.

Definition replace (old new s : text) : text := replace_aux old new O s.

(** [sep.join(parts)]. *)
Fixpoint join (sep : text) (parts : list text) : text :=
  match parts with
  | [] => []
  | [p] => p
  | p :: ps => p ++ sep ++ join sep ps
  end.

(** [l.count(x)] and [x in l] for lists of texts. *)
Definition count_occ_text (x : text) (l : list text) : nat :=
  length (filter (fun y => x = y) l).

Definition mem (x : text) (l : list text) : bool := bool_decide (x ∈ l).

(** [sum(p(c) for c in s)]. *)
Definition count_chars (p : ascii -> bool) (s : text) : nat :=
  length (filter (fun c => p c = true) s).

(** Decimal notation of a natural number and of an integer, as [str(n)]. *)
Definition dec_nat (n : nat) : text :=
  list_ascii_of_string (NilZero.string_of_uint (Nat.to_uint n)).

Definition dec_Z (z : Z) : text :=
  list_ascii_of_string (NilZero.string_of_int (Z.to_int z)).

(** The first element of a list satisfying a test ([for ... if ...: break]). *)
Definition first_such {A} (p : A -> bool) (l : list A) : option A :=
  List.find p l.

(** ** Rule tables *)

Definition ROLE_TYPOS : list (text * list text) :=
  [
    (str "manager", map str ["manger"; "maneger"; "managr"; "mangaer";
       "manaager"; "managar"; "manageer"; "maanger"; "mamager"; "mnager";
       "mangager"; "mananger"; "managaer"; "managre"; "maager"; "managerr";
       "mananager"; "manater"; "maneger"]);
    (str "management", map str ["managment"; "managemnt"; "manegement";
       "managament"; "mangement"; "managenment"; "managerment"; "managemnet";
       "managemetn"]);
    (str "director", map str ["directer"; "directur"; "direcor"; "directot";
       "drector"; "direktor"; "diector"; "directior"; "directr"; "direcctor";
       "dirctor"; "directore"; "derector"; "directoer"; "direcotr";
       "directoor"]);
    (str "engineer", map str ["enginer"; "enginear"; "enigneer"; "engineeer";
       "enginner"; "enginere"; "engeneer"; "engnieer"; "engieer"; "engieneer";
       "engineerr"; "enginee"; "enegineer"; "engineir"; "engenear";
       "engineear"; "engienear"; "engineerng"]);
    (str "engineering", map str ["enginnering"; "enginering"; "engeneering";
       "enginneering"; "engineerig"; "engineerng"; "engieneering";
       "engineerring"]);
    (str "developer", map str ["develper"; "developper"; "devloper";
       "develoer"; "develeoper"; "devoloper"; "developor"; "develope";
       "develoepr"; "developr"; "devleoper"; "develpoer"; "develloper";
       "developeer"]);
    (str "development", map str ["developement"; "devlopment"; "develoment";
       "developmnet"; "develepoment"; "developmentt"; "developmnt";
       "develepment"; "developmet"]);
    (str "analyst", map str ["analist"; "analys"; "analysit"; "anlyst";
       "analyist"; "annalyst"; "analayst"; "analst"; "analyyst"; "analyet";
       "analyts"; "anaylst"]);
    (str "consultant", map str ["consulant"; "consultent"; "consutant";
       "consaltant"; "consultat"; "consultnat"; "consulent"; "consultannt";
       "consultanat"; "consulatnt"]);
    (str "specialist", map str ["specalist"; "specilist"; "specialst";
       "spcialist"; "specailist"; "specialits"; "speicalist"; "specialsit";
       "speciliast"]);
    (str "coordinator", map str ["cordinator"; "coodinator"; "coordiantor";
       "coordinater"; "cooridnator"; "coordnator"; "corrdinator";
       "coordiator"; "coordintor"; "cordinater"]);
    (str "executive", map str ["excutive"; "exective"; "executiv"; "executve";
       "exucutive"; "exectuive"; "executivee"; "exectutive"; "executibe";
       "execuitve"; "executuve"]);
    (str "assistant", map str ["assitant"; "asistant"; "assistnat";
       "assisant"; "assitent"; "asisstant"; "assistent"; "assistatn";
       "assisatnt"; "assisstant"]);
    (str "president", map str ["presidant"; "presedent"; "presiden";
       "presidnet"; "presindent"; "presient"; "presidnt"; "presidenet"]);
    (str "senior", map str ["senoir"; "seinor"; "snior"; "senioe"; "seior";
       "senor"; "senioor"]);
    (str "junior", map str ["junoir"; "junioe"; "jnior"; "junor"; "juior"]);
    (str "architect", map str ["architec"; "arcitect"; "architecht";
       "architech"; "artchitect"; "architct"; "archtiect"; "architectt";
       "archirect"]);
    (str "accountant", map str ["accountent"; "acountant"; "accountan";
       "acocuntant"; "accoutant"; "accountnat"; "accounant"; "accountat";
       "accontant"]);
    (str "administrator", map str ["administator"; "adminstrator";
       "adminisrator"; "adminsitrator"; "adminstator"; "administrater";
       "adminitrator"; "administraor"]);
    (str "representative", map str ["representive"; "represenative";
       "representaive"; "represetative"; "representatie"; "representativee";
       "representatve"; "represntative"]);
    (str "supervisor", map str ["superviser"; "supervior"; "supervsior";
       "suprevisor"; "supervisior"; "supervisr"; "superivsor"; "superviosr";
       "supervisoor"]);
    (str "marketing", map str ["markting"; "marketng"; "makreting";
       "markeeting"; "marketign"; "marekting"; "martketing"; "marketinng";
       "marketin"]);
    (str "operations", map str ["opertions"; "operatons"; "oprations";
       "operatiosn"; "opeartions"; "operatins"; "operaions"; "opertaions"]);
    (str "finance", map str ["finace"; "finanace"; "financ"; "fianance";
       "finacne"; "fiannce"]);
    (str "financial", map str ["finacial"; "financal"; "finanical";
       "financila"; "finanaical"]);
    (str "associate", map str ["assocaite"; "asociate"; "assoicate";
       "assocate"; "associte"; "associat"; "asscoiate"; "associae"]);
    (str "founder", map str ["foundr"; "foundre"; "founer"; "foudner";
       "foundeer"; "founde"]);
    (str "officer", map str ["oficer"; "offcer"; "officr"; "offcier";
       "offier"; "officeer"]);
    (str "partner", map str ["partener"; "parter"; "partnr"; "partenr";
       "partne"; "partneer"]);
    (str "technician", map str ["techician"; "techncian"; "technicain";
       "technican"; "technicina"]);
    (str "technical", map str ["techincal"; "tehcnical"; "tecnical";
       "techical"; "technicla"]);
    (str "technology", map str ["technolgy"; "techonology"; "technoloy";
       "techology"; "technologyy"]);
    (str "recruiter", map str ["recuiter"; "recruter"; "recruitor";
       "recrutier"; "recruitr"]);
    (str "attorney", map str ["attoney"; "attorny"; "atorney"; "attornet";
       "attornney"; "attoreny"]);
    (str "designer", map str ["desinger"; "desginer"; "designr"; "deisgner";
       "designeer"; "desiner"]);
    (str "strategist", map str ["strategis"; "startegist"; "stratagist";
       "stategist"; "strategsit"]);
    (str "business", map str ["busines"; "buisness"; "bussiness"; "busniess";
       "buisines"; "bussines"; "businss"; "busienss"; "busniness";
       "bsuiness"]);
    (str "customer", map str ["custmer"; "cutomer"; "custormer"; "cusotmer";
       "customr"; "custommer"]);
    (str "product", map str ["prodcut"; "porduct"; "prduct"; "proudct";
       "produc"; "producct"]);
    (str "project", map str ["porject"; "proejct"; "projec"; "prject";
       "proect"; "projct"]);
    (str "software", map str ["sofware"; "sotware"; "softwre"; "softare";
       "sofwtare"; "softwear"]);
    (str "professional", map str ["proffesional"; "profesional";
       "proffessional"; "professinal"; "professionl"; "professonal";
       "profssional"; "professsional"]);
    (str "corporate", map str ["corproate"; "coporate"; "corporat";
       "corpoarte"; "coroprate"]);
    (str "support", map str ["suport"; "supprot"; "supprt"; "suppoort";
       "suppport"]);
    (str "service", map str ["servcie"; "serivce"; "sevice"; "servic";
       "servcice"]);
    (str "security", map str ["secuirty"; "securtiy"; "secutiry"; "securty";
       "secuiryt"]);
    (str "resource", map str ["resoruce"; "resourc"; "resrouce"; "reource"]);
    (str "principal", map str ["princpal"; "prinicpal"; "pricipal";
       "principla"; "prnicipal"]);
    (str "commercial", map str ["commerical"; "comercial"; "commericial";
       "commercail"]);
    (str "regional", map str ["reginal"; "regioanl"; "regioal"; "regionl";
       "reagional"]);
    (str "national", map str ["natioal"; "nationl"; "natoinal"; "nationla";
       "naitonal"]);
    (str "international", map str ["internatioanl"; "internatinal";
       "interantional"; "internationl"]);
    (str "general", map str ["genral"; "generl"; "genaral"; "generla";
       "genearl"]);
    (str "compliance", map str ["complience"; "compliace"; "compliane";
       "complicance"]);
    (str "procurement", map str ["procurment"; "procuremnt"; "procuremennt";
       "procurrement"]);
    (str "acquisition", map str ["aquisition"; "acquistion"; "acquisiton";
       "acqusition"]);
    (str "logistics", map str ["logisitics"; "logisitcs"; "logstics";
       "logistcs"]);
    (str "manufacturing", map str ["manufacuring"; "manufaturing";
       "manufacturng"; "manufactruing"]);
    (str "pharmaceutical", map str ["pharmeceutical"; "pharamceutical";
       "pharmaceuitcal"]);
    (str "healthcare", map str ["heathcare"; "helathcare"; "healtcare";
       "healthcre"]);
    (str "education", map str ["educaton"; "educaiton"; "educaion";
       "eductaion"]);
    (str "government", map str ["goverment"; "governmnet"; "govenrment";
       "govermnent"]);
    (str "investment", map str ["investmnet"; "investement"; "investemnt";
       "invesment"]);
    (str "insurance", map str ["insurace"; "insurnace"; "insurence";
       "insurancce"]);
    (str "leadership", map str ["leaderhsip"; "leadershi"; "leadershp";
       "leadeership"]);
    (str "entrepreneur", map str ["entrepeneur"; "entreprener";
       "entreprenuer"; "entreprneur"; "enterprenuer"; "entreperneur";
       "entreprenur"]);
    (str "certified", map str ["certifed"; "certiifed"; "cetified";
       "cretified"; "certifeid"])
  ].

Definition ROLE_PLACEHOLDERS : list text :=
  map str ["asdfgh"; "qwerty"; "zxcvbn"; "asdf"; "qwer"; "zxcv"; "aaaaaa";
    "bbbbbb"; "test"; "testing"; "xxx"; "yyy"; "zzz"; "null"; "undefined";
    "none"; "n/a"; "na"; "tbd"; "tba"; "placeholder"; "temp"; "todo"; "fixme";
    "abc"; "xyz"].

Definition ROLE_SCAM_PATTERNS : list text :=
  map str ["work from home"; "work at home"; "make money"; "earn money";
    "passive income"; "get rich"; "easy money"; "be your own boss"; "mlm";
    "multi level marketing"; "network marketing"; "crypto trader";
    "forex trader"; "bitcoin trader"; "day trader"; "investment opportunity";
    "financial freedom"; "side hustle"; "join my team"; "dm me"; "click link";
    "link in bio"; "work online"; "online business"; "home based"].

Definition ROLE_URL_TLDS : list text :=
  map str ["com"; "org"; "io"; "ai"; "co"; "dev"; "app"; "xyz"; "me"; "ly";
    "gg"; "edu"; "gov"; "info"; "biz"; "tech"; "cloud"; "online"; "site";
    "store"; "us"; "uk"; "ca"; "de"; "fr"; "in"; "au"; "nl"; "es"; "it"; "br";
    "jp"; "kr"; "cn"; "ru"; "tv"; "fm"; "games"; "life"; "work"; "realty";
    "agency"; "digital"; "media"; "world"; "global"; "solutions"; "services";
    "consulting"; "network"; "systems"; "ventures"; "capital"; "finance";
    "money"; "company"; "group"; "team"; "studio"; "design"; "marketing";
    "software"; "tools"; "health"; "healthcare"; "legal"; "law"; "news";
    "blog"; "space"; "zone"; "link"; "click"; "today"; "one"; "pro"; "expert";
    "careers"; "jobs"].

Definition ROLE_JOB_KEYWORDS : list text :=
  map str ["manager"; "director"; "engineer"; "developer"; "analyst";
    "consultant"; "specialist"; "coordinator"; "assistant"; "executive";
    "officer"; "lead"; "head"; "chief"; "president"; "vp"; "vice"; "senior";
    "junior"; "associate"; "partner"; "founder"; "owner"; "ceo"; "cto"; "cfo";
    "coo"; "cmo"; "cio"; "sales"; "marketing"; "operations"; "admin";
    "supervisor"; "representative"; "architect"; "designer"; "writer";
    "editor"; "producer"; "teacher"; "professor"; "coach"; "trainer"; "nurse";
    "doctor"; "attorney"; "lawyer"; "accountant"; "advisor"; "adviser";
    "strategist"; "planner"; "recruiter"; "broker"].

Definition BLOCKED_EMAIL_PREFIXES : list text :=
  map str ["info@"; "hello@"; "owner@"; "ceo@"; "founder@"; "contact@";
    "support@"; "team@"; "admin@"; "office@"; "mail@"; "connect@"; "help@";
    "hi@"; "welcome@"; "inquiries@"; "general@"; "feedback@"; "ask@";
    "outreach@"; "communications@"; "crew@"; "staff@"; "community@";
    "reachus@"; "talk@"; "service@"].

Definition VALID_EMPLOYEE_COUNTS : list text :=
  map str ["0-1"; "2-10"; "11-50"; "51-200"; "201-500"; "501-1,000";
    "1,001-5,000"; "5,001-10,000"; "10,001+"].

Definition VALID_SOURCE_TYPES : list text :=
  map str ["public_registry"; "company_site"; "first_party_form";
    "licensed_resale"; "proprietary_database"].

Definition RESTRICTED_SOURCES : list text :=
  map str ["zoominfo.com"; "apollo.io"; "people-data-labs.com";
    "peopledatalabs.com"; "rocketreach.co"; "hunter.io"; "snov.io";
    "lusha.com"; "clearbit.com"; "leadiq.com"; "seamless.ai"; "cognism.com";
    "uplead.com"; "lead411.com"].

Definition ATTESTATION_FIELDS : list text :=
  map str ["wallet_ss58"; "terms_version_hash"; "lawful_collection";
    "no_restricted_sources"; "license_granted"].

Definition ROLE_GEOGRAPHIC_ENDINGS : list text :=
  map str ["-vietnam"; "-cambodia"; "-apac"; "-emea"; "-latam"; "-amer";
    "-asia"; "-europe"; "-africa"; "-india"; "-china"; "-japan"; "- vietnam";
    "- cambodia"; "- apac"; "- emea"; "- latam"].

Definition ROLE_CSUITE_TITLES : list text :=
  map str ["ceo"; "cfo"; "cto"; "coo"; "cmo"; "cio"; "cso"; "cro"; "cco"; "cpo"].

Definition LOCATION_GARBAGE_PATTERNS : list text :=
  map str ["software"; "technology"; "solutions"; "services"; "consulting";
    "marketing"; "sales"; "engineering"; "development"; "management";
    "http://"; "https://"; "www."; ".com"; ".org"; ".io"; "department";
    "division"; "team"; "group"; "unit"; "street"; "avenue"; "boulevard";
    "road"; "suite"; "floor"; "n/a"; "none"; "null"; "undefined"; "test";
    "asdf"].

Definition US_COUNTRY_ALIASES : list text :=
  map str ["united states"; "usa"; "us"; "america"; "u.s."; "u.s.a."].

Definition FREE_EMAIL_DOMAINS : list text :=
  map str ["gmail.com"; "googlemail.com"; "yahoo.com"; "yahoo.co.uk";
    "yahoo.fr"; "outlook.com"; "hotmail.com"; "live.com"; "msn.com";
    "aol.com"; "mail.com"; "protonmail.com"; "proton.me"; "icloud.com";
    "me.com"; "mac.com"; "zoho.com"; "yandex.com"; "gmx.com"; "mail.ru"].

Definition DISPOSABLE_DOMAINS_fallback : list text :=
  map str ["tempmail.com"; "temp-mail.org"; "guerrillamail.com";
    "mailinator.com"; "throwaway.email"; "10minutemail.com"; "fakeinbox.com";
    "trashmail.com"; "maildrop.cc"; "getnada.com"; "yopmail.com";
    "sharklasers.com"; "dispostable.com"; "mailnesia.com"; "tempail.com";
    "tempr.email"].

Definition REQUIRED_FIELDS : list string :=
  ["business"; "full_name"; "first"; "last"; "email"; "role"; "website";
    "industry"; "sub_industry"; "country"; "city"; "linkedin";
    "company_linkedin"; "source_url"; "description"; "employee_count"].

Definition MAJOR_HUBS_BY_COUNTRY : list (text * list text) :=
  [
    (str "united states", map str ["new york city"; "manhattan"; "brooklyn";
       "san francisco"; "los angeles"; "san diego"; "san jose"; "seattle";
       "portland"; "austin"; "dallas"; "houston"; "chicago"; "boston";
       "denver"; "miami"; "washington"; "atlanta"; "phoenix"]);
    (str "canada", [str "toronto"; str "vancouver";
       (str "montr" ++ [chr 233] ++ str "al"); str "montreal"]);
    (str "united kingdom", map str ["london"; "manchester"; "edinburgh";
       "cambridge"; "oxford"]);
    (str "germany", [str "berlin"; (str "m" ++ [chr 252] ++ str "nchen");
       str "munich"; str "frankfurt am main"; str "frankfurt"; str "hamburg"]);
    (str "france", map str ["paris"]);
    (str "netherlands", map str ["amsterdam"; "rotterdam"]);
    (str "switzerland", [(str "z" ++ [chr 252] ++ str "rich"); str "zurich";
       (str "gen" ++ [chr 232] ++ str "ve"); str "geneva"]);
    (str "ireland", map str ["dublin"]);
    (str "sweden", map str ["stockholm"]);
    (str "spain", map str ["barcelona"; "madrid"]);
    (str "hong kong", map str ["hong kong"]);
    (str "singapore", map str ["singapore"]);
    (str "japan", map str ["tokyo"; "osaka"]);
    (str "south korea", map str ["seoul"]);
    (str "china", map str ["shanghai"; "beijing"; "shenzhen"]);
    (str "india", map str ["bengaluru"; "bangalore"; "mumbai"; "new delhi";
       "hyderabad"; "pune"]);
    (str "australia", map str ["sydney"; "melbourne"]);
    (str "new zealand", map str ["auckland"]);
    (str "israel", map str ["tel aviv"]);
    (str "united arab emirates", map str ["dubai"; "abu dhabi"]);
    (str "brazil", [(str "s" ++ [chr 227] ++ str "o paulo"); str "sao paulo"])
  ].

(** An ideal-customer-profile definition; [icp_regions] is [None] when the
    dictionary has no ["regions"] key. *)
Record ICP := {
  icp_name : text;
  icp_sub_industries : list text;
  icp_roles : list text;
  icp_regions : option (list text)
}.

Definition ICP_DEFINITIONS : list ICP :=
  [
    {| icp_name := str "Fuel/Energy Operations";
       icp_sub_industries := map str ["fuel"; "oil and gas"; "fossil fuels";
       "energy"]; icp_roles := map str ["coo"; "chief operating officer";
       "director of operations"; "vp of operations"; "cto";
       "chief technology officer"; "vp of engineering"; "cio";
       "chief information officer"]; icp_regions := None |};
    {| icp_name := str "Agriculture/Farming";
       icp_sub_industries := map str ["agriculture"; "farming"; "agtech";
       "livestock"; "aquaculture"]; icp_roles := map str ["coo";
       "chief operating officer"; "vp of operations"; "cto";
       "chief technology officer"; "vp of engineering"; "cio";
       "chief information officer"]; icp_regions := None |};
    {| icp_name := str "Renewable Energy";
       icp_sub_industries := map str ["solar"; "wind energy";
       "renewable energy"; "clean energy"; "biomass energy"; "energy storage";
       "energy efficiency"]; icp_roles := map str ["coo"; "vp of operations";
       "cto"; "vp of engineering"; "cio"; "asset manager"; "site manager";
       "plant manager"; "facility manager"]; icp_regions := None |};
    {| icp_name := str "Winery/Horticulture";
       icp_sub_industries := map str ["winery"; "wine and spirits";
       "horticulture"; "farming"; "agriculture"; "hydroponics"];
       icp_roles := map str ["coo"; "vp of operations"; "cto";
       "vp of engineering"; "cio"; "farm manager"; "vineyard manager";
       "head grower"; "production manager"]; icp_regions := None |};
    {| icp_name := str "E-Commerce/Retail Marketing";
       icp_sub_industries := map str ["e-commerce"; "e-commerce platforms";
       "retail"; "retail technology"]; icp_roles := map str ["vp ecommerce";
       "vp e-commerce"; "director of ecommerce"; "head of growth";
       "vp of growth"; "chief growth officer"; "cmo";
       "chief marketing officer"; "vp of marketing"; "founder"; "co-founder";
       "ceo"]; icp_regions := None |};
    {| icp_name := str "Digital Marketing/Advertising";
       icp_sub_industries := map str ["digital marketing"; "email marketing";
       "marketing"; "marketing automation"; "advertising";
       "advertising platforms"; "affiliate marketing"; "content marketing"];
       icp_roles := map str ["founder"; "co-founder"; "ceo";
       "director of partnerships"; "vp of partnerships"; "head of strategy";
       "chief strategy officer"; "cmo"; "managing director"; "president"];
       icp_regions := None |};
    {| icp_name := str "AI/ML Technical";
       icp_sub_industries := map str ["artificial intelligence";
       "machine learning"; "natural language processing";
       "predictive analytics"]; icp_roles := map str ["ceo"; "founder";
       "co-founder"; "cto"; "vp of engineering"; "head of engineering";
       "vp of ai"; "head of ai"; "director of ai"; "vp of machine learning";
       "chief ai officer"; "chief data officer"; "software engineer"];
       icp_regions := None |};
    {| icp_name := str "Real Estate Investment";
       icp_sub_industries := map str ["real estate"; "real estate investment";
       "residential"; "commercial real estate"; "property development";
       "property management"]; icp_roles := map str ["ceo"; "owner";
       "co-owner"; "sole operator"; "founder"; "co-founder";
       "managing partner"; "managing director"; "principal"; "president";
       "partner"]; icp_regions := None |};
    {| icp_name := str "Wealth Management/Family Office";
       icp_sub_industries := map str ["asset management"; "venture capital";
       "hedge funds"; "financial services"; "impact investing"];
       icp_roles := map str ["ceo"; "president"; "managing director";
       "managing partner"; "principal"; "partner"; "founder"; "cio";
       "chief investment officer"; "portfolio manager"; "wealth manager";
       "coo"; "cfo"; "family office manager"]; icp_regions := None |};
    {| icp_name := str "FinTech/Banking Risk & Compliance";
       icp_sub_industries := map str ["fintech"; "banking"; "payments";
       "financial services"; "credit cards"; "mobile payments";
       "transaction processing"]; icp_roles := map str ["cro";
       "chief risk officer"; "vp of risk"; "head of risk"; "director of risk";
       "cco"; "chief compliance officer"; "vp of compliance";
       "head of compliance"; "compliance officer"; "bsa officer";
       "aml officer"; "kyc manager"]; icp_regions := None |};
    {| icp_name := str "Clinical Research/Labs";
       icp_sub_industries := map str ["clinical trials"; "biotechnology";
       "pharmaceutical"; "biopharma"; "life science"];
       icp_roles := map str ["data scientist"; "data manager";
       "clinical data manager"; "biostatistician"; "ceo"; "cto"; "coo"; "cso";
       "chief scientific officer"; "vp of operations"]; icp_regions := None |};
    {| icp_name := str "Research/Academic";
       icp_sub_industries := map str ["higher education"; "life science";
       "biotechnology"; "neuroscience"; "genetics"];
       icp_roles := map str ["principal investigator"; "lead researcher";
       "senior researcher"; "research director"; "professor";
       "associate professor"; "assistant professor"; "research scientist";
       "lab director"; "department head"]; icp_regions := None |};
    {| icp_name := str "Biotech/Pharma";
       icp_sub_industries := map str ["biotechnology"; "biopharma";
       "pharmaceutical"; "genetics"; "life science"; "bioinformatics"];
       icp_roles := map str ["ceo"; "founder"; "cto"; "cso";
       "chief scientific officer"; "coo"; "cmo"; "vp of business development";
       "head of business development"; "vp of partnerships"];
       icp_regions := None |};
    {| icp_name := str "Broadcasting/Media (Africa)";
       icp_sub_industries := map str ["broadcasting"; "video";
       "digital media"; "content"; "content delivery network";
       "telecommunications"; "digital entertainment"];
       icp_roles := map str ["cto"; "cfo"; "head of engineering";
       "vp of engineering"; "head of video"; "head of streaming";
       "head of ott"; "director of ott"; "head of product";
       "chief product officer"]; icp_regions := Some (map str ["africa";
       "nigeria"; "south africa"; "kenya"; "ghana"; "egypt"; "morocco";
       "ethiopia"; "tanzania"; "uganda"; "algeria"; "sudan"; "angola";
       "cameroon"]) |};
    {| icp_name := str "Hospitality/Hotels (US)";
       icp_sub_industries := map str ["hospitality"; "hotel"; "resorts";
       "travel accommodations"; "vacation rental"; "tourism"];
       icp_roles := map str ["business development";
       "vp of business development"; "owner"; "co-owner"; "founder"; "ceo";
       "president"; "general manager"; "gm"; "operations manager";
       "director of operations"; "hotel manager"];
       icp_regions := Some (US_COUNTRY_ALIASES) |};
    {| icp_name := str "Small/Local Businesses (US)";
       icp_sub_industries := map str ["local business"; "local"; "retail";
       "restaurants"; "food and beverage"; "professional services";
       "home services"; "real estate"; "construction"; "automotive";
       "health care"; "fitness"; "beauty"; "consulting"];
       icp_roles := map str ["owner"; "co-owner"; "business owner";
       "sole proprietor"; "sole operator"; "franchise owner"; "franchisee";
       "store owner"; "founder"; "ceo"; "principal"; "partner"];
       icp_regions := Some (US_COUNTRY_ALIASES) |}
  ].

Definition LOCATION_MAX_LENGTH : nat := 50.

(** ** JSON values and lead records *)

Inductive value :=
| VNone
| VBool (b : bool)
| VInt (n : Z)
| VStr (s : text).

(** Python truthiness ([if v], [not v]). *)
Definition truthy (v : value) : bool :=
  match v with
  | VNone => false
  | VBool b => b
  | VInt n => negb (n =? 0)
  | VStr s => match s with [] => false | _ => true end
  end.

(** [str(v)]. *)
Definition py_str (v : value) : text :=
  match v with
  | VNone => str "None"
  | VBool true => str "True"
  | VBool false => str "False"
  | VInt n => dec_Z n
  | VStr s => s
  end.

(** [lead.get(k, d)] and [lead.get(k)]. *)
Definition get (lead : gmap string value) (k : string) (d : value) : value :=
  default d (lead !! k).

Definition get_none (lead : gmap string value) (k : string) : value :=
  get lead k VNone.

(** [not s] for a text. *)
Definition is_empty (s : text) : bool :=
  match s with [] => true | _ => false end.

(** [errors.append(code)] under a condition. *)
Definition when (b : bool) (code : text) : list text :=
  if b then [code] else [].

(** [errors.append(f(x)); break] for the first [x] of a list passing a test. *)
Definition first_code {A} (p : A -> bool) (l : list A) (code : A -> text)
  : list text :=
  match first_such p l with
  | Some x => [code x]
  | None => []
  end.

(** End of the subject for the regex anchor [$]: at the end, or before a
    newline that ends the subject. *)
Definition at_end (s : text) : bool :=
  match s with
  | [] => true
  | [c] => N.eqb (cp c) 10
  | _ => false
  end.

(** The regex assertion [\b] between two neighbouring characters. *)
Definition is_word_opt (c : option ascii) : bool :=
  match c with Some c => re_word c | None => false end.

Definition boundary (prev next : option ascii) : bool :=
  xorb (is_word_opt prev) (is_word_opt next).

(** ** Section 1: required fields *)

Definition field_missing (lead : gmap string value) (f : string) : bool :=
  match lead !! f with
  | None => true
  | Some v => is_empty (strip (py_str v))
  end.

Definition validate_required_fields (lead : gmap string value) : list text :=
  let errors :=
    flat_map (fun f => when (field_missing lead f)
                            (str "missing_field:" ++ str f))
             REQUIRED_FIELDS in
  let country := lower (py_str (get lead "country" (VStr []))) in
  errors ++
  when (existsb (fun alias => contains alias country) US_COUNTRY_ALIASES
        && (negb (truthy (get_none lead "state"))
            || is_empty (strip (py_str (get_none lead "state")))))
       (str "missing_field:state (required for US leads)").

(** ** Section 1b: source provenance *)

(** Regex class [[a-fA-F0-9]]. *)
Definition is_hex (c : ascii) : bool :=
  in_range 97 102 c || in_range 65 70 c || is_09 c.

(** [re.match(r'^[a-fA-F0-9]{64}$', s)]. *)
Definition is_sha256_hex (s : text) : bool :=
  forallb is_hex (take 64 s) && (length (take 64 s) =? 64)%nat
  && at_end (drop 64 s).

Definition validate_source_provenance (lead : gmap string value) : list text :=
  let source_url := strip (py_str (get lead "source_url" (VStr []))) in
  let source_type := strip (py_str (get lead "source_type" (VStr []))) in
  (if is_empty source_url
   then [str "missing_field:source_url"]
   else first_code (fun restricted => contains restricted (lower source_url))
                   RESTRICTED_SOURCES
                   (fun restricted => str "restricted_source:" ++ restricted))
  ++
  (if is_empty source_type
   then [str "missing_field:source_type"]
   else when (negb (mem source_type VALID_SOURCE_TYPES))
             (str "source_type_invalid:" ++ source_type ++ str " (valid: "
              ++ join (str ", ") VALID_SOURCE_TYPES ++ str ")"))
  ++
  (if bool_decide (source_type = str "licensed_resale")
   then
     let license_hash := strip (py_str (get lead "license_doc_hash" (VStr []))) in
     if is_empty license_hash
     then [str "missing_license_doc_hash (required for licensed_resale)"]
     else when (negb (is_sha256_hex license_hash))
            (str "license_doc_hash_invalid_format (must be 64 hex chars SHA-256)")
   else []).

(** ** Section 1c: terms attestation *)

Definition bool_fields : list string :=
  ["lawful_collection"; "no_restricted_sources"; "license_granted"].

(** [value is not True]. *)
Definition is_not_True (v : value) : bool :=
  match v with VBool true => false | _ => true end.

Definition validate_attestation (lead : gmap string value) : list text :=
  let wallet := strip (py_str (get lead "wallet_ss58" (VStr []))) in
  let terms_hash := strip (py_str (get lead "terms_version_hash" (VStr []))) in
  when (is_empty wallet) (str "missing_field:wallet_ss58")
  ++ when (is_empty terms_hash) (str "missing_field:terms_version_hash")
  ++ flat_map (fun field_name =>
                 when (is_not_True (get_none lead field_name))
                      (str "attestation_false_or_missing:" ++ str field_name))
              bool_fields.

(** ** Section 1d: location *)

Section Location.

(** The order in which this interpreter process iterates over [set(words)];
    it depends on the process's string-hash seed. *)
Variable set_iter : list text -> list text.

Definition validate_location_field (location_value : value)
    (field_name : text) : list text :=
  if negb (truthy location_value) then [] else
  let loc := strip (py_str location_value) in
  let loc_lower := lower loc in
  let words := split_ws loc_lower in
  when (LOCATION_MAX_LENGTH <? length loc)%nat
       (field_name ++ str "_too_long:" ++ dec_nat (length loc) ++ str "/"
        ++ dec_nat LOCATION_MAX_LENGTH)
  ++ first_code (fun pattern => contains pattern loc_lower)
                LOCATION_GARBAGE_PATTERNS
                (fun pattern => field_name ++ str "_garbage_pattern:" ++ pattern)
  ++ (if (2 <=? length words)%nat
      then first_code (fun word => (3 <? length word)%nat
                                   && (2 <=? count_occ_text word words)%nat)
                      (set_iter words)
                      (fun word => field_name ++ str "_duplicate_word:" ++ word)
      else [])
  ++ when (startswith (str "the ") loc_lower
           || startswith (str "a ") loc_lower
           || startswith (str "an ") loc_lower)
          (field_name ++ str "_starts_with_article").

Definition validate_location (city country region : value) : list text :=
  flat_map (fun '(location_value, field_name) =>
              validate_location_field location_value field_name)
           [(city, str "city"); (country, str "country"); (region, str "region")].

End Location.

(** ** Section 2: role validation *)

(** [(.)\1{n,}] at the start of [s]: a character other than a newline,
    followed by at least [n] copies of itself. *)
Definition repeated_at (n : nat) (s : text) : bool :=
  match s with
  | c :: s' =>
      negb (N.eqb (cp c) 10)
      && (length (take n s') =? n)%nat
      && forallb (fun d => bool_decide (d = c)) (take n s')
  | [] => false
  end.

(** Regex classes [[a-zA-Z0-9._%+-]] and [[a-zA-Z0-9.-]]. *)
Definition is_email_local (c : ascii) : bool :=
  is_azAZ c || is_09 c || char_in c (str "._%+-").

Definition is_email_domain (c : ascii) : bool :=
  is_azAZ c || is_09 c || char_in c (str ".-").

(** The domain part [[...]+\.[a-zA-Z]{2,}] inside the run [d] of domain
    characters that follows the [@]; [k] is the number of characters of the
    run before [d].  The greedy [+] gives up characters from the right, so
    the last dot that has at least one character before it and two letters
    after it is the one matched; the result is the length of the match. *)
Fixpoint domain_match (k : nat) (d : text) : option nat :=
  match d with
  | [] => None
  | c :: d' =>
      match domain_match (S k) d' with
      | Some e => Some e
      | None =>
          let letters := fst (span is_azAZ d') in
          if N.eqb (cp c) 46 && (1 <=? k)%nat && (2 <=? length letters)%nat
          then Some (k + 1 + length letters)%nat
          else None
      end
  end.

(** [[a-zA-Z0-9._%+-]+@[a-zA-Z0-9.-]+\.[a-zA-Z]{2,}] at the start of [s]:
    the length of the match. *)
Definition email_match (s : text) : option nat :=
  let '(loc, rest) := span is_email_local s in
  match loc, rest with
  | _ :: _, c :: rest' =>
      if N.eqb (cp c) 64
      then match domain_match 0 (fst (span is_email_domain rest')) with
           | Some e => Some (length loc + 1 + e)%nat
           | None => None
           end
      else None
  | _, _ => None
  end.

(** Regex class [[\d\s\-\(\)]]. *)
Definition is_phone_char (c : ascii) : bool :=
  py_isdecimal c || py_isspace c || char_in c (str "-()").

(** [{n,}] of a class at the start of [s]. *)
Definition at_least (n : nat) (p : ascii -> bool) (s : text) : bool :=
  (length (take n s) =? n)%nat && forallb p (take n s).

(** The character class of check 11 (CJK, kana, hangul, Arabic, Thai,
    Cyrillic, Hebrew). *)
Definition is_non_latin (c : ascii) : bool :=
  in_range 0x4e00 0x9fff c || in_range 0x3040 0x309f c
  || in_range 0x30a0 0x30ff c || in_range 0xac00 0xd7af c
  || in_range 0x0600 0x06ff c || in_range 0x0e00 0x0e7f c
  || in_range 0x0400 0x04ff c || in_range 0x0590 0x05ff c.

(** The character class of check 19 (emoji). *)
Definition is_emoji (c : ascii) : bool :=
  in_range 0x1F600 0x1F64F c || in_range 0x1F300 0x1F5FF c
  || in_range 0x1F680 0x1F6FF c || in_range 0x1F900 0x1F9FF c
  || in_range 0x1F1E0 0x1F1FF c || N.eqb (cp c) 0x2705
  || N.eqb (cp c) 0x274C || N.eqb (cp c) 0x2714.

(** [re.findall(r'\b\w+\b', s)]: the maximal runs of word characters. *)
Fixpoint word_tokens_aux (cur : text) (s : text) : list text :=
  match s with
  | [] => match cur with [] => [] | _ => [rev cur] end
  | c :: s' =>
      if re_word c
      then word_tokens_aux (c :: cur) s'
      else match cur with
           | [] => word_tokens_aux [] s'
           | _ => rev cur :: word_tokens_aux [] s'
           end
  end.

Definition word_tokens (s : text) : list text := word_tokens_aux [] s.

(** The characters of check 15. *)
Definition special_chars : text :=
  str "!@#$%^&*()_+-=[]{}|;:'" ++ [chr 34] ++ str ",.<>?/\`~".

(** [^\d+[xX]\s] *)
Definition achievement_prefix (s : text) : bool :=
  let '(digits, rest) := span py_isdecimal s in
  match digits, rest with
  | _ :: _, x :: sp :: _ => char_in x (str "xX") && py_isspace sp
  | _, _ => false
  end.

(** [\$\d+[MmKkBb]?\+?] at the start of [s]. *)
Definition dollar_amount (s : text) : bool :=
  match s with
  | d :: n :: _ => N.eqb (cp d) 36 && py_isdecimal n
  | _ => false
  end.

(** [\bof\s*$] at a position: [prev] is the character before it. *)
Definition trailing_of (prev : option ascii) (s : text) : bool :=
  match s with
  | o :: f :: rest =>
      N.eqb (cp o) 111 && N.eqb (cp f) 102
      && boundary prev (Some o) && forallb py_isspace rest
  | _ => false
  end.

(** [\s(?:at|@)\s+[A-Z]] at the start of [s]. *)
Definition company_at (s : text) : bool :=
  match s with
  | sp :: rest =>
      py_isspace sp &&
      let after_at :=
        if startswith (str "at") rest then Some (drop 2 rest)
        else if startswith (str "@") rest then Some (drop 1 rest)
        else None in
      match after_at with
      | Some r =>
          let '(ws, r') := span py_isspace r in
          match ws, r' with
          | _ :: _, c :: _ => is_AZ c
          | _, _ => false
          end
      | None => false
      end
  | [] => false
  end.

(** [\b w \b] at a position, for a literal [w]. *)
Definition literal_word (w : text) (prev : option ascii) (s : text) : bool :=
  startswith w s
  && boundary prev (head w)
  && boundary (last w) (head (drop (length w) s)).

(** [\b(?:inc\.|llc|ltd\.|corp\.)\b] at a position. *)
Definition legal_suffix (prev : option ascii) (s : text) : bool :=
  existsb (fun w => literal_word w prev s)
          (map str ["inc."; "llc"; "ltd."; "corp."]).

(** [^(?:i am|i'm|we are|we're|helping|passionate|dedicated|committed|driven)\s] *)
Definition bio_opener (s : text) : bool :=
  existsb (fun w => startswith w s
                    && match head (drop (length w) s) with
                       | Some c => py_isspace c
                       | None => false
                       end)
          (map str ["i am"; "i'm"; "we are"; "we're"; "helping"; "passionate";
                    "dedicated"; "committed"; "driven"]).

(** [\.\s*[A-Z]] at the start of [s]. *)
Definition sentence_break (s : text) : bool :=
  match s with
  | dot :: rest =>
      N.eqb (cp dot) 46 &&
      match snd (span py_isspace rest) with
      | c :: _ => is_AZ c
      | [] => false
      end
  | [] => false
  end.

(** [any(kw in p for kw in ROLE_JOB_KEYWORDS)] *)
Definition has_job_keyword (p : text) : bool :=
  existsb (fun kw => contains kw p) ROLE_JOB_KEYWORDS.

(** Check 13: one code per canonical word, for the first of its
    misspellings that is among the words of the role. *)
Definition role_typo_code (typo correct : text) : text :=
  str "role_typo:" ++ typo ++ str "->" ++ correct.

Definition role_typos (words_in_role : list text) : list text :=
  flat_map (fun '(correct, typos) =>
              first_code (fun typo => mem typo words_in_role) typos
                         (fun typo => role_typo_code typo correct))
           ROLE_TYPOS.

Section Role.

Variable set_iter : list text -> list text.

Definition validate_role (role : value) : list text :=
  if negb (truthy role) then [str "role_empty"] else
  let role := strip (py_str role) in
  let role_lower := lower role in
  let digits := count_chars py_isdigit role in
  let words := split_ws role_lower in
  let words_in_role := word_tokens role_lower in
  let letters := count_chars py_isalpha role in
  let vowels := count_chars (fun c => char_in (lower_char c) (str "aeiou")) role in
  let csuite_found := List.filter (fun title => contains title role_lower)
                                  ROLE_CSUITE_TITLES in
  let comma_parts := map (fun p => lower (strip p)) (split_on "," role) in
  let pipe_parts := map (fun p => lower (strip p)) (split_on "|" role) in
  (* 1. length *)
  when (length role <? 2)%nat (str "role_too_short")
  ++ when (80 <? length role)%nat
       (str "role_too_long:" ++ dec_nat (length role) ++ str "/80")
  (* 2. letters *)
  ++ when (negb (existsb is_azAZ role)) (str "role_no_letters")
  (* 3. digits / len(role) > 0.5 *)
  ++ when ((0 <? length role)%nat && (length role <? 2 * digits)%nat)
       (str "role_mostly_numbers")
  (* 4. placeholder *)
  ++ when (mem role_lower ROLE_PLACEHOLDERS) (str "role_placeholder")
  (* 5. (.)\1{3,} *)
  ++ when (search (repeated_at 3) role) (str "role_repeated_chars")
  (* 6. a word three times *)
  ++ when (existsb (fun word => (3 <=? count_occ_text word words)%nat)
                   (set_iter words))
       (str "role_repeated_words")
  (* 7. scam patterns *)
  ++ first_code (fun pattern => contains pattern role_lower) ROLE_SCAM_PATTERNS
                (fun pattern => str "role_scam_pattern:" ++ pattern)
  (* 8. URL *)
  ++ when (contains (str "http://") role || contains (str "https://") role
           || contains (str "www.") role)
       (str "role_contains_url")
  (* 9. email *)
  ++ when (search (fun s => bool_decide (is_Some (email_match s))) role)
       (str "role_contains_email")
  (* 10. phone *)
  ++ when (search (at_least 10 is_phone_char) role) (str "role_contains_phone")
  (* 11. scripts *)
  ++ when (existsb is_non_latin role) (str "role_non_english")
  (* 12. TLD *)
  ++ when (existsb (fun tld => contains (str "." ++ tld) role_lower) ROLE_URL_TLDS)
       (str "role_contains_website")
  (* 13. typos *)
  ++ role_typos words_in_role
  (* 14. letters *)
  ++ when (letters <? 3)%nat (str "role_too_few_letters")
  (* 15. first character *)
  ++ when (match role with c :: _ => char_in c special_chars | [] => false end)
       (str "role_starts_special_char")
  (* 16. achievements *)
  ++ when (achievement_prefix role || search dollar_amount role)
       (str "role_achievement_statement")
  (* 17. trailing of *)
  ++ when (search_prev trailing_of None role_lower) (str "role_incomplete_title")
  (* 18. company *)
  ++ when (search company_at role || search_prev legal_suffix None role_lower)
       (str "role_contains_company")
  (* 19. emoji *)
  ++ when (existsb is_emoji role) (str "role_contains_emoji")
  (* 20. hiring *)
  ++ when (contains (str "**hiring**") role_lower
           || contains (str "we're hiring") role_lower
           || contains (str "now hiring") role_lower)
       (str "role_hiring_marker")
  (* 21. bio *)
  ++ when (bio_opener role_lower) (str "role_bio_description")
  (* 22. long roles *)
  ++ when ((60 <? length role)%nat && negb (has_job_keyword role_lower))
       (str "role_no_job_keywords")
  (* 23. vowels / letters < 0.1 *)
  ++ when ((5 <? letters)%nat && (10 * vowels <? letters)%nat)
       (str "role_gibberish")
  (* 24. geographic endings *)
  ++ first_code (fun ending => endswith ending role_lower) ROLE_GEOGRAPHIC_ENDINGS
                (fun ending => str "role_geographic_ending:" ++ ending)
  (* 25. marketing sentence *)
  ++ when (search sentence_break role) (str "role_marketing_sentence")
  (* 26. several C-suite titles *)
  ++ when (1 <? length csuite_found)%nat
       (str "role_multiple_csuite:" ++ join (str ",") csuite_found)
  (* 27. comma stuffing *)
  ++ when (char_in "," role
           && (3 <=? length (List.filter has_job_keyword comma_parts))%nat)
       (str "role_comma_stuffing")
  (* 28. pipe stuffing *)
  ++ when (char_in "|" role
           && (2 <=? length pipe_parts)%nat
           && forallb has_job_keyword
                      (List.filter (fun p => negb (is_empty p)) pipe_parts))
       (str "role_pipe_stuffing").

End Role.

(** ** Section 3: description validation *)

(** [\d+\s*] followed by a continuation, at the start of [s]. *)
Definition digits_then (k : text -> bool) (s : text) : bool :=
  let '(digits, rest) := span py_isdecimal s in
  match digits with
  | _ :: _ => k (snd (span py_isspace rest))
  | [] => false
  end.

(** [followers?\s*(?:on\s* )?linkedin] (written here with a space before the
    closing parenthesis) at the start of [s]. *)
Definition followers_linkedin (s : text) : bool :=
  startswith (str "follower") s &&
  let r1 := drop 8 s in
  let r2 := if startswith (str "s") r1 then drop 1 r1 else r1 in
  let r3 := snd (span py_isspace r2) in
  let r4 := if startswith (str "on") r3
            then snd (span py_isspace (drop 2 r3)) else r3 in
  startswith (str "linkedin") r4.

(** The three follower patterns of check 5. *)
Definition follower_patterns : list (text -> bool) :=
  [ digits_then followers_linkedin;
    digits_then (startswith (str "seguidores"));
    digits_then (startswith (str "abonn" ++ [chr 233] ++ str "s")) ].

(** [re.match(r'^https?://\S+$', s)] *)
Definition just_url (s : text) : bool :=
  let rest :=
    if startswith (str "https://") s then Some (drop 8 s)
    else if startswith (str "http://") s then Some (drop 7 s)
    else None in
  match rest with
  | Some r =>
      let '(body, tl) := span (fun c => negb (py_isspace c)) r in
      negb (is_empty body) && at_end tl
  | None => false
  end.

(** [re.search(p, s).group()]: the length of the leftmost match. *)
Fixpoint search_len (m : text -> option nat) (s : text) : option nat :=
  match m s with
  | Some n => Some n
  | None => match s with
            | [] => None
            | _ :: s' => search_len m s'
            end
  end.

Definition nav_patterns : list text :=
  map str ["report this company"; "close menu"; "skip to main"; "cookie policy";
           "accept cookies"; "privacy settings"].

Definition desc_placeholders : list text :=
  map str ["lorem ipsum"; "n/a"; "placeholder"; "test description"; "tbd";
           "coming soon"].

(** The result is the pair (errors, warnings). *)
Definition validate_description (description : value) : list text * list text :=
  if negb (truthy description) then ([str "description_empty"], []) else
  let description := strip (py_str description) in
  let desc_lower := lower description in
  let letters := count_chars py_isalpha description in
  let vowels :=
    count_chars (fun c => char_in (lower_char c) (str "aeiou")) description in
  let has_cjk := existsb (in_range 0x4e00 0x9fff) description in
  let has_latin := existsb is_azAZ description in
  let has_arabic := existsb (in_range 0x0600 0x06ff) description in
  let has_thai := existsb (in_range 0x0e00 0x0e7f) description in
  let short := (length description <? 200)%nat in
  let warnings :=
    when (length description <? 70)%nat
         (str "desc_short:" ++ dec_nat (length description)
          ++ str "/70 (quality warning)") in
  let errors :=
    (* 1 *)
    when (2000 <? length description)%nat (str "desc_too_long")
    (* 2 *)
    ++ when (negb has_latin) (str "desc_no_letters")
    (* 3 *)
    ++ when (letters <? 50)%nat
         (str "desc_too_few_letters:" ++ dec_nat letters ++ str "/50")
    (* 4 *)
    ++ when (endswith (str "...") (rstrip description)) (str "desc_truncated")
    (* 5 *)
    ++ when (existsb (fun pattern => search pattern desc_lower) follower_patterns)
         (str "desc_linkedin_followers")
    (* 6 *)
    ++ when (existsb (fun pattern => contains pattern desc_lower) nav_patterns)
         (str "desc_navigation_text")
    (* 7, 7b, 7c *)
    ++ when (has_cjk && has_latin && short) (str "desc_garbled_unicode")
    ++ when (has_arabic && has_latin && short) (str "desc_arabic_mixed")
    ++ when (has_thai && has_latin && short) (str "desc_thai_mixed")
    (* 8. vowels / letters < 0.15 *)
    ++ when ((30 <? letters)%nat && (20 * vowels <? 3 * letters)%nat)
         (str "desc_gibberish")
    (* 9 *)
    ++ when (existsb (fun p => contains p desc_lower) desc_placeholders)
         (str "desc_placeholder")
    (* 10 *)
    ++ when (search (repeated_at 4) description) (str "desc_repeated_chars")
    (* 11 *)
    ++ when (just_url (strip description)) (str "desc_just_url")
    (* 12. len(match) / len(description) > 0.3 *)
    ++ when (match search_len email_match description with
             | Some n => (3 * length description <? 10 * n)%nat
             | None => false
             end)
         (str "desc_mostly_email")
    (* 13 *)
    ++ when (startswith (str "|") description) (str "desc_formatting_junk") in
  (errors, warnings).

(** ** Section 4: email validation *)

(** Regex classes [[\w._%+-]] and [[\w.-]]. *)
Definition is_email_local_u (c : ascii) : bool :=
  re_word c || char_in c (str "._%+-").

Definition is_email_domain_u (c : ascii) : bool :=
  re_word c || char_in c (str ".-").

(** [re.match(r'^L+@D+\.[a-zA-Z]{2,}$', s)] for the classes [L] and [D]:
    a non-empty local part, an [@], and a run of domain characters that
    ends the subject and ends in a dot and at least two letters, with
    something before the dot. *)
Definition email_full (is_local is_domain : ascii -> bool) (s : text) : bool :=
  let '(loc, rest) := span is_local s in
  match loc, rest with
  | _ :: _, c :: rest' =>
      N.eqb (cp c) 64 &&
      let '(dom, tl) := span is_domain rest' in
      let '(tld_rev, before_rev) := span is_azAZ (rev dom) in
      at_end tl
      && (2 <=? length tld_rev)%nat
      && match before_rev with
         | dot :: _ :: _ => N.eqb (cp dot) 46
         | _ => false
         end
  | _, _ => false
  end.

Section Email.

(** The set [DISPOSABLE_DOMAINS] bound at import time: the blocklist of
    the package [disposable_email_domains] when it is installed. *)
Variable disposable_pkg : option (list text).

Definition DISPOSABLE_DOMAINS : list text :=
  default DISPOSABLE_DOMAINS_fallback disposable_pkg.

(** [str(name or '').lower().strip()] *)
Definition name_lower (name : value) : text :=
  strip (lower (if truthy name then py_str name else [])).

Definition validate_email (email first last : value) : list text :=
  if negb (truthy email) then [str "email_empty"] else
  let email := strip (py_str email) in
  let email_lower := lower email in
  let is_valid_ascii := email_full is_email_local is_email_domain email in
  let is_valid_unicode := email_full is_email_local_u is_email_domain_u email in
  let local_part := before "@" email in
  let domain := after "@" email_lower in
  let local_lower := lower local_part in
  let first_lower := name_lower first in
  let last_lower := name_lower last in
  let name_found :=
    ((3 <=? length first_lower)%nat && contains first_lower local_lower)
    || ((3 <=? length last_lower)%nat && contains last_lower local_lower) in
  when (negb (is_valid_ascii || is_valid_unicode)) (str "email_invalid_format")
  ++ when (char_in "+" local_part) (str "email_plus_alias")
  ++ first_code (fun prefix => startswith prefix email_lower)
                BLOCKED_EMAIL_PREFIXES
                (fun prefix => str "email_blocked_prefix:"
                               ++ rstrip_chars (str "@") prefix)
  ++ when (mem domain FREE_EMAIL_DOMAINS) (str "email_free_domain:" ++ domain)
  ++ when (mem domain DISPOSABLE_DOMAINS) (str "email_disposable:" ++ domain)
  ++ when (negb name_found && (3 <=? length first_lower)%nat
           && (3 <=? length last_lower)%nat)
       (str "email_no_name_match").

End Email.

(** ** Section 4b: network checks *)

(** What [dns.resolver.resolve(domain, 'MX')] does. *)
Inductive mx_answer := MxRecords | MxEmpty | MxRaises.

(** The network as the checks see it.  [whois_age_days] is the age in days
    computed from a creation date, when the lookup succeeds and yields one;
    [head_status] is the status of the HEAD request, when it does not
    raise; [resolve_a] tells whether the A query has an answer. *)
Record Network := {
  dns_installed : bool;
  resolve_mx : text -> mx_answer;
  resolve_a : text -> bool;
  whois_installed : bool;
  whois_age_days : text -> option Z;
  requests_installed : bool;
  head_status : text -> option Z
}.

(** [x or y] on texts. *)
Definition text_or (x y : text) : text :=
  match x with [] => y | _ => x end.

(** The result is [None] when an operation on a value that is not a string
    raises ([in], [lower]). *)
Definition validate_network_checks (net : Network) (website email : value)
  : option (list text) :=
  (* domain = email.split('@')[1].lower() if email and '@' in email *)
  match (if truthy email
         then match email with
              | VStr e => Some (if char_in "@" e then lower (after "@" e) else [])
              | _ => None
              end
         else Some []) with
  | None => None
  | Some domain =>
  (* website_domain *)
  match (if truthy website
         then match website with
              | VStr w =>
                  Some (before "?" (before "/"
                          (replace (str "http://") []
                             (replace (str "https://") [] (lower w)))))
              | _ => None
              end
         else Some []) with
  | None => None
  | Some website_domain =>
    let check_domain := text_or website_domain domain in
    Some (
      (* MX records *)
      (if dns_installed net
       then if is_empty domain then []
            else match resolve_mx net domain with
                 | MxRecords => []
                 | MxEmpty => [str "mx_record_missing:" ++ domain]
                 | MxRaises => [str "mx_record_check_failed:" ++ domain]
                 end
       else [str "network_check_skipped:dns.resolver not installed (pip install dnspython)"])
      (* domain age *)
      ++ (if whois_installed net && negb (is_empty check_domain)
          then match whois_age_days net check_domain with
               | Some age_days =>
                   when (age_days <? 7)
                        (str "domain_too_new:" ++ check_domain ++ str " ("
                         ++ dec_Z age_days ++ str " days, need >= 7)")
               | None => []
               end
          else [])
      (* website *)
      ++ (if requests_installed net && truthy website
          then match head_status net (py_str website) with
               | Some status =>
                   when (negb (status =? 200))
                        (str "website_not_accessible:" ++ py_str website
                         ++ str " (HTTP " ++ dec_Z status ++ str ")")
               | None => [str "website_unreachable:" ++ py_str website]
               end
          else [])
      (* DNSBL *)
      ++ (if dns_installed net && negb (is_empty domain)
          then when (resolve_a net (domain ++ str ".dbl.spamhaus.org"))
                    (str "domain_blacklisted:" ++ domain ++ str " (Spamhaus DBL)")
          else []))
  end end.

(** ** Section 5: employee count *)

Definition validate_employee_count (count : value) : list text :=
  if negb (truthy count) then [str "employee_count_empty"] else
  let count := strip (py_str count) in
  when (negb (mem count VALID_EMPLOYEE_COUNTS))
       (str "employee_count_invalid:" ++ count ++ str " (valid: "
        ++ join (str ", ") VALID_EMPLOYEE_COUNTS ++ str ")").

(** ** Section 6: industry and sub-industry *)

(** The lookup table built by the loader: lower-cased sub-industry to the
    lower-cased industries valid for it. *)
Definition build_taxonomy (taxonomy_raw : list (text * list text))
  : gmap text (list text) :=
  foldl (fun taxonomy '(sub_industry, industries) =>
           <[lower sub_industry := map lower industries]> taxonomy)
        ∅ taxonomy_raw.

(** [load_industry_taxonomy] on the global [_TAXONOMY_CACHE].  The file is
    [Some raw] when [industry_taxonomy.py] exists and its dictionary is
    read, with the pairs (sub-industry, industries) in the order of the
    file; it is [None] when the file is missing or reading it raises.  The
    result is the taxonomy and the new value of the global. *)
Definition load_industry_taxonomy
    (taxonomy_file : option (list (text * list text)))
    (cache : option (gmap text (list text)))
  : gmap text (list text) * option (gmap text (list text)) :=
  match cache with
  | Some taxonomy => (taxonomy, cache)
  | None =>
      match taxonomy_file with
      | Some taxonomy_raw =>
          let taxonomy := build_taxonomy taxonomy_raw in
          (taxonomy, Some taxonomy)
      | None => (∅, None)
      end
  end.

(** [str(v).lower().strip() if v else ''] *)
Definition lower_strip (v : value) : text :=
  if truthy v then strip (lower (py_str v)) else [].

Definition industry_pair_errors (taxonomy : gmap text (list text))
    (industry sub_industry : value) : list text :=
  if bool_decide (taxonomy = ∅) then [str "taxonomy_not_loaded"] else
  let sub_lower := lower_strip sub_industry in
  let ind_lower := lower_strip industry in
  if is_empty sub_lower then [str "sub_industry_empty"] else
  match taxonomy !! sub_lower with
  | None => [str "sub_industry_invalid:" ++ py_str sub_industry]
  | Some valid_industries =>
      if is_empty ind_lower then [str "industry_empty"] else
      when (negb (mem ind_lower valid_industries))
           (str "industry_mismatch:" ++ py_str industry ++ str " not valid for "
            ++ py_str sub_industry ++ str " (valid: "
            ++ join (str ", ") valid_industries ++ str ")")
  end.

Definition validate_industry_pair
    (taxonomy_file : option (list (text * list text)))
    (cache : option (gmap text (list text)))
    (industry sub_industry : value)
  : list text * option (gmap text (list text)) :=
  let '(taxonomy, cache') := load_industry_taxonomy taxonomy_file cache in
  (industry_pair_errors taxonomy industry sub_industry, cache').

(** ** Section 7: LinkedIn URLs *)

(** [re.sub(r'^https?://', '', url)] *)
Definition strip_scheme (url : text) : text :=
  if startswith (str "https://") url then drop 8 url
  else if startswith (str "http://") url then drop 7 url
  else url.

(** [re.sub(r'^www\.', '', url)] *)
Definition strip_www (url : text) : text :=
  if startswith (str "www.") url then drop 4 url else url.

(** [re.sub(r'/+', '/', url)] *)
Fixpoint collapse_slashes (url : text) : text :=
  match url with
  | c :: url' =>
      match url' with
      | d :: _ =>
          if N.eqb (cp c) 47 && N.eqb (cp d) 47
          then collapse_slashes url'
          else c :: collapse_slashes url'
      | [] => [c]
      end
  | [] => []
  end.

Definition not_slash (c : ascii) : bool := negb (N.eqb (cp c) 47).

(** [re.search(marker + '([^/]+)', url).group(1)] for a literal [marker]:
    the run of characters other than [/] after the leftmost occurrence of
    [marker] that has such a run. *)
Fixpoint slug_search (marker : text) (url : text) : option text :=
  match (if startswith marker url
         then match fst (span not_slash (drop (length marker) url)) with
              | [] => None
              | slug => Some slug
              end
         else None) with
  | Some slug => Some slug
  | None => match url with
            | [] => None
            | _ :: url' => slug_search marker url'
            end
  end.

Definition normalize_linkedin_url (url : value) (url_type : text) : text :=
  if negb (truthy url) then [] else
  let url := lower (strip (py_str url)) in
  let url := strip_scheme url in
  let url := strip_www url in
  if negb (startswith (str "linkedin.com") url) then [] else
  let url := before "#" (before "?" url) in
  let url := collapse_slashes url in
  let url := rstrip_chars (str "/") url in
  if bool_decide (url_type = str "profile") then
    match slug_search (str "linkedin.com/in/") url with
    | Some slug => str "linkedin.com/in/" ++ slug
    | None => []
    end
  else if bool_decide (url_type = str "company") then
    match slug_search (str "linkedin.com/company/") url with
    | Some slug => str "linkedin.com/company/" ++ slug
    | None => []
    end
  else [].

Definition validate_linkedin_urls (linkedin company_linkedin : value)
  : list text :=
  when (is_empty (normalize_linkedin_url linkedin (str "profile")))
       (str "linkedin_invalid_format:" ++ py_str linkedin)
  ++ when (is_empty (normalize_linkedin_url company_linkedin (str "company")))
       (str "company_linkedin_invalid_format:" ++ py_str company_linkedin).

(** ** Section 8: duplicate checking *)

(** SHA-256 (FIPS 180-4) on 32-bit words held in [N], for
    [hashlib.sha256(s.encode()).hexdigest()]. *)
Module SHA256.

Definition w32 (x : N) : N := N.land x 0xFFFFFFFF.

Definition rotr (n x : N) : N :=
  N.lor (N.shiftr x n) (w32 (N.shiftl x (32 - n))).

Definition not32 (x : N) : N := N.lxor x 0xFFFFFFFF.

Definition Ch (x y z : N) : N :=
  N.lxor (N.land x y) (N.land (not32 x) z).

Definition Maj (x y z : N) : N :=
  N.lxor (N.land x y) (N.lxor (N.land x z) (N.land y z)).

Definition Sigma0 (x : N) : N :=
  N.lxor (rotr 2 x) (N.lxor (rotr 13 x) (rotr 22 x)).

Definition Sigma1 (x : N) : N :=
  N.lxor (rotr 6 x) (N.lxor (rotr 11 x) (rotr 25 x)).

Definition sigma0 (x : N) : N :=
  N.lxor (rotr 7 x) (N.lxor (rotr 18 x) (N.shiftr x 3)).

Definition sigma1 (x : N) : N :=
  N.lxor (rotr 17 x) (N.lxor (rotr 19 x) (N.shiftr x 10)).

(** The largest [r] below [2 ^ bits] with [r ^ e <= n], found bit by bit
    from the top. *)
Fixpoint iroot_aux (e n : N) (bits : nat) (r : N) : N :=
  match bits with
  | O => r
  | S b =>
      let r' := (r + 2 ^ N.of_nat b)%N in
      iroot_aux e n b (if (r' ^ e <=? n)%N then r' else r)
  end.

Definition iroot (e n : N) : N := iroot_aux e n 48 0.

Definition is_prime (n : nat) : bool :=
  forallb (fun d => negb (n mod d =? 0)%nat) (seq 2 (n - 2)).

(** The first 64 primes. *)
Definition primes : list nat := List.filter is_prime (seq 2 310).

(** The round constants: the first 32 bits of the fractional parts of the
    cube roots of the first 64 primes. *)
Definition K : list N :=
  Eval vm_compute in
    map (fun p => w32 (iroot 3 (N.of_nat p * 2 ^ 96))) primes.

(** The initial hash value: the first 32 bits of the fractional parts of
    the square roots of the first 8 primes. *)
Definition H0 : list N :=
  Eval vm_compute in
    map (fun p => w32 (iroot 2 (N.of_nat p * 2 ^ 64))) (take 8 primes).

(** [s.encode()]: UTF-8 of code points below U+0100. *)
Definition utf8 (s : text) : list N :=
  flat_map (fun c => if (cp c <? 128)%N then [cp c]
                     else [N.lor 0xC0 (N.shiftr (cp c) 6);
                           N.lor 0x80 (N.land (cp c) 0x3F)]%N) s.

(** Big-endian bytes of a number. *)
Fixpoint be_bytes (n : nat) (x : N) : list N :=
  match n with
  | O => []
  | S n' => be_bytes n' (N.shiftr x 8) ++ [N.land x 0xFF]
  end.

Definition of_be (bs : list N) : N :=
  foldl (fun acc b => N.lor (N.shiftl acc 8) b) 0%N bs.

(** Padding to a multiple of 64 bytes. *)
Definition pad (msg : list N) : list N :=
  let len := length msg in
  let zeros := ((64 - (len + 9) mod 64) mod 64)%nat in
  msg ++ [0x80%N] ++ repeat 0%N zeros ++ be_bytes 8 (N.of_nat (8 * len)).

Fixpoint chunks (fuel size : nat) (l : list N) : list (list N) :=
  match fuel with
  | O => []
  | S fuel' =>
      match l with
      | [] => []
      | _ => take size l :: chunks fuel' size (drop size l)
      end
  end.

(** The message schedule, most recent word first. *)
Fixpoint schedule (n : nat) (rev_ws : list N) : list N :=
  match n with
  | O => rev rev_ws
  | S n' =>
      let w := w32 (sigma1 (nth 1 rev_ws 0) + nth 6 rev_ws 0
                    + sigma0 (nth 14 rev_ws 0) + nth 15 rev_ws 0)%N in
      schedule n' (w :: rev_ws)
  end.

Definition round (st : list N) (kw : N * N) : list N :=
  match st with
  | [a; b; c; d; e; f; g; h] =>
      let t1 := (h + Sigma1 e + Ch e f g + fst kw + snd kw)%N in
      let t2 := (Sigma0 a + Maj a b c)%N in
      [w32 (t1 + t2); a; b; c; w32 (d + t1); e; f; g]
  | _ => st
  end.

Definition compress (hs : list N) (block : list N) : list N :=
  let ws := schedule 48 (rev (map of_be (chunks 16 4 block))) in
  let st := foldl round hs (combine K ws) in
  map (fun '(x, y) => w32 (x + y)) (combine hs st).

Definition hex_digit (x : N) : ascii :=
  if (x <? 10)%N then chr (48 + x) else chr (87 + x).

Definition hex_byte (b : N) : text :=
  [hex_digit (N.shiftr b 4); hex_digit (N.land b 0xF)].

Definition hexdigest (s : text) : text :=
  let msg := pad (utf8 s) in
  let hs := foldl compress H0 (chunks (length msg) 64 msg) in
  flat_map (fun h => flat_map hex_byte (be_bytes 4 h)) hs.

End SHA256.


(** A row of the remote table [transparency_log]; [ev_final_decision] is
    [payload.get("final_decision")]. *)
Record Event := {
  ev_email_hash : text;
  ev_linkedin_combo_hash : text;
  ev_final_decision : option text;
  ev_event_type : text;
  ev_created_at : Z
}.

(** The three queries that [check] sends. *)
Inductive query :=
| QEmailConsensus (email_hash : text)
| QLinkedinConsensus (linkedin_hash : text)
| QPending (email_hash : text).

(** The remote side: whether the client library can be imported, whether
    both credentials are set, whether [create_client] returns, the rows of
    the log, and the queries that raise. *)
Record Remote := {
  supabase_installed : bool;
  credentials_set : bool;
  create_client_ok : bool;
  log : list Event;
  query_fails : query -> bool
}.

(** [order("created_at", desc=True).limit(1)]: the most recent row, the
    first of them in the table when several share the largest date. *)
Definition latest (rows : list Event) : list Event :=
  match foldl (fun best e =>
                 match best with
                 | None => Some e
                 | Some b => if ev_created_at b <? ev_created_at e
                             then Some e else Some b
                 end) None rows with
  | Some e => [e]
  | None => []
  end.

(** The rows a query selects. *)
Definition select (rows : list Event) (q : query) : list Event :=
  match q with
  | QEmailConsensus h =>
      latest (List.filter (fun e => bool_decide (ev_email_hash e = h)
                && bool_decide (ev_event_type e = str "CONSENSUS_RESULT")) rows)
  | QLinkedinConsensus h =>
      latest (List.filter (fun e => bool_decide (ev_linkedin_combo_hash e = h)
                && bool_decide (ev_event_type e = str "CONSENSUS_RESULT")) rows)
  | QPending h =>
      take 1 (List.filter (fun e => bool_decide (ev_email_hash e = h)
                && bool_decide (ev_event_type e = str "SUBMISSION")) rows)
  end.

(** [.execute().data]: [None] when the query raises. *)
Definition execute (remote : Remote) (q : query) : option (list Event) :=
  if query_fails remote q then None else Some (select (log remote) q).

Record CacheEntry := {
  decision : text;
  timestamp : text
}.

(** The local cache file [~/.leadpoet/duplicate_cache.json]. *)
Record Cache := {
  email_hashes : gmap text CacheEntry;
  linkedin_hashes : gmap text CacheEntry;
  synced_at : option text
}.

Definition empty_cache : Cache :=
  {| email_hashes := ∅; linkedin_hashes := ∅; synced_at := None |}.

(** [_load_cache]: the file is [None] when it is missing or unreadable. *)
Definition load_cache (cache_file : option Cache) : Cache :=
  default empty_cache cache_file.

Record DuplicateStatus := {
  is_duplicate : bool;
  reason : text;
  can_resubmit : bool;
  source : text
}.

(** How the online block of [check] ends: with a [return], by reaching its
    end, or with an exception, which the [except] clauses turn into the
    mode ["offline"]. *)
Inductive online_end :=
| Returned (status : DuplicateStatus)
| Finished
| Raised.

Definition status_email_approved (src : text) : DuplicateStatus :=
  {| is_duplicate := true; reason := str "email_already_approved";
     can_resubmit := false; source := src |}.

Definition status_email_denied (src : text) : DuplicateStatus :=
  {| is_duplicate := false; reason := str "email_was_denied_can_resubmit";
     can_resubmit := true; source := src |}.

Definition status_linkedin_approved (src : text) : DuplicateStatus :=
  {| is_duplicate := true; reason := str "linkedin_combo_already_approved";
     can_resubmit := false; source := src |}.

Definition status_pending : DuplicateStatus :=
  {| is_duplicate := true; reason := str "email_pending_processing";
     can_resubmit := false; source := str "online" |}.

Definition status_new (src : text) : DuplicateStatus :=
  {| is_duplicate := false; reason := str "new";
     can_resubmit := true; source := src |}.

(** [decision == "approve"] *)
Definition is_approve (d : option text) : bool :=
  bool_decide (d = Some (str "approve")).

(** The third step of the online block: the pending submission. *)
Definition online_pending (remote : Remote) (email_hash : text)
  : online_end * list query :=
  if is_empty email_hash then (Finished, []) else
  let q := QPending email_hash in
  match execute remote q with
  | None => (Raised, [q])
  | Some [] => (Finished, [q])
  | Some (_ :: _) => (Returned status_pending, [q])
  end.

(** The second step: the LinkedIn combination hash. *)
Definition online_linkedin (remote : Remote) (email_hash linkedin_hash : text)
  : online_end * list query :=
  if is_empty linkedin_hash then online_pending remote email_hash else
  let q := QLinkedinConsensus linkedin_hash in
  match execute remote q with
  | None => (Raised, [q])
  | Some (e :: _) =>
      if is_approve (ev_final_decision e)
      then (Returned (status_linkedin_approved (str "online")), [q])
      else let '(r, qs) := online_pending remote email_hash in (r, q :: qs)
  | Some [] =>
      let '(r, qs) := online_pending remote email_hash in (r, q :: qs)
  end.

(** The first step: the email hash. *)
Definition online_email (remote : Remote) (email_hash linkedin_hash : text)
  : online_end * list query :=
  if is_empty email_hash then online_linkedin remote email_hash linkedin_hash else
  let q := QEmailConsensus email_hash in
  match execute remote q with
  | None => (Raised, [q])
  | Some (e :: _) =>
      if is_approve (ev_final_decision e)
      then (Returned (status_email_approved (str "online")), [q])
      else (Returned (status_email_denied (str "online")), [q])
  | Some [] =>
      let '(r, qs) := online_linkedin remote email_hash linkedin_hash in
      (r, q :: qs)
  end.

(** The [try] block of the online mode, with the queries it sends. *)
Definition online_block (remote : Remote) (email_hash linkedin_hash : text)
  : online_end * list query :=
  if negb (supabase_installed remote) then (Raised, [])
  else if negb (credentials_set remote) then (Finished, [])
  else if negb (create_client_ok remote) then (Raised, [])
  else online_email remote email_hash linkedin_hash.

(** The block [if self.mode == "offline"], which returns or falls through
    to [return result]. *)
Definition offline_block (cache : Cache) (email_hash linkedin_hash : text)
  : DuplicateStatus :=
  match (if is_empty email_hash then None
         else email_hashes cache !! email_hash) with
  | Some info =>
      if bool_decide (decision info = str "approve")
      then status_email_approved (str "cache")
      else status_email_denied (str "cache")
  | None =>
      match (if is_empty linkedin_hash then None
             else linkedin_hashes cache !! linkedin_hash) with
      | Some info =>
          if bool_decide (decision info = str "approve")
          then status_linkedin_approved (str "cache")
          else status_new (str "cache")
      | None => status_new (str "cache")
      end
  end.

(** [hashlib.sha256(data.encode()).hexdigest()] *)
Definition sha256_hex (data : text) : text := SHA256.hexdigest data.

Definition compute_email_hash (email : text) : text :=
  sha256_hex (strip (lower email)).

Definition compute_linkedin_combo_hash (linkedin company_linkedin : value)
  : text :=
  let norm_profile := normalize_linkedin_url linkedin (str "profile") in
  let norm_company := normalize_linkedin_url company_linkedin (str "company") in
  if is_empty norm_profile || is_empty norm_company then []
  else sha256_hex (norm_profile ++ str "||" ++ norm_company).

(** [compute_email_hash(email) if email else ""]; [None] when [email] is a
    true value that has no method [lower]. *)
Definition email_hash_of (email : value) : option text :=
  if truthy email
  then match email with
       | VStr e => Some (compute_email_hash e)
       | _ => None
       end
  else Some [].

(** [DuplicateChecker(mode).check(email, linkedin, company_linkedin)] for
    a checker whose cache was loaded as [cache]: the status, and the
    queries sent to the remote log. *)
Definition check (mode : text) (remote : Remote) (cache : Cache)
    (email linkedin company_linkedin : value)
  : option (DuplicateStatus * list query) :=
  match email_hash_of email with
  | None => None
  | Some email_hash =>
      let linkedin_hash := compute_linkedin_combo_hash linkedin company_linkedin in
      if bool_decide (mode = str "online") then
        match online_block remote email_hash linkedin_hash with
        | (Returned status, qs) => Some (status, qs)
        | (Finished, qs) => Some (status_new (str "online"), qs)
        | (Raised, qs) => Some (offline_block cache email_hash linkedin_hash, qs)
        end
      else if bool_decide (mode = str "offline") then
        Some (offline_block cache email_hash linkedin_hash, [])
      else Some (status_new mode, [])
  end.

(** What [sync_cache] needs besides the remote log.  [since_of h] is the
    time [utcnow() - timedelta(hours=h)], in the unit of [ev_created_at],
    and [None] when the date arithmetic raises; [recent_fails] tells whether
    the query for the recent rows raises; [created_text] is the text that
    the log gives for a time; [synced_stamp] is [utcnow().isoformat()] after
    the loop; [save_ok] tells whether [_save_cache] returns. *)
Record SyncEnv := {
  since_of : Z -> option Z;
  recent_fails : bool;
  created_text : Z -> text;
  synced_stamp : text;
  save_ok : bool
}.

(** The rows that the query of [sync_cache] selects, in the order of the
    table: the consensus results that are not older than [since]. *)
Definition recent_rows (rows : list Event) (since : Z) : list Event :=
  List.filter (fun e => bool_decide (ev_event_type e = str "CONSENSUS_RESULT")
                        && (since <=? ev_created_at e)) rows.

(** [payload.get("final_decision", "unknown")], where [ev_final_decision]
    is [None] for a payload without the key. *)
Definition decision_of (record : Event) : text :=
  default (str "unknown") (ev_final_decision record).

(** The body of the loop over the records. *)
Definition sync_record (env : SyncEnv) (cache : Cache) (record : Event) : Cache :=
  let entry := {| decision := decision_of record;
                  timestamp := created_text env (ev_created_at record) |} in
  {| email_hashes :=
       if is_empty (ev_email_hash record) then email_hashes cache
       else <[ev_email_hash record := entry]> (email_hashes cache);
     linkedin_hashes :=
       if is_empty (ev_linkedin_combo_hash record) then linkedin_hashes cache
       else <[ev_linkedin_combo_hash record := entry]> (linkedin_hashes cache);
     synced_at := synced_at cache |}.

(** [DuplicateChecker.sync_cache(since_hours)] for a checker whose cache is
    [cache], with the cache file [file]: the number returned, the cache of
    the checker afterwards, and the cache file afterwards.  Every exception
    is caught and gives the number 0. *)
Definition sync_cache (remote : Remote) (env : SyncEnv) (since_hours : Z)
    (cache : Cache) (file : option Cache) : nat * Cache * option Cache :=
  if negb (supabase_installed remote) then (O, cache, file)
  else if negb (credentials_set remote) then (O, cache, file)
  else if negb (create_client_ok remote) then (O, cache, file)
  else
    match since_of env since_hours with
    | None => (O, cache, file)
    | Some since =>
        if recent_fails env then (O, cache, file) else
        let records := recent_rows (log remote) since in
        let count :=
          length (List.filter (fun record => negb (is_empty (ev_email_hash record)))
                              records) in
        let synced := foldl (sync_record env) cache records in
        let cache' := {| email_hashes := email_hashes synced;
                         linkedin_hashes := linkedin_hashes synced;
                         synced_at := Some (synced_stamp env) |} in
        if save_ok env then (count, cache', Some cache')
        else (O, cache', file)
    end.


(** ** Section 9: score preview *)

Definition role_expansions : list (text * text) :=
  [ (str "chief executive officer", str "ceo");
    (str "chief technology officer", str "cto");
    (str "chief operating officer", str "coo");
    (str "chief financial officer", str "cfo");
    (str "chief marketing officer", str "cmo");
    (str "chief information officer", str "cio");
    (str "chief scientific officer", str "cso");
    (str "chief risk officer", str "cro");
    (str "chief compliance officer", str "cco");
    (str "chief product officer", str "cpo");
    (str "chief ai officer", str "caio");
    (str "chief data officer", str "cdo");
    (str "vice president", str "vp") ].

Record IcpMatch := {
  matches : bool;
  match_name : option text;
  bonus : Z
}.

(** The loop over [role_expansions]: each expansion found in the role
    overwrites [role_expanded]. *)
Definition expand_role (role_lower : text) : text :=
  foldl (fun role_expanded '(full, abbr) =>
           if contains full role_lower
           then role_lower ++ str " " ++ abbr
           else role_expanded)
        role_lower role_expansions.

(** The body of the loop over [ICP_DEFINITIONS]: whether it reaches the
    [return]. *)
Definition icp_applies (sub_lower role_lower role_expanded country_lower
    city_lower : text) (icp : ICP) : bool :=
  existsb (fun s => bool_decide (sub_lower = s) || contains sub_lower s
                    || contains s sub_lower)
          (icp_sub_industries icp)
  && existsb (fun r => contains r role_lower || contains r role_expanded)
             (icp_roles icp)
  && match icp_regions icp with
     | Some regions =>
         existsb (fun r => contains r country_lower || contains r city_lower)
                 regions
     | None => true
     end.

Definition check_icp_match (sub_industry role country city : value) : IcpMatch :=
  let sub_lower := lower_strip sub_industry in
  let role_lower := lower_strip role in
  let country_lower := lower_strip country in
  let city_lower := lower_strip city in
  let role_expanded := expand_role role_lower in
  match first_such (icp_applies sub_lower role_lower role_expanded
                                country_lower city_lower) ICP_DEFINITIONS with
  | Some icp => {| matches := true; match_name := Some (icp_name icp); bonus := 50 |}
  | None => {| matches := false; match_name := None; bonus := 0 |}
  end.

Definition is_major_hub (city country : value) : bool :=
  let city_lower := lower_strip city in
  let country_lower := lower_strip country in
  existsb (fun '(hub_country, hub_cities) =>
             (contains hub_country country_lower
              || contains country_lower hub_country)
             && mem city_lower hub_cities)
          MAJOR_HUBS_BY_COUNTRY.

Definition parse_employee_count (count_str : text) : Z * Z :=
  if bool_decide (count_str = str "0-1") then (0, 1)
  else if bool_decide (count_str = str "2-10") then (2, 10)
  else if bool_decide (count_str = str "11-50") then (11, 50)
  else if bool_decide (count_str = str "51-200") then (51, 200)
  else if bool_decide (count_str = str "201-500") then (201, 500)
  else if bool_decide (count_str = str "501-1,000") then (501, 1000)
  else if bool_decide (count_str = str "1,001-5,000") then (1001, 5000)
  else if bool_decide (count_str = str "5,001-10,000") then (5001, 10000)
  else if bool_decide (count_str = str "10,001+") then (10001, 100000)
  else (0, 0).

(** [employee_count in VALID_EMPLOYEE_COUNTS] for a value. *)
Definition valid_count (employee_count : value) : option text :=
  match employee_count with
  | VStr s => if mem s VALID_EMPLOYEE_COUNTS then Some s else None
  | _ => None
  end.

Definition calculate_size_adjustment (employee_count city country : value)
  : Z * text :=
  match (if truthy employee_count then valid_count employee_count else None) with
  | None => (0, str "no_employee_count")
  | Some count_str =>
      let '(emp_min, emp_max) := parse_employee_count count_str in
      let is_hub := is_major_hub city country in
      if (emp_max <=? 10) && is_hub then
        (50, str "small_company_major_hub (<=10 employees in " ++ py_str city
             ++ str ")")
      else if emp_max <=? 50 then (20, str "small_company (<=50 employees)")
      else if (5000 <? emp_min) && (emp_min <? 10001) then
        (-15, str "large_company_penalty (5k-10k employees)")
      else if 1000 <? emp_min then
        (-10, str "large_company_penalty (>1k employees)")
      else (0, str "mid_size_company")
  end.

Record ScorePreview := {
  icp_match : bool;
  icp_name_of : option text;
  icp_bonus : Z;
  size_adjustment : Z;
  size_reason : text;
  estimated_adjustment : Z;
  recommendations : list text
}.

Definition preview_score (lead : gmap string value) : ScorePreview :=
  let icp := check_icp_match (get lead "sub_industry" (VStr []))
                             (get lead "role" (VStr []))
                             (get lead "country" (VStr []))
                             (get lead "city" (VStr [])) in
  let '(size_adj, reason_text) :=
    calculate_size_adjustment (get lead "employee_count" (VStr []))
                              (get lead "city" (VStr []))
                              (get lead "country" (VStr [])) in
  let total_bonus := Z.min 50 (bonus icp + Z.max 0 size_adj) in
  let total_adjustment :=
    if size_adj <? 0 then total_bonus + size_adj else total_bonus in
  {| icp_match := matches icp;
     icp_name_of := match_name icp;
     icp_bonus := bonus icp;
     size_adjustment := size_adj;
     size_reason := reason_text;
     estimated_adjustment := total_adjustment;
     recommendations :=
       when (negb (matches icp))
            (str "Consider targeting ICP categories for +50 bonus")
       ++ when (size_adj <? 0)
            (str "Large companies receive penalties - consider smaller targets")
       ++ when ((size_adj =? 0) && negb (matches icp))
            (str "Small companies (<=50 employees) receive +20 bonus") |}.

(** ** Section 10: the orchestrator *)

(** Everything outside the lead that one run of [audit_lead] depends on. *)
Record World := {
  set_iter : list text -> list text;
  disposable_pkg : option (list text);
  network : Network;
  remote : Remote;
  cache_file : option Cache;
  taxonomy_file : option (list (text * list text))
}.

Record AuditResult := {
  passed : bool;
  blocking_errors : list text;
  warnings : list text;
  duplicate_status : DuplicateStatus;
  score_preview : ScorePreview
}.

(** [audit_lead(lead, duplicate_mode, run_network_checks)], started with the
    global [_TAXONOMY_CACHE] equal to [taxonomy_cache].  The result is the
    [AuditResult], or [None] when an exception leaves the function, and the
    value of the global afterwards. *)
Definition audit_lead (w : World) (taxonomy_cache : option (gmap text (list text)))
    (lead : gmap string value) (duplicate_mode : text) (run_network_checks : bool)
  : option AuditResult * option (gmap text (list text)) :=
  let errors0 :=
    validate_attestation lead
    ++ validate_required_fields lead
    ++ validate_source_provenance lead in
  match (if run_network_checks
         then validate_network_checks (network w)
                (get lead "website" (VStr [])) (get lead "email" (VStr []))
         else Some []) with
  | None => (None, taxonomy_cache)
  | Some network_warnings =>
      let '(desc_errors, desc_warnings) :=
        validate_description (get lead "description" (VStr [])) in
      let '(industry_errors, taxonomy_cache') :=
        validate_industry_pair (taxonomy_file w) taxonomy_cache
          (get lead "industry" (VStr [])) (get lead "sub_industry" (VStr [])) in
      let errors1 :=
        errors0
        ++ validate_role (set_iter w) (get lead "role" (VStr []))
        ++ desc_errors
        ++ validate_email (disposable_pkg w) (get lead "email" (VStr []))
             (get lead "first" (VStr [])) (get lead "last" (VStr []))
        ++ validate_employee_count (get lead "employee_count" (VStr []))
        ++ industry_errors
        ++ validate_linkedin_urls (get lead "linkedin" (VStr []))
             (get lead "company_linkedin" (VStr []))
        ++ validate_location (set_iter w)
             (get lead "city" (VStr [])) (get lead "country" (VStr []))
             (get lead "region" (get lead "state" (VStr []))) in
      match check duplicate_mode (remote w)
                  (load_cache (cache_file w))
                  (get lead "email" (VStr [])) (get lead "linkedin" (VStr []))
                  (get lead "company_linkedin" (VStr [])) with
      | None => (None, taxonomy_cache')
      | Some (dup_status, _) =>
          let blocking :=
            errors1
            ++ when (is_duplicate dup_status && negb (can_resubmit dup_status))
                 (str "duplicate:" ++ reason dup_status) in
          (Some {| passed := bool_decide (blocking = []);
                   blocking_errors := blocking;
                   warnings := network_warnings ++ desc_warnings;
                   duplicate_status := dup_status;
                   score_preview := preview_score lead |},
           taxonomy_cache')
      end
  end.

(** ** Notions used in the statements *)

(** [w] occurs in [s] as a whole word: on each side it is delimited by the
    end of [s] or by a character that is not a word character. *)
Definition occurs_as_word (w s : text) : Prop :=
  exists pre post,
    s = pre ++ w ++ post
    /\ is_word_opt (last pre) = false
    /\ is_word_opt (head post) = false.

(** A non-empty text of word characters. *)
Definition word_text (w : text) : Prop :=
  w <> [] /\ forallb re_word w = true.

(** The misspellings listed in the dictionary for a canonical word. *)
Definition misspelling_of (typo correct : text) : Prop :=
  exists typos, (correct, typos) ∈ ROLE_TYPOS /\ typo ∈ typos.

(** A character that [lower] leaves alone and that is neither [?] nor [#]. *)
Definition url_char (c : ascii) : Prop :=
  lower_char c = c /\ c <> "?"%char /\ c <> "#"%char.

(** The slug of a canonical form: not empty, and made of such characters
    other than [/]. *)
Definition slug_ok (slug : text) : Prop :=
  slug <> [] /\ Forall (fun c => url_char c /\ not_slash c = true) slug.

(** The host of a URL: what remains, after the scheme and a leading
    [www.], up to the first [/], [?] or [#]. *)
Definition host_of (url : text) : text :=
  fst (span (fun c => negb (char_in c (str "/?#")))
            (strip_www (strip_scheme (lower (strip url))))).

Definition ends_in_space (s : text) : bool :=
  match last s with
  | Some c => py_isspace c
  | None => false
  end.

(** An iteration order of [set(words)]: each element of [words] once. *)
Definition set_order_ok (f : list text -> list text) : Prop :=
  forall l, NoDup (f l) /\ forall x, x ∈ f l <-> x ∈ l.

(** Two such orders. *)
Definition set_iter_first (l : list text) : list text := remove_dups l.
Definition set_iter_last (l : list text) : list text := reverse (remove_dups l).

(** A remote log that answers: the library is installed, the credentials
    are set, the client is created and no query raises. *)
Definition operational (r : Remote) : Prop :=
  supabase_installed r = true
  /\ credentials_set r = true
  /\ create_client_ok r = true
  /\ forall q, query_fails r q = false.

(** The rows of an event type recorded for an email hash. *)
Definition email_rows (event_type : text) (h : text) (rows : list Event)
  : list Event :=
  List.filter (fun e => bool_decide (ev_email_hash e = h)
                        && bool_decide (ev_event_type e = event_type)) rows.

(** The three results with which resubmission is refused. *)
Definition final_reasons : list text :=
  map str ["email_already_approved"; "linkedin_combo_already_approved";
           "email_pending_processing"].

(** A value on which the string methods used by [audit_lead] do not raise:
    a string, or a value that is false. *)
Definition str_or_false (v : value) : Prop :=
  (exists s, v = VStr s) \/ truthy v = false.

(** The codes of the attestation validator. *)
Definition attestation_code (field_name : string) : text :=
  str "attestation_false_or_missing:" ++ str field_name.

Definition missing_code (field_name : string) : text :=
  str "missing_field:" ++ str field_name.

(** A network on which nothing is installed, a remote side without the
    client library, and a world built from them. *)
Definition no_network : Network :=
  {| dns_installed := false; resolve_mx := fun _ => MxRaises;
     resolve_a := fun _ => false; whois_installed := false;
     whois_age_days := fun _ => None; requests_installed := false;
     head_status := fun _ => None |}.

Definition no_remote : Remote :=
  {| supabase_installed := false; credentials_set := false;
     create_client_ok := false; log := []; query_fails := fun _ => false |}.

Definition bare_world (order : list text -> list text) : World :=
  {| set_iter := order; disposable_pkg := None; network := no_network;
     remote := no_remote; cache_file := None; taxonomy_file := None |}.

(** A remote side that answers from the given rows. *)
Definition remote_with (rows : list Event) : Remote :=
  {| supabase_installed := true; credentials_set := true;
     create_client_ok := true; log := rows; query_fails := fun _ => false |}.

(** A company of at most ten employees in a major hub, and a company whose
    bracket starts above 1,000 employees and is not the bracket
    5,001-10,000. *)
Definition small_company_in_hub (lead : gmap string value) : Prop :=
  exists s,
    get lead "employee_count" (VStr []) = VStr s
    /\ s ∈ VALID_EMPLOYEE_COUNTS
    /\ snd (parse_employee_count s) <= 10
    /\ is_major_hub (get lead "city" (VStr [])) (get lead "country" (VStr []))
       = true.

Definition large_company (lead : gmap string value) : Prop :=
  exists s,
    get lead "employee_count" (VStr []) = VStr s
    /\ s ∈ VALID_EMPLOYEE_COUNTS
    /\ 1000 < fst (parse_employee_count s)
    /\ s <> str "5,001-10,000".

(** Whether the most recent consensus row selected for a LinkedIn
    combination hash is an approval. *)
Definition linkedin_approved (r : Remote) (linkedin_hash : text) : bool :=
  negb (is_empty linkedin_hash)
  && match select (log r) (QLinkedinConsensus linkedin_hash) with
     | e :: _ => is_approve (ev_final_decision e)
     | [] => false
     end.

(** Example inputs. *)
Definition lead_small_hub_icp : gmap string value :=
  list_to_map [("sub_industry", VStr (str "machine learning"));
               ("role", VStr (str "CTO"));
               ("employee_count", VStr (str "2-10"));
               ("city", VStr (str "Berlin"));
               ("country", VStr (str "Germany"))].

Definition lead_large_no_icp : gmap string value :=
  list_to_map [("sub_industry", VStr (str "plumbing"));
               ("role", VStr (str "Office Clerk"));
               ("employee_count", VStr (str "10,001+"));
               ("city", VStr (str "Springfield"));
               ("country", VStr (str "United States"))].

Definition lead_unlicensed : gmap string value :=
  list_to_map [("license_granted", VBool false);
               ("terms_version_hash", VStr (str "v1"));
               ("lawful_collection", VBool true);
               ("no_restricted_sources", VInt 1)].

Definition example_email : text := str "ann.lee@acme.io".
Definition example_linkedin : value := VStr (str "https://www.linkedin.com/in/ann-lee/").
Definition example_company : value := VStr (str "linkedin.com/company/acme").

(** A log with a pending submission of the example email and an approved
    consensus for the example LinkedIn pair, submitted under another
    email. *)
Definition log_pending_and_linkedin : list Event :=
  [ {| ev_email_hash := compute_email_hash example_email;
       ev_linkedin_combo_hash :=
         compute_linkedin_combo_hash example_linkedin example_company;
       ev_final_decision := None;
       ev_event_type := str "SUBMISSION";
       ev_created_at := 20 |};
    {| ev_email_hash := compute_email_hash (str "a.lee@acme.io");
       ev_linkedin_combo_hash :=
         compute_linkedin_combo_hash example_linkedin example_company;
       ev_final_decision := Some (str "approve");
       ev_event_type := str "CONSENSUS_RESULT";
       ev_created_at := 10 |} ].

(** A log with only the pending submission. *)
Definition log_pending : list Event := take 1 log_pending_and_linkedin.

(** A cache in which the example email is approved. *)
Definition cache_approved : Cache :=
  {| email_hashes :=
       {[ compute_email_hash example_email :=
            {| decision := str "approve"; timestamp := str "2025-01-01" |} ]};
     linkedin_hashes := ∅;
     synced_at := None |}.

(** A lead with two repeated words in its city. *)
Definition lead_two_repeats : gmap string value :=
  list_to_map [("city", VStr (str "alpha alpha gamma gamma"))].

(** The words of a location value that the duplicate-word check can
    report: longer than three characters and repeated. *)
Definition repeated_long_words (location_value : value) : list text :=
  let words := split_ws (lower (strip (py_str location_value))) in
  List.filter (fun word => (3 <? length word)%nat
                           && (2 <=? count_occ_text word words)%nat)
              (remove_dups words).

(** No location field of the lead repeats two different long words. *)
Definition at_most_one_repeat (lead : gmap string value) : Prop :=
  forall v,
    v ∈ [ get lead "city" (VStr []); get lead "country" (VStr []);
          get lead "region" (get lead "state" (VStr [])) ] ->
    (length (repeated_long_words v) <= 1)%nat.

(** The same world with another iteration order of sets. *)
Definition with_order (w : World) (order : list text -> list text) : World :=
  {| set_iter := order; disposable_pkg := disposable_pkg w;
     network := network w; remote := remote w; cache_file := cache_file w;
     taxonomy_file := taxonomy_file w |}.

(** A lead with one repeated word in its city. *)
Definition lead_one_repeat : gmap string value :=
  list_to_map [("city", VStr (str "Baden Baden")); ("country", VStr (str "Germany"))].

(** A lead whose email is null and whose role is blank. *)
Definition lead_null_email : gmap string value :=
  list_to_map [("email", VNone); ("role", VStr (str "  "))].

(** A lead from Australia without a state. *)
Definition lead_australia : gmap string value :=
  list_to_map [("country", VStr (str "Australia"))].

(** The code of the state rule. *)
Definition state_code : text := str "missing_field:state (required for US leads)".

(** The two codes of the licence check. *)
Definition license_missing_code : text :=
  str "missing_license_doc_hash (required for licensed_resale)".

Definition license_format_code : text :=
  str "license_doc_hash_invalid_format (must be 64 hex chars SHA-256)".

(** A resale lead whose licence hash is one digit short. *)
Definition lead_short_license : gmap string value :=
  list_to_map [("source_type", VStr (str "licensed_resale"));
               ("license_doc_hash", VStr (repeat "a"%char 63))].

(** The codes that a role made of whitespace receives. *)
Definition blank_role_codes : list text :=
  map str ["role_too_short"; "role_no_letters"; "role_too_few_letters"].

(** The warning and the letter-count code of the description validator. *)
Definition desc_short_code (n : nat) : text :=
  str "desc_short:" ++ dec_nat n ++ str "/70 (quality warning)".

Definition desc_letters_code (n : nat) : text :=
  str "desc_too_few_letters:" ++ dec_nat n ++ str "/50".

(** The warning given when [dns.resolver] cannot be imported. *)
Definition dns_skipped_code : text :=
  str "network_check_skipped:dns.resolver not installed (pip install dnspython)".

(** The expansions found in a lower-cased role, in the order of the table. *)
Definition expansions_in (role_lower : text) : list (text * text) :=
  List.filter (fun '(full, _) => contains full role_lower) role_expansions.

(** The prefixes that [normalize_linkedin_url] removes. *)
Definition url_prefixes : list text :=
  map str [EmptyString; "http://"; "https://"; "www."; "http://www.";
           "https://www."].

(** A remote side with the client library and without credentials. *)
Definition remote_no_credentials (rows : list Event) : Remote :=
  {| supabase_installed := true; credentials_set := false;
     create_client_ok := true; log := rows; query_fails := fun _ => false |}.

(** A log in which the example email was approved and later denied. *)
Definition log_approved_then_denied : list Event :=
  [ {| ev_email_hash := compute_email_hash example_email;
       ev_linkedin_combo_hash := [];
       ev_final_decision := Some (str "approve");
       ev_event_type := str "CONSENSUS_RESULT";
       ev_created_at := 10 |};
    {| ev_email_hash := compute_email_hash example_email;
       ev_linkedin_combo_hash := [];
       ev_final_decision := Some (str "deny");
       ev_event_type := str "CONSENSUS_RESULT";
       ev_created_at := 20 |} ].

(** The same world with another taxonomy file. *)
Definition with_taxonomy (w : World) (file : option (list (text * list text)))
  : World :=
  {| set_iter := set_iter w; disposable_pkg := disposable_pkg w;
     network := network w; remote := remote w; cache_file := cache_file w;
     taxonomy_file := file |}.

(** A lead whose website is a number. *)
Definition lead_numeric_website : gmap string value :=
  list_to_map [("website", VInt 42); ("email", VStr (str "ann.lee@acme.io"))].

(** A taxonomy file with one entry. *)
Definition taxonomy_one : list (text * list text) :=
  [(str "Machine Learning", [str "Software"; str "Technology"])].

(** The lower-cased sub-industries of a taxonomy file. *)
Definition taxonomy_keys (raw : list (text * list text)) : list text :=
  map (fun entry => lower (fst entry)) raw.

(** The records that carry a given email hash. *)
Definition email_records (h : text) (records : list Event) : list Event :=
  List.filter (fun record => bool_decide (ev_email_hash record = h)) records.

(** An environment in which the synchronisation succeeds and reads the
    whole log. *)
Definition sync_env_ok : SyncEnv :=
  {| since_of := fun _ => Some 0; recent_fails := false;
     created_text := dec_Z; synced_stamp := str "2025-01-02T00:00:00";
     save_ok := true |}.

(** The code of the duplicate-word check for a field and a word. *)
Definition duplicate_word_code (field_name word : text) : text :=
  field_name ++ str "_duplicate_word:" ++ word.

(** A value on which the test ['@' in v] and the string methods raise: the
    boolean [true] or an integer other than 0. *)
Definition true_scalar (v : value) : Prop :=
  v = VBool true \/ exists n, n <> 0 /\ v = VInt n.

(** A lead whose email is a number. *)
Definition lead_numeric_email : gmap string value :=
  list_to_map [("email", VInt 42)].

(** * Properties *)

(** ** Membership in the list of codes *)

Lemma elem_of_when (b : bool) (c x : text) : x ∈ when b c <-> b = true /\ x = c.
Proof.
  destruct b; simpl.
  - rewrite list_elem_of_singleton. split; [intros ->; auto | intros [_ ->]; reflexivity].
  - rewrite elem_of_nil. split; [tauto | intros [? _]; discriminate].
Qed.

Lemma elem_of_first_code {A} (p : A -> bool) (l : list A) (code : A -> text) x :
  x ∈ first_code p l code <-> exists y, first_such p l = Some y /\ x = code y.
Proof.
  unfold first_code. destruct (first_such p l) as [y|].
  - rewrite list_elem_of_singleton. split.
    + intros ->. eauto.
    + intros (z & Hz & ->). congruence.
  - rewrite elem_of_nil. split; [tauto | intros (z & Hz & _); discriminate].
Qed.

(** Steps through a chain [l1 ++ l2 ++ ...] of contributions. *)
Ltac skip_check := apply elem_of_app; right.
Ltac this_check := first [apply elem_of_app; left | idtac].

(** A code of a check whose name differs from [role_typo]. *)
Ltac other_code H :=
  first [ apply elem_of_when in H as [_ ->]
        | apply elem_of_first_code in H as (? & _ & ->) ];
  right; reflexivity.

(** ** The role validator on an empty role (C9) *)

(** C9: for an empty role (the empty string, which is also what a missing
    key is read as, or a JSON null) [validate_role] returns exactly the one
    code [role_empty]; none of the other checks contributes a code. *)
Theorem validate_role_empty (order : list text -> list text) :
  validate_role order (VStr []) = [str "role_empty"]
  /\ validate_role order VNone = [str "role_empty"]
  /\ (forall lead : gmap string value,
        lead !! "role" = None ->
        validate_role order (get lead "role" (VStr [])) = [str "role_empty"])
  /\ (forall code, code ∈ validate_role order (VStr []) -> code = str "role_empty").
Proof.
  split; [reflexivity|]. split; [reflexivity|]. split.
  - intros lead H. unfold get. rewrite H. reflexivity.
  - intros code H. simpl in H. apply list_elem_of_singleton in H. exact H.
Qed.

Lemma validate_role_empty_witness :
  validate_role set_iter_first
    (get (<["email" := VStr (str "a@b.co")]> (∅ : gmap string value))
         "role" (VStr []))
  = [str "role_empty"].
Proof.
  apply (validate_role_empty set_iter_first).
  vm_compute. reflexivity.
Defined.

(** ** What the role validator reports *)

(** The C-suite code is reported as soon as two titles are substrings. *)
Lemma validate_role_csuite order role :
  truthy role = true ->
  let role_lower := lower (strip (py_str role)) in
  let found := List.filter (fun title => contains title role_lower)
                           ROLE_CSUITE_TITLES in
  (1 <? length found)%nat = true ->
  (str "role_multiple_csuite:" ++ join (str ",") found)
    ∈ validate_role order role.
Proof.
  intros Ht role_lower found H.
  unfold validate_role. rewrite Ht. cbv beta iota zeta delta [negb].
  do 26 skip_check. this_check.
  apply elem_of_when. split; [exact H | reflexivity].
Qed.

(** The codes of check 13 are reported. *)
Lemma validate_role_typos order role x :
  truthy role = true ->
  x ∈ role_typos (word_tokens (lower (strip (py_str role)))) ->
  x ∈ validate_role order role.
Proof.
  intros Ht H.
  unfold validate_role. rewrite Ht. cbv beta iota zeta delta [negb].
  do 13 skip_check. this_check. exact H.
Qed.

(** Every reported code comes from check 13 or does not begin with
    [role_typo:]. *)
Lemma validate_role_inv order role x :
  x ∈ validate_role order role ->
  (truthy role = true
   /\ x ∈ role_typos (word_tokens (lower (strip (py_str role)))))
  \/ startswith (str "role_typo:") x = false.
Proof.
  unfold validate_role. destruct (truthy role) eqn:Ht;
    cbv beta iota zeta delta [negb]; intros H.
  2:{ apply list_elem_of_singleton in H as ->. right. reflexivity. }
  do 13 (apply elem_of_app in H as [H|H]; [other_code H|]).
  apply elem_of_app in H as [H|H]; [left; split; [reflexivity | exact H]|].
  do 14 (apply elem_of_app in H as [H|H]; [other_code H|]).
  other_code H.
Qed.

(** ** Several C-suite titles (C10) *)

(** C10: the C-suite check tests substrings.  The role "CEO and Director"
    has exactly one C-suite title among its words, and the validator still
    reports [role_multiple_csuite:ceo,cto], the [cto] being found inside
    [director]. *)
Theorem csuite_substring_match (order : list text -> list text) :
  str "role_multiple_csuite:ceo,cto"
    ∈ validate_role order (VStr (str "CEO and Director"))
  /\ List.filter (fun w => mem w ROLE_CSUITE_TITLES)
                 (word_tokens (lower (str "CEO and Director"))) = [str "ceo"]
  /\ contains (str "cto") (str "director") = true.
Proof.
  split; [|split; vm_compute; reflexivity].
  apply (validate_role_csuite order (VStr (str "CEO and Director")));
    vm_compute; reflexivity.
Qed.

(** ** The score preview (C3) *)

Lemma check_icp_match_cases sub_industry role country city :
  let m := check_icp_match sub_industry role country city in
  (matches m = true /\ bonus m = 50) \/ (matches m = false /\ bonus m = 0).
Proof.
  unfold check_icp_match. destruct (first_such _ _); simpl; auto.
Qed.

Lemma size_adjustment_small_hub employee_count city country s :
  employee_count = VStr s ->
  s ∈ VALID_EMPLOYEE_COUNTS ->
  snd (parse_employee_count s) <= 10 ->
  is_major_hub city country = true ->
  fst (calculate_size_adjustment employee_count city country) = 50.
Proof.
  intros -> Hs Hmax Hhub. unfold calculate_size_adjustment. rewrite Hhub.
  cbn in Hs.
  repeat (apply elem_of_cons in Hs as [->|Hs]); [..|apply elem_of_nil in Hs; tauto];
    first [reflexivity | vm_compute in Hmax; exfalso; apply Hmax; reflexivity].
Qed.

Lemma size_adjustment_large employee_count city country s :
  employee_count = VStr s ->
  s ∈ VALID_EMPLOYEE_COUNTS ->
  1000 < fst (parse_employee_count s) ->
  s <> str "5,001-10,000" ->
  fst (calculate_size_adjustment employee_count city country) = -10.
Proof.
  intros -> Hs Hmin Hne. unfold calculate_size_adjustment.
  cbn in Hs.
  repeat (apply elem_of_cons in Hs as [->|Hs]); [..|apply elem_of_nil in Hs; tauto];
    first [ vm_compute in Hmin; discriminate
          | exfalso; apply Hne; reflexivity
          | destruct (is_major_hub city country); reflexivity ].
Qed.

(** C3: in the score preview the ICP bonus is 0 or 50; the estimated
    adjustment is [min(50, icp_bonus + max(0, size_adjustment))] when the
    size adjustment is not negative and [min(50, icp_bonus) + size_adjustment]
    when it is negative; a lead that matches an ICP and is a small company
    in a major hub (50 + 50) gets 50; a lead that matches no ICP and whose
    employee bracket starts above 1,000 and is not 5,001-10,000 gets -10. *)
Theorem preview_score_adjustment (lead : gmap string value) :
  let p := preview_score lead in
  (icp_bonus p = 0 \/ icp_bonus p = 50)
  /\ (0 <= size_adjustment p ->
      estimated_adjustment p
      = Z.min 50 (icp_bonus p + Z.max 0 (size_adjustment p)))
  /\ (size_adjustment p < 0 ->
      estimated_adjustment p = Z.min 50 (icp_bonus p) + size_adjustment p)
  /\ (icp_match p = true -> small_company_in_hub lead ->
      icp_bonus p = 50 /\ size_adjustment p = 50 /\ estimated_adjustment p = 50)
  /\ (icp_match p = false -> large_company lead ->
      size_adjustment p = -10 /\ estimated_adjustment p = -10).
Proof.
  unfold preview_score.
  pose proof (check_icp_match_cases (get lead "sub_industry" (VStr []))
                (get lead "role" (VStr [])) (get lead "country" (VStr []))
                (get lead "city" (VStr []))) as Hicp.
  pose proof (size_adjustment_small_hub (get lead "employee_count" (VStr []))
                (get lead "city" (VStr [])) (get lead "country" (VStr []))) as Hsmall.
  pose proof (size_adjustment_large (get lead "employee_count" (VStr []))
                (get lead "city" (VStr [])) (get lead "country" (VStr []))) as Hlarge.
  destruct (calculate_size_adjustment _ _ _) as [size_adj reason_text].
  destruct (check_icp_match _ _ _ _) as [m n b]. simpl in *.
  repeat split.
  - destruct Hicp as [[_ ->]|[_ ->]]; auto.
  - intros H. destruct (Z.ltb_spec size_adj 0); lia.
  - intros H. destruct (Z.ltb_spec size_adj 0); lia.
  - destruct Hicp as [[_ ->]|[? _]]; [reflexivity | congruence].
  - destruct H0 as (s & Hs & Hin & Hmax & Hhub). eauto.
  - destruct H0 as (s & Hs & Hin & Hmax & Hhub).
    rewrite (Hsmall s Hs Hin Hmax Hhub).
    destruct Hicp as [[_ ->]|[? _]]; [reflexivity | congruence].
  - destruct H0 as (s & Hs & Hin & Hmin & Hne). eauto.
  - destruct H0 as (s & Hs & Hin & Hmin & Hne).
    rewrite (Hlarge s Hs Hin Hmin Hne).
    destruct Hicp as [[? _]|[_ ->]]; [congruence | reflexivity].
Qed.

Lemma preview_score_adjustment_witness :
  estimated_adjustment (preview_score lead_small_hub_icp) = 50
  /\ estimated_adjustment (preview_score lead_large_no_icp) = -10.
Proof.
  split.
  - apply (preview_score_adjustment lead_small_hub_icp).
    + vm_compute. reflexivity.
    + exists (str "2-10"). repeat split.
      * vm_compute. repeat constructor.
      * vm_compute. discriminate.
  - apply (preview_score_adjustment lead_large_no_icp).
    + vm_compute. reflexivity.
    + exists (str "10,001+"). repeat split.
      * vm_compute. repeat constructor.
      * vm_compute. discriminate.
Defined.

Lemma is_empty_spec (s : text) : is_empty s = true <-> s = [].
Proof. destruct s; simpl; split; congruence. Qed.

Lemma is_empty_false (s : text) : is_empty s = false <-> s <> [].
Proof. destruct s; simpl; split; congruence. Qed.

(** ** SHA-256 digests *)

Lemma be_bytes_length n x : length (SHA256.be_bytes n x) = n.
Proof.
  revert x. induction n as [|n IH]; intros x; simpl; [reflexivity|].
  rewrite length_app, IH. simpl. lia.
Qed.

Lemma round_length st kw : length (SHA256.round st kw) = length st.
Proof.
  unfold SHA256.round.
  repeat (destruct st as [|? st]; try reflexivity).
Qed.

Lemma foldl_round_length kws st :
  length (foldl SHA256.round st kws) = length st.
Proof.
  revert st. induction kws as [|kw kws IH]; intros st; simpl; [reflexivity|].
  rewrite IH. apply round_length.
Qed.

Lemma compress_length hs block : length (SHA256.compress hs block) = length hs.
Proof.
  unfold SHA256.compress.
  rewrite length_map, length_combine, foldl_round_length. lia.
Qed.

Lemma foldl_compress_length blocks hs :
  length (foldl SHA256.compress hs blocks) = length hs.
Proof.
  revert hs. induction blocks as [|b blocks IH]; intros hs; simpl; [reflexivity|].
  rewrite IH. apply compress_length.
Qed.

Lemma flat_map_length_const {A B} (f : A -> list B) n l :
  (forall x, length (f x) = n) -> length (flat_map f l) = (n * length l)%nat.
Proof.
  intros H. induction l as [|x l IH]; simpl; [lia|].
  rewrite length_app, H, IH. lia.
Qed.

(** A digest has 64 characters. *)
Lemma sha256_hex_length s : length (sha256_hex s) = 64%nat.
Proof.
  unfold sha256_hex, SHA256.hexdigest.
  rewrite (flat_map_length_const _ 8).
  - rewrite foldl_compress_length. reflexivity.
  - intros h. rewrite (flat_map_length_const _ 2).
    + rewrite be_bytes_length. reflexivity.
    + reflexivity.
Qed.

Lemma compute_email_hash_nonempty e : is_empty (compute_email_hash e) = false.
Proof.
  pose proof (sha256_hex_length (strip (lower e))) as H.
  unfold compute_email_hash. destruct (sha256_hex _); [discriminate | reflexivity].
Qed.

Lemma email_hash_of_str e :
  e <> [] -> email_hash_of (VStr e) = Some (compute_email_hash e).
Proof. destruct e; [congruence | reflexivity]. Qed.

(** ** The duplicate checker offline (C4) *)

(** C4: with the mode ["offline"], for every cache and every fingerprint:
    an email hash cached with the decision [approve] gives
    [is_duplicate = true], [can_resubmit = false]; an email hash cached with
    any other decision gives [is_duplicate = false], [can_resubmit = true];
    when neither the email hash nor the LinkedIn combination hash is in the
    cache, the reason is [new], with [is_duplicate = false] and
    [can_resubmit = true]. *)
Theorem check_offline_cache (r : Remote) (cache : Cache) (e : text)
    (linkedin company_linkedin : value) :
  let h := compute_email_hash e in
  let lh := compute_linkedin_combo_hash linkedin company_linkedin in
  let result :=
    check (str "offline") r cache (VStr e) linkedin company_linkedin in
  (e <> [] ->
   forall info, email_hashes cache !! h = Some info ->
     decision info = str "approve" ->
     exists st, result = Some (st, [])
       /\ is_duplicate st = true /\ can_resubmit st = false
       /\ reason st = str "email_already_approved")
  /\ (e <> [] ->
      forall info, email_hashes cache !! h = Some info ->
        decision info <> str "approve" ->
        exists st, result = Some (st, [])
          /\ is_duplicate st = false /\ can_resubmit st = true
          /\ reason st = str "email_was_denied_can_resubmit")
  /\ ((e = [] \/ email_hashes cache !! h = None) ->
      (lh = [] \/ linkedin_hashes cache !! lh = None) ->
      exists st, result = Some (st, [])
        /\ is_duplicate st = false /\ can_resubmit st = true
        /\ reason st = str "new" /\ source st = str "cache").
Proof.
  intros h lh result. subst result. unfold check.
  change (bool_decide (str "offline" = str "online")) with false.
  change (bool_decide (str "offline" = str "offline")) with true.
  cbv iota. fold lh.
  repeat split.
  - intros He info Hinfo Hdec. rewrite (email_hash_of_str e He). fold h.
    unfold offline_block. rewrite (compute_email_hash_nonempty e : is_empty h = false).
    rewrite Hinfo, Hdec. rewrite bool_decide_eq_true_2 by reflexivity.
    eexists. repeat split.
  - intros He info Hinfo Hdec. rewrite (email_hash_of_str e He). fold h.
    unfold offline_block. rewrite (compute_email_hash_nonempty e : is_empty h = false).
    rewrite Hinfo. rewrite bool_decide_eq_false_2 by exact Hdec.
    eexists. repeat split.
  - intros He Hl.
    assert (exists h', email_hash_of (VStr e) = Some h'
              /\ (if is_empty h' then None else email_hashes cache !! h') = None)
      as (h' & -> & Hh').
    { destruct e as [|c e'].
      - exists []. split; reflexivity.
      - destruct He as [He|He]; [discriminate|].
        exists h. split; [reflexivity|].
        rewrite He. destruct (is_empty h); reflexivity. }
    unfold offline_block. rewrite Hh'.
    assert ((if is_empty lh then None else linkedin_hashes cache !! lh) = None) as ->.
    { destruct Hl as [->|Hl]; [reflexivity|]. rewrite Hl.
      destruct (is_empty lh); reflexivity. }
    eexists. repeat split.
Qed.

Lemma check_offline_cache_witness :
  exists st,
    check (str "offline") no_remote cache_approved (VStr example_email)
          example_linkedin example_company = Some (st, [])
    /\ is_duplicate st = true /\ can_resubmit st = false
    /\ reason st = str "email_already_approved".
Proof.
  refine (proj1 (check_offline_cache no_remote cache_approved example_email
                   example_linkedin example_company) _
                {| decision := str "approve"; timestamp := str "2025-01-01" |} _ _).
  - vm_compute. discriminate.
  - vm_compute. reflexivity.
  - reflexivity.
Defined.

(** ** The orchestrator *)

(** [audit_lead] returns a result unless the email or the website is a true
    value that is not a string. *)
Lemma audit_lead_returns w tc lead mode net :
  str_or_false (get lead "email" (VStr [])) ->
  str_or_false (get lead "website" (VStr [])) ->
  exists r tc', audit_lead w tc lead mode net = (Some r, tc').
Proof.
  intros He Hw. unfold audit_lead.
  assert (exists ws, (if net then validate_network_checks (network w)
                        (get lead "website" (VStr [])) (get lead "email" (VStr []))
                      else Some []) = Some ws) as [ws ->].
  { destruct net; [|eauto]. unfold validate_network_checks.
    destruct He as [[e ->]| ->], Hw as [[s ->]| ->]; simpl;
      repeat match goal with |- context [if ?b then _ else _] =>
                               destruct b end; eauto. }
  destruct (validate_description _) as [de dw].
  destruct (validate_industry_pair _ _ _ _) as [ie tc'].
  assert (exists st qs, check mode (remote w) (load_cache (cache_file w))
            (get lead "email" (VStr [])) (get lead "linkedin" (VStr []))
            (get lead "company_linkedin" (VStr [])) = Some (st, qs))
    as (st & qs & ->).
  { unfold check.
    assert (exists h, email_hash_of (get lead "email" (VStr [])) = Some h) as [h ->].
    { unfold email_hash_of. destruct He as [[e ->]| ->]; [|eauto].
      destruct (truthy (VStr e)); eauto. }
    repeat case_bool_decide; eauto.
    destruct (online_block _ _ _) as [[]]; eauto. }
  eauto.
Qed.

(** The codes of the attestation stage are blocking errors. *)
Lemma audit_lead_attestation w tc lead mode net r tc' x :
  audit_lead w tc lead mode net = (Some r, tc') ->
  x ∈ validate_attestation lead ->
  x ∈ blocking_errors r.
Proof.
  unfold audit_lead. intros H Hx.
  destruct (if net then _ else _); [|discriminate].
  destruct (validate_description _) as [de dw].
  destruct (validate_industry_pair _ _ _ _) as [ie tc2].
  destruct (check _ _ _ _ _ _) as [[st qs]|]; [|discriminate].
  injection H as <- _. simpl.
  do 3 (apply elem_of_app; left). exact Hx.
Qed.

(** ** The attestation stage (C7) *)

Lemma validate_attestation_unfold lead :
  validate_attestation lead
  = when (is_empty (strip (py_str (get lead "wallet_ss58" (VStr [])))))
         (missing_code "wallet_ss58")
    ++ when (is_empty (strip (py_str (get lead "terms_version_hash" (VStr [])))))
         (missing_code "terms_version_hash")
    ++ when (is_not_True (get_none lead "lawful_collection"))
         (attestation_code "lawful_collection")
    ++ when (is_not_True (get_none lead "no_restricted_sources"))
         (attestation_code "no_restricted_sources")
    ++ when (is_not_True (get_none lead "license_granted"))
         (attestation_code "license_granted").
Proof.
  unfold validate_attestation, bool_fields, flat_map.
  rewrite !app_nil_r. reflexivity.
Qed.

Lemma is_not_True_spec lead f :
  is_not_True (get_none lead f) = true <-> lead !! f <> Some (VBool true).
Proof.
  unfold get_none, get. destruct (lead !! f) as [[| [] | |]|]; simpl;
    split; congruence.
Qed.

(** C7, as the code has it: the attestation validator makes two
    string-presence checks ([wallet_ss58], [terms_version_hash]) and three
    boolean checks; each of [lawful_collection], [no_restricted_sources],
    [license_granted] must be the boolean [true], and its code is reported
    exactly when the field is absent or holds anything else; a lead without
    [wallet_ss58] and with [license_granted = false] has both codes among
    the blocking errors of [audit_lead]. *)
Theorem validate_attestation_checks (lead : gmap string value) :
  (forall x, x ∈ validate_attestation lead ->
     x ∈ [missing_code "wallet_ss58"; missing_code "terms_version_hash"]
     \/ exists f, f ∈ bool_fields /\ x = attestation_code f)
  /\ (missing_code "wallet_ss58" ∈ validate_attestation lead
      <-> strip (py_str (get lead "wallet_ss58" (VStr []))) = [])
  /\ (missing_code "terms_version_hash" ∈ validate_attestation lead
      <-> strip (py_str (get lead "terms_version_hash" (VStr []))) = [])
  /\ (forall f, f ∈ bool_fields ->
        (attestation_code f ∈ validate_attestation lead
         <-> lead !! f <> Some (VBool true)))
  /\ (lead !! "wallet_ss58" = None ->
      lead !! "license_granted" = Some (VBool false) ->
      missing_code "wallet_ss58" ∈ validate_attestation lead
      /\ attestation_code "license_granted" ∈ validate_attestation lead
      /\ (forall w tc mode net r tc',
            audit_lead w tc lead mode net = (Some r, tc') ->
            missing_code "wallet_ss58" ∈ blocking_errors r
            /\ attestation_code "license_granted" ∈ blocking_errors r)
      /\ (str_or_false (get lead "email" (VStr [])) ->
          str_or_false (get lead "website" (VStr [])) ->
          forall w tc mode net,
            exists r tc', audit_lead w tc lead mode net = (Some r, tc'))).
Proof.
  assert (Hcodes: forall x, x ∈ validate_attestation lead <->
            (is_empty (strip (py_str (get lead "wallet_ss58" (VStr [])))) = true
             /\ x = missing_code "wallet_ss58")
            \/ (is_empty (strip (py_str (get lead "terms_version_hash" (VStr []))))
                = true /\ x = missing_code "terms_version_hash")
            \/ (is_not_True (get_none lead "lawful_collection") = true
                /\ x = attestation_code "lawful_collection")
            \/ (is_not_True (get_none lead "no_restricted_sources") = true
                /\ x = attestation_code "no_restricted_sources")
            \/ (is_not_True (get_none lead "license_granted") = true
                /\ x = attestation_code "license_granted")).
  { intros x. rewrite validate_attestation_unfold.
    rewrite !elem_of_app, !elem_of_when. tauto. }
  split; [|split; [|split; [|split]]].
  - intros x Hx. apply Hcodes in Hx.
    destruct Hx as [[_ ->]|[[_ ->]|[[_ ->]|[[_ ->]|[_ ->]]]]].
    + left. apply elem_of_cons. auto.
    + left. apply elem_of_cons. right. apply elem_of_cons. auto.
    + right. eexists. split; [|reflexivity]. unfold bool_fields.
      apply elem_of_cons. auto.
    + right. eexists. split; [|reflexivity]. unfold bool_fields.
      do 1 (apply elem_of_cons; right). apply elem_of_cons. auto.
    + right. eexists. split; [|reflexivity]. unfold bool_fields.
      do 2 (apply elem_of_cons; right). apply elem_of_cons. auto.
  - rewrite Hcodes, <- is_empty_spec. split.
    + intros [[H _]|[[_ H]|[[_ H]|[[_ H]|[_ H]]]]]; [exact H|..];
        vm_compute in H; discriminate.
    + auto.
  - rewrite Hcodes, <- is_empty_spec. split.
    + intros [[_ H]|[[H _]|[[_ H]|[[_ H]|[_ H]]]]]; [|exact H|..];
        vm_compute in H; discriminate.
    + auto.
  - intros f Hf. rewrite Hcodes, <- is_not_True_spec. unfold bool_fields in Hf.
    repeat (apply elem_of_cons in Hf as [->|Hf]); [..|apply elem_of_nil in Hf; tauto].
    + split; [|tauto].
      intros [[_ H]|[[_ H]|[[H _]|[[_ H]|[_ H]]]]]; [| |exact H|..];
        vm_compute in H; discriminate.
    + split; [|tauto].
      intros [[_ H]|[[_ H]|[[_ H]|[[H _]|[_ H]]]]]; [| | |exact H|];
        vm_compute in H; discriminate.
    + split; [|tauto].
      intros [[_ H]|[[_ H]|[[_ H]|[[_ H]|[H _]]]]]; [| | | |exact H];
        vm_compute in H; discriminate.
  - intros Hw Hl.
    assert (H1: missing_code "wallet_ss58" ∈ validate_attestation lead).
    { apply Hcodes. left. split; [|reflexivity]. unfold get. rewrite Hw. reflexivity. }
    assert (H2: attestation_code "license_granted" ∈ validate_attestation lead).
    { apply Hcodes. do 4 right. split; [|reflexivity].
      unfold get_none, get. rewrite Hl. reflexivity. }
    split; [exact H1|]. split; [exact H2|]. split.
    + intros w tc mode net r tc' Hr.
      split; eapply audit_lead_attestation; eauto.
    + intros He Hs w tc mode net. apply audit_lead_returns; assumption.
Qed.

(** ** The attestation stage: the count of presence checks *)

(** C7, as the claim states it, fails: on the empty record every check of
    the attestation validator fires, and there are two string-presence
    codes and five codes in all, not four and seven. *)
Lemma attestation_presence_checks_counterexample :
  validate_attestation ∅
  = [ missing_code "wallet_ss58"; missing_code "terms_version_hash";
      attestation_code "lawful_collection";
      attestation_code "no_restricted_sources";
      attestation_code "license_granted" ]
  /\ length (List.filter (startswith (str "missing_field:"))
                         (validate_attestation ∅)) <> 4%nat
  /\ length (validate_attestation ∅) <> (4 + 3)%nat.
Proof. vm_compute. repeat split; discriminate. Qed.

Lemma validate_attestation_checks_witness :
  missing_code "wallet_ss58" ∈ validate_attestation lead_unlicensed
  /\ attestation_code "license_granted" ∈ validate_attestation lead_unlicensed
  /\ exists r tc',
       audit_lead (bare_world set_iter_first) None lead_unlicensed
                  (str "offline") false = (Some r, tc')
       /\ missing_code "wallet_ss58" ∈ blocking_errors r
       /\ attestation_code "license_granted" ∈ blocking_errors r.
Proof.
  destruct (validate_attestation_checks lead_unlicensed) as (_ & _ & _ & _ & H).
  assert (Hw : lead_unlicensed !! "wallet_ss58" = None) by (vm_compute; reflexivity).
  assert (Hl : lead_unlicensed !! "license_granted" = Some (VBool false))
    by (vm_compute; reflexivity).
  destruct (H Hw Hl) as (H1 & H2 & H3 & H4).
  split; [exact H1|]. split; [exact H2|].
  destruct (H4 (or_intror eq_refl) (or_intror eq_refl)
               (bare_world set_iter_first) None (str "offline") false)
    as (r & tc' & Hr).
  exists r, tc'. split; [exact Hr|]. exact (H3 _ _ _ _ _ _ Hr).
Defined.

(** ** The duplicate checker: every result (C6) *)

(** Membership in a list that is written out, and the cases of such a
    membership. *)
Ltac in_list :=
  solve [repeat first [apply list_elem_of_here | apply list_elem_of_further]].
Ltac cases_in H :=
  repeat (apply elem_of_cons in H as [->|H]);
  [..|apply elem_of_nil in H; destruct H].

Lemma offline_block_forms cache h lh :
  offline_block cache h lh
  ∈ [ status_email_approved (str "cache"); status_email_denied (str "cache");
      status_linkedin_approved (str "cache"); status_new (str "cache") ].
Proof.
  unfold offline_block.
  repeat match goal with
         | |- context [match ?x with _ => _ end] => destruct x
         end; in_list.
Qed.

Lemma online_pending_forms r h st qs :
  online_pending r h = (Returned st, qs) -> st = status_pending.
Proof.
  unfold online_pending.
  repeat match goal with
         | |- context [match ?x with _ => _ end] => destruct x
         end; congruence.
Qed.

Lemma online_linkedin_forms r h lh st qs :
  online_linkedin r h lh = (Returned st, qs) ->
  st = status_pending \/ st = status_linkedin_approved (str "online").
Proof.
  unfold online_linkedin.
  destruct (is_empty lh); [eauto using online_pending_forms|].
  destruct (execute r _) as [[|e rows]|]; [| |congruence].
  - destruct (online_pending r h) as [o qs'] eqn:Hp. intros [= -> _].
    eauto using online_pending_forms.
  - destruct (is_approve _); [intros [= <- _]; auto|].
    destruct (online_pending r h) as [o qs'] eqn:Hp. intros [= -> _].
    eauto using online_pending_forms.
Qed.

Lemma online_block_forms r h lh st qs :
  online_block r h lh = (Returned st, qs) ->
  st ∈ [ status_email_approved (str "online"); status_email_denied (str "online");
         status_linkedin_approved (str "online"); status_pending ].
Proof.
  unfold online_block.
  destruct (negb (supabase_installed r)); [congruence|].
  destruct (negb (credentials_set r)); [congruence|].
  destruct (negb (create_client_ok r)); [congruence|].
  unfold online_email.
  destruct (is_empty h).
  { intros H. apply online_linkedin_forms in H as [->| ->]; in_list. }
  destruct (execute r _) as [[|e rows]|]; [| |congruence].
  - destruct (online_linkedin r h lh) as [o qs'] eqn:Hp. intros [= -> _].
    apply online_linkedin_forms in Hp as [->| ->]; in_list.
  - destruct (is_approve _); intros [= <- _]; in_list.
Qed.

(** The results of [check]. *)
Lemma check_forms mode r cache email linkedin company_linkedin st qs :
  check mode r cache email linkedin company_linkedin = Some (st, qs) ->
  exists src,
    st ∈ [ status_email_approved src; status_email_denied src;
           status_linkedin_approved src; status_pending; status_new src ].
Proof.
  unfold check. destruct (email_hash_of email) as [h|]; [|discriminate].
  set (lh := compute_linkedin_combo_hash linkedin company_linkedin).
  pose proof (offline_block_forms cache h lh) as Hoff.
  case_bool_decide.
  - destruct (online_block r h lh) as [[st'| |] qs'] eqn:Hon; intros [= <- _].
    + apply online_block_forms in Hon. exists (str "online").
      cases_in Hon; in_list.
    + exists (str "online"). in_list.
    + exists (str "cache"). cases_in Hoff; in_list.
  - case_bool_decide; intros [= <- _].
    + exists (str "cache"). cases_in Hoff; in_list.
    + exists mode. in_list.
Qed.

(** C6: in every mode and for every cache and remote log, a status
    returned by [check] has [can_resubmit = false] only with one of the
    reasons [email_already_approved], [linkedin_combo_already_approved],
    [email_pending_processing]; with the reasons [new] and
    [email_was_denied_can_resubmit] it has [can_resubmit = true].  [check]
    returns a status whenever the email is a string or a false value. *)
Theorem check_can_resubmit_invariant (mode : text) (r : Remote) (cache : Cache)
    (email linkedin company_linkedin : value) :
  (forall st qs,
     check mode r cache email linkedin company_linkedin = Some (st, qs) ->
     (can_resubmit st = false -> reason st ∈ final_reasons)
     /\ (reason st = str "new" \/ reason st = str "email_was_denied_can_resubmit"
         -> can_resubmit st = true))
  /\ (str_or_false email ->
      exists st qs,
        check mode r cache email linkedin company_linkedin = Some (st, qs)).
Proof.
  split.
  - intros st qs H. apply check_forms in H as [src H].
    repeat (apply elem_of_cons in H as [->|H]); [..|apply elem_of_nil in H; tauto];
      (split; [intros Hc | intros [Hr|Hr]]);
      first [ reflexivity | discriminate Hc
            | vm_compute in Hr; discriminate Hr
            | vm_compute; in_list ].
  - intros He. unfold check.
    assert (exists h, email_hash_of email = Some h) as [h ->].
    { unfold email_hash_of. destruct He as [[e ->]| ->]; [|eauto].
      destruct (truthy (VStr e)); eauto. }
    repeat case_bool_decide; eauto.
    destruct (online_block _ _ _) as [[]]; eauto.
Qed.

Lemma check_can_resubmit_invariant_witness :
  exists st qs,
    check (str "online") (remote_with log_pending) empty_cache
          (VStr example_email) example_linkedin example_company = Some (st, qs)
    /\ can_resubmit st = false
    /\ reason st ∈ final_reasons.
Proof.
  destruct (check_can_resubmit_invariant (str "online") (remote_with log_pending)
              empty_cache (VStr example_email) example_linkedin example_company)
    as [Hinv Hret].
  destruct (Hret (or_introl (ex_intro _ example_email eq_refl))) as (st & qs & Hc).
  exists st, qs. split; [exact Hc|].
  assert (Hres : can_resubmit st = false).
  { vm_compute in Hc. injection Hc as <- _. reflexivity. }
  split; [exact Hres|]. exact (proj1 (Hinv st qs Hc) Hres).
Defined.

(** ** The duplicate checker online (C5) *)

Lemma latest_nil rows : latest rows = [] <-> rows = [].
Proof.
  unfold latest. split; [|intros ->; reflexivity].
  destruct rows as [|e rows]; [reflexivity|]. simpl.
  assert (H : forall l b, exists b',
             foldl (fun best e0 =>
                      match best with
                      | Some b0 => if ev_created_at b0 <? ev_created_at e0
                                   then Some e0 else Some b0
                      | None => Some e0
                      end) (Some b) l = Some b').
  { induction l as [|x l IH]; intros b; simpl; [eauto|].
    destruct (ev_created_at b <? ev_created_at x); apply IH. }
  destruct (H rows e) as [b' ->]. discriminate.
Qed.

Lemma execute_operational r q :
  operational r -> execute r q = Some (select (log r) q).
Proof. intros (_ & _ & _ & H). unfold execute. rewrite H. reflexivity. Qed.

(** The online block on a log that answers, in closed form: the end of the
    block and the queries sent. *)
Lemma online_block_operational r h lh :
  operational r ->
  online_block r h lh
  = match (if is_empty h then []
           else latest (email_rows (str "CONSENSUS_RESULT") h (log r))) with
    | row :: _ =>
        (Returned (if is_approve (ev_final_decision row)
                   then status_email_approved (str "online")
                   else status_email_denied (str "online")),
         [QEmailConsensus h])
    | [] =>
        let q1 := if is_empty h then [] else [QEmailConsensus h] in
        let q2 := if is_empty lh then [] else [QLinkedinConsensus lh] in
        if linkedin_approved r lh
        then (Returned (status_linkedin_approved (str "online")), q1 ++ q2)
        else if is_empty h then (Finished, q1 ++ q2)
        else (if bool_decide (email_rows (str "SUBMISSION") h (log r) = [])
              then Finished else Returned status_pending,
              q1 ++ q2 ++ [QPending h])
    end.
Proof.
  intros Hop. pose proof Hop as (Hi & Hc & Hk & _).
  unfold online_block. rewrite Hi, Hc, Hk. simpl negb. cbv iota.
  assert (Hlink : online_linkedin r h lh
                  = if linkedin_approved r lh
                    then (Returned (status_linkedin_approved (str "online")),
                          [QLinkedinConsensus lh])
                    else let '(o, qs) := online_pending r h in
                         (o, (if is_empty lh then [] else [QLinkedinConsensus lh]) ++ qs)).
  { unfold online_linkedin, linkedin_approved.
    destruct (is_empty lh); cbn [negb andb];
      [destruct (online_pending r h); reflexivity|].
    rewrite execute_operational by exact Hop.
    destruct (select (log r) (QLinkedinConsensus lh)) as [|e rows];
      [destruct (online_pending r h); reflexivity|].
    destruct (is_approve _); [reflexivity|].
    destruct (online_pending r h); reflexivity. }
  assert (Hpend : online_pending r h
                  = if is_empty h then (Finished, [])
                    else (if bool_decide (email_rows (str "SUBMISSION") h (log r) = [])
                          then Finished else Returned status_pending, [QPending h])).
  { unfold online_pending. destruct (is_empty h); [reflexivity|].
    rewrite execute_operational by exact Hop.
    change (select (log r) (QPending h))
      with (take 1 (email_rows (str "SUBMISSION") h (log r))).
    destruct (email_rows _ h (log r)); reflexivity. }
  unfold online_email. rewrite Hlink, Hpend.
  destruct (is_empty h) eqn:Hh.
  - destruct (linkedin_approved r lh) eqn:Hla; simpl.
    + unfold linkedin_approved in Hla. destruct (is_empty lh); [discriminate|reflexivity].
    + rewrite app_nil_r. reflexivity.
  - rewrite execute_operational by exact Hop.
    change (select (log r) (QEmailConsensus h))
      with (latest (email_rows (str "CONSENSUS_RESULT") h (log r))).
    destruct (latest _) as [|row rows]; [|destruct (is_approve _); reflexivity].
    destruct (linkedin_approved r lh) eqn:Hla; simpl.
    + unfold linkedin_approved in Hla. destruct (is_empty lh); [discriminate|reflexivity].
    + reflexivity.
Qed.

(** C5, as the code has it: online, on a log that answers, when the email
    hash has no CONSENSUS_RESULT row and has a SUBMISSION row, [check]
    returns [is_duplicate = true] and [can_resubmit = false]; the reason is
    [email_pending_processing] unless the most recent consensus row of the
    LinkedIn combination hash is an approval, in which case the reason is
    [linkedin_combo_already_approved].  The LinkedIn combination hash is
    queried exactly when it is not empty and the email hash has no
    consensus row, and it decides the result only with an approval. *)
Theorem check_online_pending (r : Remote) (cache : Cache) (e : text)
    (linkedin company_linkedin : value) :
  let h := compute_email_hash e in
  let lh := compute_linkedin_combo_hash linkedin company_linkedin in
  let result := check (str "online") r cache (VStr e) linkedin company_linkedin in
  operational r ->
  (e <> [] ->
   email_rows (str "CONSENSUS_RESULT") h (log r) = [] ->
   email_rows (str "SUBMISSION") h (log r) <> [] ->
   exists st qs,
     result = Some (st, qs)
     /\ is_duplicate st = true /\ can_resubmit st = false
     /\ reason st = (if linkedin_approved r lh
                     then str "linkedin_combo_already_approved"
                     else str "email_pending_processing"))
  /\ (exists st qs,
        result = Some (st, qs)
        /\ (QLinkedinConsensus lh ∈ qs
            <-> lh <> []
                /\ (e = [] \/ email_rows (str "CONSENSUS_RESULT") h (log r) = []))
        /\ (reason st = str "linkedin_combo_already_approved"
            <-> linkedin_approved r lh = true
                /\ (e = [] \/ email_rows (str "CONSENSUS_RESULT") h (log r) = []))).
Proof.
  intros h lh result Hop. subst result. unfold check.
  change (bool_decide (str "online" = str "online")) with true. cbv iota.
  fold lh.
  split.
  - intros He Hnone Hsub. rewrite (email_hash_of_str e He). fold h.
    rewrite online_block_operational by exact Hop.
    rewrite (compute_email_hash_nonempty e : is_empty h = false).
    rewrite Hnone. simpl latest. cbv iota zeta.
    rewrite bool_decide_eq_false_2 by exact Hsub.
    destruct (linkedin_approved r lh); eexists _, _; repeat split.
  - assert (Hla : linkedin_approved r lh = true -> lh <> []).
    { unfold linkedin_approved. destruct lh; [discriminate|discriminate]. }
    destruct e as [|c e'].
    + change (email_hash_of (VStr [])) with (Some ([] : text)). cbv beta iota.
      rewrite online_block_operational by exact Hop.
      simpl is_empty at 1 2 3. cbv iota zeta.
      destruct (linkedin_approved r lh) eqn:Happ.
      * specialize (Hla eq_refl). apply is_empty_false in Hla. rewrite Hla.
        apply is_empty_false in Hla.
        eexists _, _. split; [reflexivity|].
        cbn [app reason status_linkedin_approved]. split.
        -- rewrite list_elem_of_singleton. tauto.
        -- tauto.
      * eexists _, _. split; [reflexivity|]. cbn [app]. split.
        -- destruct (is_empty lh) eqn:Hlh.
           ++ apply is_empty_spec in Hlh. rewrite elem_of_nil. tauto.
           ++ apply is_empty_false in Hlh. rewrite list_elem_of_singleton. tauto.
        -- split; [intros H; vm_compute in H; discriminate
                  | intros [? _]; discriminate].
    + set (em := c :: e') in *. fold h.
      change (email_hash_of (VStr em)) with (Some h). cbv beta iota.
      rewrite online_block_operational by exact Hop.
      rewrite (compute_email_hash_nonempty em : is_empty h = false).
      assert (Hem : em <> []) by discriminate.
      destruct (latest _) as [|row rows] eqn:Hlat.
      * apply (proj1 (latest_nil _)) in Hlat. cbv zeta.
        destruct (linkedin_approved r lh) eqn:Happ.
        -- specialize (Hla eq_refl). apply is_empty_false in Hla. rewrite Hla.
           apply is_empty_false in Hla.
           eexists _, _. split; [reflexivity|]. cbn [app reason status_linkedin_approved].
           split.
           ++ rewrite elem_of_cons, list_elem_of_singleton.
              split; [tauto | intros _; right; reflexivity].
           ++ tauto.
        -- assert (Hq : QLinkedinConsensus lh
                          ∈ [QEmailConsensus h]
                            ++ (if is_empty lh then [] else [QLinkedinConsensus lh])
                            ++ [QPending h]
                        <-> lh <> []).
           { destruct (is_empty lh) eqn:Hlh.
             - apply is_empty_spec in Hlh. cbn [app].
               rewrite !elem_of_cons, elem_of_nil.
               split; [intros [?|[?|?]]; [discriminate|discriminate|tauto] | tauto].
             - apply is_empty_false in Hlh. cbn [app].
               rewrite !elem_of_cons.
               split; [tauto | intros _; right; left; reflexivity]. }
           destruct (bool_decide _); eexists _, _; (split; [reflexivity|]);
             (split; [rewrite Hq; tauto|]);
             (split; [intros H; vm_compute in H; discriminate
                     | intros [? _]; discriminate]).
      * assert (Hne : email_rows (str "CONSENSUS_RESULT") h (log r) <> []).
        { intros H. apply (proj2 (latest_nil _)) in H. congruence. }
        destruct (is_approve _); eexists _, _; (split; [reflexivity|]);
          (split; [rewrite list_elem_of_singleton;
                   split; [discriminate | intros [_ [?|?]]; [tauto|tauto]]|]);
          (split; [intros H; vm_compute in H; discriminate
                  | intros [_ [?|?]]; [tauto|tauto]]).
Qed.

(** C5, as the claim states it, fails: with a pending submission of the
    email and an approved consensus for the LinkedIn pair, the reason is
    [linkedin_combo_already_approved], not [email_pending_processing]. *)
Lemma check_online_pending_counterexample :
  let h := compute_email_hash example_email in
  email_rows (str "CONSENSUS_RESULT") h log_pending_and_linkedin = []
  /\ email_rows (str "SUBMISSION") h log_pending_and_linkedin <> []
  /\ exists st qs,
       check (str "online") (remote_with log_pending_and_linkedin) empty_cache
             (VStr example_email) example_linkedin example_company
       = Some (st, qs)
       /\ reason st = str "linkedin_combo_already_approved"
       /\ reason st <> str "email_pending_processing".
Proof.
  split; [vm_compute; reflexivity|]. split; [vm_compute; discriminate|].
  eexists _, _. split; [vm_compute; reflexivity|].
  split; [reflexivity | vm_compute; discriminate].
Qed.

Lemma check_online_pending_witness :
  exists st qs,
    check (str "online") (remote_with log_pending) empty_cache
          (VStr example_email) example_linkedin example_company = Some (st, qs)
    /\ is_duplicate st = true /\ can_resubmit st = false
    /\ reason st = str "email_pending_processing".
Proof.
  assert (Hop : operational (remote_with log_pending)) by (repeat split).
  assert (He : example_email <> []) by (vm_compute; discriminate).
  assert (Hc : email_rows (str "CONSENSUS_RESULT")
                 (compute_email_hash example_email)
                 (log (remote_with log_pending)) = [])
    by (vm_compute; reflexivity).
  assert (Hs : email_rows (str "SUBMISSION")
                 (compute_email_hash example_email)
                 (log (remote_with log_pending)) <> [])
    by (vm_compute; discriminate).
  destruct (proj1 (check_online_pending (remote_with log_pending) empty_cache
                     example_email example_linkedin example_company Hop)
                  He Hc Hs)
    as (st & qs & Hres & Hd & Hr & Hreason).
  exists st, qs. split; [exact Hres|]. split; [exact Hd|]. split; [exact Hr|].
  exact Hreason.
Defined.

(** ** Whole words *)

Lemma forallb_app_true {A} (p : A -> bool) l1 l2 :
  forallb p (l1 ++ l2) = true <-> forallb p l1 = true /\ forallb p l2 = true.
Proof. rewrite forallb_app, andb_true_iff. reflexivity. Qed.

Lemma last_word_of_words (l : text) :
  forallb re_word l = true -> l <> [] -> is_word_opt (last l) = true.
Proof.
  intros Hl Hne. destruct (last l) as [x|] eqn:Hlast.
  - apply last_Some in Hlast as [l' ->].
    apply forallb_app_true in Hl as [_ Hx]. simpl in Hx.
    rewrite andb_true_r in Hx. exact Hx.
  - apply last_None in Hlast. congruence.
Qed.

Lemma head_word_of_words (l : text) :
  forallb re_word l = true -> l <> [] -> is_word_opt (head l) = true.
Proof.
  destruct l as [|x l]; [congruence|]. simpl. intros H _.
  apply andb_true_iff in H as [H _]. exact H.
Qed.

Lemma word_text_head_word w c k :
  word_text w -> w = c :: k -> re_word c = true.
Proof.
  intros [_ Hw] ->. simpl in Hw. apply andb_true_iff in Hw as [H _]. exact H.
Qed.

(** An occurrence of a word in a text that begins with a run [a] of word
    characters and a character [c] that is not one: it is the run, or it
    lies after [c]. *)
Lemma occurs_split a c s' w pre post :
  forallb re_word a = true -> re_word c = false -> word_text w ->
  pre ++ w ++ post = a ++ c :: s' ->
  is_word_opt (last pre) = false -> is_word_opt (head post) = false ->
  (pre = [] /\ w = a /\ post = c :: s')
  \/ (exists pre', pre = a ++ c :: pre' /\ s' = pre' ++ w ++ post).
Proof.
  intros Ha Hc Hw Heq Hpre Hpost.
  apply app_eq_inv in Heq as [(k & Hk1 & Hk2)|(k & Hk1 & Hk2)].
  - (* pre reaches beyond the run *)
    destruct k as [|c' k].
    + simpl in Hk2. destruct w as [|x w]; [destruct Hw; congruence|].
      injection Hk2 as -> _.
      pose proof (word_text_head_word _ _ _ Hw eq_refl). congruence.
    + injection Hk2 as <- ->. right. exists k. split; [exact Hk1 | reflexivity].
  - (* pre lies inside the run, so it is empty *)
    assert (pre = []) as ->.
    { destruct pre as [|x pre]; [reflexivity|]. exfalso.
      rewrite Hk1 in Ha. apply forallb_app_true in Ha as [Ha _].
      rewrite (last_word_of_words _ Ha) in Hpre by discriminate. discriminate. }
    simpl in Hk1. subst k. left. split; [reflexivity|].
    symmetry in Hk2.
    apply app_eq_inv in Hk2 as [(k & Hk3 & Hk4)|(k & Hk3 & Hk4)].
    + destruct k as [|x k].
      * rewrite app_nil_r in Hk3. simpl in Hk4. subst. auto.
      * exfalso. subst a. apply forallb_app_true in Ha as [_ Ha].
        rewrite Hk4 in Hpost. simpl in Hpost, Ha.
        apply andb_true_iff in Ha as [Ha _]. congruence.
    + destruct k as [|x k].
      * rewrite app_nil_r in Hk3. simpl in Hk4. subst. auto.
      * exfalso. injection Hk4 as -> _. destruct Hw as [_ Hw].
        rewrite Hk3 in Hw. apply forallb_app_true in Hw as [_ Hw].
        simpl in Hw. apply andb_true_iff in Hw as [Hw _]. congruence.
Qed.

Lemma last_after_nonword a c pre' :
  re_word c = false ->
  is_word_opt (last (a ++ c :: pre')) = is_word_opt (last pre').
Proof.
  intros Hc. rewrite last_app_cons, last_cons.
  destruct (last pre'); [reflexivity|]. simpl. exact Hc.
Qed.

(** The tokens of the tokenizer are the whole-word occurrences. *)
Lemma word_tokens_aux_spec s : forall cur w,
  forallb re_word cur = true ->
  (w ∈ word_tokens_aux cur s
   <-> word_text w /\ occurs_as_word w (rev cur ++ s)).
Proof.
  induction s as [|c s' IH]; intros cur w Hcur.
  - (* end of the text *)
    rewrite app_nil_r. simpl.
    assert (Hrev : forallb re_word (rev cur) = true).
    { rewrite forallb_forall in *. intros x Hx. apply Hcur, in_rev, Hx. }
    assert (Hocc : word_text w -> occurs_as_word w (rev cur) -> w = rev cur).
    { intros Hw (pre & post & Heq & Hpre & Hpost).
      rewrite Heq in Hrev.
      apply forallb_app_true in Hrev as [Hp Hrev].
      apply forallb_app_true in Hrev as [_ Hq].
      destruct pre as [|x pre];
        [|rewrite (last_word_of_words _ Hp) in Hpre by discriminate; discriminate].
      destruct post as [|y post];
        [|rewrite (head_word_of_words _ Hq) in Hpost by discriminate; discriminate].
      rewrite Heq, app_nil_r. reflexivity. }
    destruct cur as [|x cur].
    + rewrite elem_of_nil. split; [tauto|].
      intros [Hw Ho]. specialize (Hocc Hw Ho). destruct Hw. simpl in Hocc. congruence.
    + rewrite list_elem_of_singleton. split.
      * intros ->. split.
        -- split; [|exact Hrev]. simpl. destruct (rev cur); discriminate.
        -- exists [], []. rewrite app_nil_r. auto.
      * intros [Hw Ho]. auto.
  - simpl. destruct (re_word c) eqn:Hc.
    + (* the run goes on *)
      rewrite IH by (simpl; rewrite Hc, Hcur; reflexivity).
      simpl. rewrite <- app_assoc. reflexivity.
    + (* the run ends *)
      assert (Hrev : forallb re_word (rev cur) = true).
      { rewrite forallb_forall in *. intros x Hx. apply Hcur, in_rev, Hx. }
      assert (Hafter : word_text w ->
                (occurs_as_word w (rev cur ++ c :: s')
                 <-> (cur <> [] /\ w = rev cur) \/ occurs_as_word w s')).
      { intros Hw. split.
        - intros (pre & post & Heq & Hpre & Hpost). symmetry in Heq.
          destruct (occurs_split _ _ _ _ _ _ Hrev Hc Hw Heq Hpre Hpost)
            as [(-> & -> & ->)|(pre' & -> & ->)].
          + left. split; [|reflexivity]. intros ->. destruct Hw. auto.
          + right. exists pre', post. split; [reflexivity|].
            rewrite last_after_nonword in Hpre by exact Hc. auto.
        - intros [[Hne ->]|(pre' & post & -> & Hpre & Hpost)].
          + exists [], (c :: s'). simpl. rewrite Hc. auto.
          + exists (rev cur ++ c :: pre'), post. split.
            * rewrite <- !app_assoc. reflexivity.
            * rewrite last_after_nonword by exact Hc. auto. }
      destruct cur as [|x cur].
      * rewrite IH by reflexivity. simpl rev. rewrite !app_nil_l.
        split; intros [Hw Ho]; (split; [exact Hw|]).
        -- apply (Hafter Hw). right. exact Ho.
        -- apply (Hafter Hw) in Ho as [[Hne _]|Ho]; [congruence | exact Ho].
      * rewrite elem_of_cons, IH by reflexivity. simpl rev at 2. rewrite app_nil_l.
        split.
        -- intros [->|[Hw Ho]].
           ++ assert (Hw : word_text (rev (x :: cur))).
              { split; [|exact Hrev]. simpl. destruct (rev cur); discriminate. }
              split; [exact Hw|]. apply (Hafter Hw). left. split; [discriminate|reflexivity].
           ++ split; [exact Hw|]. apply (Hafter Hw). right. exact Ho.
        -- intros [Hw Ho]. apply (Hafter Hw) in Ho as [[_ ->]|Ho]; auto.
Qed.

Lemma word_tokens_spec s w :
  w ∈ word_tokens s <-> word_text w /\ occurs_as_word w s.
Proof. apply (word_tokens_aux_spec s [] w). reflexivity. Qed.

(** ** Stripping and lower-casing *)

Lemma lstrip_split s :
  exists p, s = p ++ lstrip s /\ forallb py_isspace p = true.
Proof.
  induction s as [|c s IH]; simpl.
  - exists []. auto.
  - destruct (py_isspace c) eqn:Hc.
    + destruct IH as (p & Hp & Hsp). exists (c :: p). split.
      * simpl. congruence.
      * simpl. rewrite Hc. exact Hsp.
    + exists []. auto.
Qed.

Lemma rstrip_split s :
  exists q, s = rstrip s ++ q /\ forallb py_isspace q = true.
Proof.
  unfold rstrip. destruct (lstrip_split (rev s)) as (p & Hp & Hsp).
  exists (rev p). split.
  - rewrite <- rev_app_distr, <- Hp, rev_involutive. reflexivity.
  - rewrite forallb_forall in *. intros x Hx. apply Hsp, in_rev, Hx.
Qed.

Lemma strip_split s :
  exists p q, s = p ++ strip s ++ q
              /\ forallb py_isspace p = true /\ forallb py_isspace q = true.
Proof.
  destruct (lstrip_split s) as (p & Hp & Hsp).
  destruct (rstrip_split (lstrip s)) as (q & Hq & Hsq).
  exists p, q. unfold strip. rewrite <- Hq. auto.
Qed.

Lemma space_lower_nonword c :
  py_isspace c = true -> re_word (lower_char c) = false.
Proof.
  destruct c as [[] [] [] [] [] [] [] []]; vm_compute; congruence.
Qed.

Lemma lower_spaces_nonword p :
  forallb py_isspace p = true ->
  forallb (fun c => negb (re_word c)) (lower p) = true.
Proof.
  induction p as [|c p IH]; simpl; [reflexivity|].
  intros H. apply andb_true_iff in H as [Hc Hp].
  rewrite (space_lower_nonword c Hc), IH by exact Hp. reflexivity.
Qed.

Lemma word_tokens_aux_skip p s :
  forallb (fun c => negb (re_word c)) p = true ->
  word_tokens_aux [] (p ++ s) = word_tokens_aux [] s.
Proof.
  induction p as [|c p IH]; simpl; [reflexivity|].
  intros H. apply andb_true_iff in H as [Hc Hp].
  apply negb_true_iff in Hc. rewrite Hc. apply IH, Hp.
Qed.

Lemma word_tokens_aux_trail q : forall cur,
  forallb (fun c => negb (re_word c)) q = true ->
  word_tokens_aux cur q = word_tokens_aux cur [].
Proof.
  induction q as [|c q IH]; intros cur H; [reflexivity|].
  simpl in H. apply andb_true_iff in H as [Hc Hq].
  apply negb_true_iff in Hc. simpl. rewrite Hc.
  rewrite (IH [] Hq). destruct cur; reflexivity.
Qed.

Lemma word_tokens_aux_app_trail s q : forall cur,
  forallb (fun c => negb (re_word c)) q = true ->
  word_tokens_aux cur (s ++ q) = word_tokens_aux cur s.
Proof.
  induction s as [|c s IH]; intros cur H.
  - apply word_tokens_aux_trail, H.
  - simpl. destruct (re_word c); [apply IH, H|].
    rewrite (IH [] H). reflexivity.
Qed.

(** Stripping a text does not change the words of its lower-cased form. *)
Lemma word_tokens_lower_strip s :
  word_tokens (lower (strip s)) = word_tokens (lower s).
Proof.
  destruct (strip_split s) as (p & q & Hs & Hp & Hq).
  rewrite Hs at 2. unfold lower, word_tokens. rewrite !map_app.
  rewrite word_tokens_aux_skip by (apply lower_spaces_nonword, Hp).
  rewrite word_tokens_aux_app_trail by (apply lower_spaces_nonword, Hq).
  reflexivity.
Qed.

(** ** The typo dictionary *)

Lemma first_such_split {A} (p : A -> bool) (l1 l2 : list A) x :
  p x = true -> (forall y, y ∈ l1 -> p y = false) ->
  first_such p (l1 ++ x :: l2) = Some x.
Proof.
  intros Hx. induction l1 as [|y l1 IH]; intros H; simpl.
  - rewrite Hx. reflexivity.
  - rewrite (H y) by (apply elem_of_cons; auto).
    apply IH. intros z Hz. apply H, elem_of_cons. auto.
Qed.

Lemma elem_of_role_typos words x :
  x ∈ role_typos words
  <-> exists correct typos typo,
        (correct, typos) ∈ ROLE_TYPOS
        /\ first_such (fun t => mem t words) typos = Some typo
        /\ x = role_typo_code typo correct.
Proof.
  unfold role_typos. rewrite list_elem_of_In, in_flat_map. split.
  - intros ([correct typos] & Hin & Hx).
    apply list_elem_of_In, elem_of_first_code in Hx as (typo & Hf & ->).
    exists correct, typos, typo. rewrite list_elem_of_In. auto.
  - intros (correct & typos & typo & Hin & Hf & ->).
    exists (correct, typos). split; [apply list_elem_of_In, Hin|].
    apply list_elem_of_In, elem_of_first_code. eauto.
Qed.

(** The misspellings of the dictionary are non-empty and made of the
    letters a to z. *)
Lemma misspelling_letters typo correct :
  misspelling_of typo correct -> typo <> [] /\ forallb is_az typo = true.
Proof.
  intros (typos & Hin & Ht).
  assert (H : forallb (fun '(_, ts) =>
                forallb (fun t => negb (is_empty t) && forallb is_az t) ts)
              ROLE_TYPOS = true) by (vm_compute; reflexivity).
  rewrite forallb_forall in H. apply list_elem_of_In in Hin.
  specialize (H _ Hin). simpl in H.
  rewrite forallb_forall in H. apply list_elem_of_In in Ht.
  specialize (H _ Ht). apply andb_true_iff in H as [Hne Haz].
  split; [|exact Haz]. destruct typo; [discriminate|discriminate].
Qed.

Lemma az_word c : is_az c = true -> re_word c = true.
Proof. destruct c as [[] [] [] [] [] [] [] []]; vm_compute; congruence. Qed.

Lemma az_not_dash c : is_az c = true -> c <> "-"%char.
Proof. intros H ->. vm_compute in H. discriminate. Qed.

Lemma misspelling_word_text typo correct :
  misspelling_of typo correct -> word_text typo.
Proof.
  intros H. apply misspelling_letters in H as [Hne Haz]. split; [exact Hne|].
  rewrite forallb_forall in *. intros c Hc. apply az_word, Haz, Hc.
Qed.

(** A code determines its misspelling: the misspelling ends at the first
    dash. *)
Lemma letters_before_dash a b x y :
  forallb is_az a = true -> forallb is_az b = true ->
  a ++ "-"%char :: x = b ++ "-"%char :: y -> a = b.
Proof.
  revert b. induction a as [|c a IH]; intros [|d b] Ha Hb Heq; simpl in *.
  - reflexivity.
  - injection Heq as <- _. apply andb_true_iff in Hb as [Hd _].
    exfalso. exact (az_not_dash _ Hd eq_refl).
  - injection Heq as -> _. apply andb_true_iff in Ha as [Hc _].
    exfalso. exact (az_not_dash _ Hc eq_refl).
  - injection Heq as -> Heq.
    apply andb_true_iff in Ha as [_ Ha]. apply andb_true_iff in Hb as [_ Hb].
    f_equal. exact (IH b Ha Hb Heq).
Qed.

Lemma role_typo_code_inj typo correct typo' correct' :
  forallb is_az typo = true -> forallb is_az typo' = true ->
  role_typo_code typo correct = role_typo_code typo' correct' -> typo = typo'.
Proof.
  unfold role_typo_code. intros Ha Hb Heq.
  apply app_inv_head in Heq.
  exact (letters_before_dash _ _ _ _ Ha Hb Heq).
Qed.

Lemma mem_spec x l : mem x l = true <-> x ∈ l.
Proof. unfold mem. apply bool_decide_eq_true. Qed.

(** A canonical word has one entry in the dictionary. *)
Lemma unique_key_value {A} (l : list (text * A)) k v v' :
  NoDup (map fst l) -> (k, v) ∈ l -> (k, v') ∈ l -> v = v'.
Proof.
  induction l as [|[k0 v0] l IH]; intros Hnd H1 H2.
  - apply elem_of_nil in H1. tauto.
  - simpl in Hnd. apply NoDup_cons in Hnd as [Hk Hnd].
    assert (forall w, (k0, w) ∈ l -> False) as Hfresh.
    { intros w Hw. apply Hk, list_elem_of_In, in_map_iff.
      exists (k0, w). split; [reflexivity | apply list_elem_of_In, Hw]. }
    apply elem_of_cons in H1 as [E1|H1], H2 as [E2|H2].
    + congruence.
    + injection E1 as -> _. exfalso. exact (Hfresh _ H2).
    + injection E2 as -> _. exfalso. exact (Hfresh _ H1).
    + exact (IH Hnd H1 H2).
Qed.

Lemma role_typos_entry correct typos typos' :
  (correct, typos) ∈ ROLE_TYPOS -> (correct, typos') ∈ ROLE_TYPOS ->
  typos = typos'.
Proof.
  apply unique_key_value. apply (bool_decide_unpack _). vm_compute. exact I.
Qed.

(** The element that the loop stops at has nothing before it that passes
    the test. *)
Lemma first_such_before {A} (p : A -> bool) (l1 l2 : list A) x :
  first_such p (l1 ++ x :: l2) = Some x -> x ∉ l1 ->
  forall y, y ∈ l1 -> p y = false.
Proof.
  unfold first_such. induction l1 as [|z l1 IH]; intros Hf Hx y Hy.
  - apply elem_of_nil in Hy. tauto.
  - apply not_elem_of_cons in Hx as [Hne Hx]. simpl in Hf.
    destruct (p z) eqn:Hz.
    + injection Hf as ->. congruence.
    + apply elem_of_cons in Hy as [->|Hy]; [exact Hz|]. exact (IH Hf Hx y Hy).
Qed.

(** ** Whole-word typo matching (C1) *)

(** C1, as the code has it: for a misspelling of the dictionary that occurs
    in the role as a whole word, compared without case, the validator
    reports [role_typo:<typo>-><canonical>] provided that no misspelling
    listed before it for the same canonical word also occurs as a whole
    word (only the first one listed is reported, and some code for the
    canonical word is reported in any case); when the misspelling does not
    occur as a whole word, for instance only inside a longer word, no
    [role_typo] code for it is reported; and a code that is reported names
    a misspelling that occurs as a whole word and has no misspelling listed
    before it, for the same canonical word, that occurs as one: a
    misspelling listed after one that occurs is not reported. *)
Theorem role_typo_whole_word (order : list text -> list text) (role : text)
    (typo correct : text) :
  misspelling_of typo correct ->
  (forall typos before rest,
     (correct, typos) ∈ ROLE_TYPOS ->
     typos = before ++ typo :: rest ->
     occurs_as_word typo (lower role) ->
     (forall t, t ∈ before -> ~ occurs_as_word t (lower role)) ->
     role_typo_code typo correct ∈ validate_role order (VStr role))
  /\ (occurs_as_word typo (lower role) ->
      exists t, misspelling_of t correct
                /\ occurs_as_word t (lower role)
                /\ role_typo_code t correct ∈ validate_role order (VStr role))
  /\ (~ occurs_as_word typo (lower role) ->
      forall c, role_typo_code typo c ∉ validate_role order (VStr role))
  /\ (role_typo_code typo correct ∈ validate_role order (VStr role) ->
      occurs_as_word typo (lower role)
      /\ forall typos before rest,
           (correct, typos) ∈ ROLE_TYPOS ->
           typos = before ++ typo :: rest ->
           typo ∉ before ->
           forall t, t ∈ before -> ~ occurs_as_word t (lower role)).
Proof.
  intros Hmis.
  pose proof (misspelling_word_text _ _ Hmis) as Hwt.
  assert (Htruthy : occurs_as_word typo (lower role) -> truthy (VStr role) = true).
  { intros (pre & post & Heq & _). destruct role; [|reflexivity].
    destruct Hwt as [Hne _]. destruct pre, typo; simpl in Heq; congruence. }
  assert (Htok : forall t c, misspelling_of t c ->
            (mem t (word_tokens (lower (strip role))) = true
             <-> occurs_as_word t (lower role))).
  { intros t c Ht. rewrite mem_spec, word_tokens_lower_strip, word_tokens_spec.
    pose proof (misspelling_word_text _ _ Ht). tauto. }
  split; [|split; [|split]].
  - intros typos before rest Hin -> Hocc Hfirst.
    apply validate_role_typos; [apply Htruthy, Hocc|].
    apply elem_of_role_typos. exists correct, (before ++ typo :: rest), typo.
    split; [exact Hin|]. split; [|reflexivity].
    apply first_such_split.
    + apply (Htok typo correct Hmis), Hocc.
    + intros t Ht. apply not_true_iff_false. intros Hm.
      apply (Hfirst t Ht). apply (Htok t correct); [|exact Hm].
      exists (before ++ typo :: rest). split; [exact Hin|].
      apply elem_of_app. left. exact Ht.
  - intros Hocc. destruct Hmis as (typos & Hin & Ht).
    destruct (first_such (fun t => mem t (word_tokens (lower (strip role)))) typos)
      as [t|] eqn:Hf.
    + pose proof Hf as Hf'. apply find_some in Hf' as [Htin Hm].
      assert (Hmt : misspelling_of t correct).
      { exists typos. split; [exact Hin | apply list_elem_of_In, Htin]. }
      exists t. split; [exact Hmt|]. split; [apply (Htok t correct Hmt), Hm|].
      apply validate_role_typos; [apply Htruthy, Hocc|].
      apply elem_of_role_typos. exists correct, typos, t. auto.
    + exfalso. apply find_none with (x := typo) in Hf;
        [|apply list_elem_of_In, Ht].
      assert (misspelling_of typo correct) as Hm by (exists typos; auto).
      apply (Htok typo correct Hm) in Hocc. simpl in Hf. congruence.
  - intros Hnot c Hin.
    apply validate_role_inv in Hin as [[_ Hin]|Hne];
      [|unfold role_typo_code in Hne; discriminate Hne].
    apply elem_of_role_typos in Hin as (correct' & typos & t & Htab & Hf & Heq).
    apply find_some in Hf as [Ht Hm].
    assert (Hmt : misspelling_of t correct').
    { exists typos. split; [exact Htab | apply list_elem_of_In, Ht]. }
    assert (typo = t) as <-.
    { eapply role_typo_code_inj; [| |exact Heq].
      - apply (misspelling_letters _ _ Hmis).
      - apply (misspelling_letters _ _ Hmt). }
    apply Hnot, (Htok typo correct' Hmt), Hm.
  - intros Hin.
    apply validate_role_inv in Hin as [[_ Hin]|Hne];
      [|unfold role_typo_code in Hne; discriminate Hne].
    apply elem_of_role_typos in Hin as (correct' & typos' & t & Htab & Hf & Heq).
    pose proof Hf as Hf'. apply find_some in Hf' as [Ht Hm].
    assert (Hmt : misspelling_of t correct').
    { exists typos'. split; [exact Htab | apply list_elem_of_In, Ht]. }
    assert (typo = t) as <-.
    { eapply role_typo_code_inj; [| |exact Heq].
      - apply (misspelling_letters _ _ Hmis).
      - apply (misspelling_letters _ _ Hmt). }
    assert (correct = correct') as <-.
    { unfold role_typo_code in Heq.
      apply app_inv_head, app_inv_head, app_inv_head in Heq. exact Heq. }
    split; [apply (Htok typo correct Hmis), Hm|].
    intros typos before rest Hin2 -> Hfresh t Hbefore Hocc.
    rewrite (role_typos_entry _ _ _ Htab Hin2) in Hf.
    pose proof (first_such_before _ _ _ _ Hf Hfresh t Hbefore) as Hno.
    assert (misspelling_of t correct) as Hmt'.
    { exists (before ++ typo :: rest). split; [exact Hin2|].
      apply elem_of_app. left. exact Hbefore. }
    apply (Htok t correct Hmt') in Hocc. simpl in Hno. congruence.
Qed.

Lemma manger_misspelling : misspelling_of (str "manger") (str "manager").
Proof.
  eexists. split.
  - unfold ROLE_TYPOS. apply list_elem_of_here.
  - apply list_elem_of_here.
Qed.

Lemma maneger_misspelling : misspelling_of (str "maneger") (str "manager").
Proof.
  eexists. split.
  - unfold ROLE_TYPOS. apply list_elem_of_here.
  - apply list_elem_of_further, list_elem_of_here.
Qed.

Lemma not_elem_of_computed (x : text) (l : list text) :
  forallb (fun y => negb (bool_decide (x = y))) l = true -> x ∉ l.
Proof.
  intros H Hin. rewrite forallb_forall in H.
  apply list_elem_of_In in Hin. specialize (H x Hin).
  rewrite bool_decide_eq_true_2 in H by reflexivity. discriminate.
Qed.

(** C1, as the claim states it, fails: "maneger" is a misspelling of
    "manager" and a whole word of the role "manger maneger", and the code
    [role_typo:maneger->manager] is not reported, because "manger" is
    listed before it. *)
Lemma role_typo_counterexample :
  misspelling_of (str "maneger") (str "manager")
  /\ occurs_as_word (str "maneger") (lower (str "manger maneger"))
  /\ (role_typo_code (str "maneger") (str "manager")
        ∉ validate_role set_iter_first (VStr (str "manger maneger")))
  /\ validate_role set_iter_first (VStr (str "manger maneger"))
     = [role_typo_code (str "manger") (str "manager")].
Proof.
  split; [exact maneger_misspelling|]. split.
  - exists (str "manger "), []. split; [reflexivity|]. split; reflexivity.
  - split; [|vm_compute; reflexivity].
    apply not_elem_of_computed. vm_compute. reflexivity.
Qed.

Lemma role_typo_whole_word_witness :
  role_typo_code (str "manger") (str "manager")
    ∈ validate_role set_iter_first (VStr (str "Sales Manger"))
  /\ (role_typo_code (str "manger") (str "manager")
        ∉ validate_role set_iter_first (VStr (str "mangerial")))
  /\ (role_typo_code (str "maneger") (str "manager")
        ∉ validate_role set_iter_first (VStr (str "manger maneger"))).
Proof.
  split; [|split].
  - destruct (role_typo_whole_word set_iter_first (str "Sales Manger")
                (str "manger") (str "manager") manger_misspelling) as (H & _ & _).
    eapply (H _ [] _).
    + unfold ROLE_TYPOS. apply list_elem_of_here.
    + reflexivity.
    + exists (str "sales "), []. split; [reflexivity|]. split; reflexivity.
    + intros t Ht. apply elem_of_nil in Ht. destruct Ht.
  - destruct (role_typo_whole_word set_iter_first (str "mangerial")
                (str "manger") (str "manager") manger_misspelling) as (_ & _ & H & _).
    apply H. intros Hocc.
    assert (Hin : str "manger" ∈ word_tokens (lower (str "mangerial"))).
    { apply word_tokens_spec. split; [|exact Hocc].
      exact (misspelling_word_text _ _ manger_misspelling). }
    revert Hin. apply not_elem_of_computed. vm_compute. reflexivity.
  - intros Hin.
    destruct (role_typo_whole_word set_iter_first (str "manger maneger")
                (str "maneger") (str "manager") maneger_misspelling)
      as (_ & _ & _ & H).
    destruct (H Hin) as [_ Hbefore].
    eapply (Hbefore _ [str "manger"] _).
    + unfold ROLE_TYPOS. apply list_elem_of_here.
    + reflexivity.
    + apply not_elem_of_computed. vm_compute. reflexivity.
    + apply list_elem_of_here.
    + exists [], (str " maneger"). split; [reflexivity|]. split; reflexivity.
Defined.

(** ** Running the orchestrator twice (C8) *)

(** A second load of the taxonomy finds what the first one returned. *)
Lemma load_industry_taxonomy_again file cache :
  let '(taxonomy, cache') := load_industry_taxonomy file cache in
  load_industry_taxonomy file cache' = (taxonomy, cache').
Proof.
  unfold load_industry_taxonomy.
  destruct cache as [t|]; [reflexivity|].
  destruct file as [raw|]; reflexivity.
Qed.

Lemma validate_industry_pair_again file cache industry sub_industry :
  let '(errors, cache') := validate_industry_pair file cache industry sub_industry in
  validate_industry_pair file cache' industry sub_industry = (errors, cache').
Proof.
  unfold validate_industry_pair.
  pose proof (load_industry_taxonomy_again file cache) as H.
  destruct (load_industry_taxonomy file cache) as [taxonomy cache'].
  rewrite H. reflexivity.
Qed.

Lemma set_iter_first_ok : set_order_ok set_iter_first.
Proof.
  intros l. split; [apply NoDup_remove_dups|].
  intros x. apply elem_of_remove_dups.
Qed.

Lemma set_iter_last_ok : set_order_ok set_iter_last.
Proof.
  intros l. unfold set_iter_last. split.
  - rewrite reverse_Permutation. apply NoDup_remove_dups.
  - intros x. rewrite elem_of_reverse. apply elem_of_remove_dups.
Qed.

(** *** The iteration order of sets *)

Lemma existsb_same_elements (q : text -> bool) (l1 l2 : list text) :
  (forall x, x ∈ l1 <-> x ∈ l2) -> existsb q l1 = existsb q l2.
Proof.
  intros H. apply eq_true_iff_eq. rewrite !existsb_exists.
  split; intros (x & Hx & Hq); exists x; (split; [|exact Hq]);
    apply list_elem_of_In, H, list_elem_of_In, Hx.
Qed.

Lemma first_such_unique (p : text -> bool) (l1 l2 : list text) :
  (forall x, x ∈ l1 <-> x ∈ l2) ->
  (forall x y, x ∈ l1 -> y ∈ l1 -> p x = true -> p y = true -> x = y) ->
  first_such p l1 = first_such p l2.
Proof.
  intros Hel Huniq. unfold first_such.
  destruct (find p l1) as [x|] eqn:H1, (find p l2) as [y|] eqn:H2.
  - apply find_some in H1 as [Hx Hpx]. apply find_some in H2 as [Hy Hpy].
    f_equal. apply Huniq; try assumption.
    + apply list_elem_of_In, Hx.
    + apply Hel, list_elem_of_In, Hy.
  - apply find_some in H1 as [Hx Hpx].
    assert (Hx2 : In x l2) by (apply list_elem_of_In, Hel, list_elem_of_In, Hx).
    pose proof (find_none _ _ H2 x Hx2). congruence.
  - apply find_some in H2 as [Hy Hpy].
    assert (Hy1 : In y l1) by (apply list_elem_of_In, Hel, list_elem_of_In, Hy).
    pose proof (find_none _ _ H1 y Hy1). congruence.
  - reflexivity.
Qed.

Lemma set_orders_same_elements o1 o2 l x :
  set_order_ok o1 -> set_order_ok o2 -> x ∈ o1 l <-> x ∈ o2 l.
Proof.
  intros H1 H2. rewrite (proj2 (H1 l) x), (proj2 (H2 l) x). reflexivity.
Qed.

(** The role validator does not depend on the order. *)
Lemma validate_role_order o1 o2 role :
  set_order_ok o1 -> set_order_ok o2 ->
  validate_role o1 role = validate_role o2 role.
Proof.
  intros H1 H2. unfold validate_role.
  destruct (negb (truthy role)); [reflexivity|]. cbv zeta.
  rewrite (existsb_same_elements _
             (o1 (split_ws (lower (strip (py_str role)))))
             (o2 (split_ws (lower (strip (py_str role))))))
    by (intros x; apply set_orders_same_elements; assumption).
  reflexivity.
Qed.

(** The location validator depends on it only when two words can be
    reported. *)
Lemma validate_location_field_order o1 o2 v field_name :
  set_order_ok o1 -> set_order_ok o2 ->
  (length (repeated_long_words v) <= 1)%nat ->
  validate_location_field o1 v field_name
  = validate_location_field o2 v field_name.
Proof.
  intros H1 H2 Hone. unfold validate_location_field.
  destruct (negb (truthy v)); [reflexivity|]. cbv zeta.
  set (words := split_ws (lower (strip (py_str v)))) in *.
  set (p := fun word : text => (3 <? length word)%nat
                               && (2 <=? count_occ_text word words)%nat).
  assert (Hf : first_such p (o1 words) = first_such p (o2 words)).
  { apply first_such_unique.
    - intros x. apply set_orders_same_elements; assumption.
    - intros x y Hx Hy Hpx Hpy.
      assert (Hin : forall z, z ∈ o1 words -> p z = true ->
                In z (repeated_long_words v)).
      { intros z Hz Hpz. unfold repeated_long_words. fold words. fold p.
        apply filter_In. split; [|exact Hpz].
        apply list_elem_of_In, elem_of_remove_dups, (proj2 (H1 words) z), Hz. }
      pose proof (Hin x Hx Hpx) as Hx'. pose proof (Hin y Hy Hpy) as Hy'.
      destruct (repeated_long_words v) as [|a [|b l]]; simpl in *;
        [tauto | intuition congruence | lia]. }
  unfold first_code. fold p. rewrite Hf. reflexivity.
Qed.

Lemma audit_lead_order w order tc lead mode net :
  set_order_ok (set_iter w) -> set_order_ok order ->
  at_most_one_repeat lead ->
  audit_lead (with_order w order) tc lead mode net
  = audit_lead w tc lead mode net.
Proof.
  intros Hw Ho Hone. unfold audit_lead, with_order, validate_location.
  cbn [set_iter disposable_pkg network remote cache_file taxonomy_file flat_map].
  rewrite (validate_role_order order (set_iter w)) by assumption.
  rewrite !(validate_location_field_order order (set_iter w)); try assumption;
    try reflexivity; apply Hone.
  - do 2 apply list_elem_of_further. apply list_elem_of_here.
  - apply list_elem_of_further, list_elem_of_here.
  - apply list_elem_of_here.
Qed.

(** C8, as the code has it: two runs of [audit_lead] on the same lead, one
    after the other, in the same world (mode, cache file, network, remote
    log, taxonomy file, and the iteration order of sets that the
    interpreter's string hashing fixes) give the same result, hence the same
    lists of blocking errors and of warnings in the same order, although
    the first run may fill the global taxonomy cache.  Under another
    iteration order of sets the result is still the same when no location
    field repeats two different words of more than three characters. *)
Theorem audit_lead_twice (w : World)
    (taxonomy_cache : option (gmap text (list text)))
    (lead : gmap string value) (mode : text) (run_network_checks : bool) :
  (let '(r1, cache1) := audit_lead w taxonomy_cache lead mode run_network_checks in
   let '(r2, cache2) := audit_lead w cache1 lead mode run_network_checks in
   r1 = r2
   /\ blocking_errors <$> r1 = blocking_errors <$> r2
   /\ warnings <$> r1 = warnings <$> r2
   /\ cache2 = cache1)
  /\ (forall order,
        set_order_ok (set_iter w) -> set_order_ok order ->
        at_most_one_repeat lead ->
        audit_lead (with_order w order) taxonomy_cache lead mode run_network_checks
        = audit_lead w taxonomy_cache lead mode run_network_checks).
Proof.
  split; [|intros order; apply audit_lead_order].
  unfold audit_lead.
  destruct (if run_network_checks then _ else _) as [network_warnings|];
    [|auto].
  destruct (validate_description _) as [desc_errors desc_warnings].
  pose proof (validate_industry_pair_again (taxonomy_file w) taxonomy_cache
                (get lead "industry" (VStr [])) (get lead "sub_industry" (VStr [])))
    as H.
  destruct (validate_industry_pair (taxonomy_file w) taxonomy_cache _ _)
    as [industry_errors cache1].
  destruct (check _ _ _ _ _ _) as [[dup_status qs]|]; rewrite H; auto.
Qed.

Lemma audit_lead_twice_witness :
  audit_lead (with_order (bare_world set_iter_first) set_iter_last) None
             lead_one_repeat (str "offline") false
  = audit_lead (bare_world set_iter_first) None lead_one_repeat
               (str "offline") false.
Proof.
  apply (proj2 (audit_lead_twice (bare_world set_iter_first) None lead_one_repeat
                  (str "offline") false)).
  - exact set_iter_first_ok.
  - exact set_iter_last_ok.
  - intros v Hv.
    repeat (apply elem_of_cons in Hv as [->|Hv]);
      [vm_compute; lia ..| apply elem_of_nil in Hv; destruct Hv].
Defined.

(** C8, as the claim states it, fails: with the same mode, cache, network,
    remote log and taxonomy file, two iteration orders of [set(words)],
    which depend on the interpreter's string hashing, give different
    blocking errors for a city in which two words are repeated. *)
Lemma audit_lead_set_order_counterexample :
  set_order_ok set_iter_first /\ set_order_ok set_iter_last
  /\ exists r1 r2,
       fst (audit_lead (bare_world set_iter_first) None lead_two_repeats
                       (str "offline") false) = Some r1
       /\ fst (audit_lead (bare_world set_iter_last) None lead_two_repeats
                          (str "offline") false) = Some r2
       /\ str "city_duplicate_word:alpha" ∈ blocking_errors r1
       /\ str "city_duplicate_word:gamma" ∈ blocking_errors r2
       /\ blocking_errors r1 <> blocking_errors r2.
Proof.
  split; [exact set_iter_first_ok|]. split; [exact set_iter_last_ok|].
  eexists _, _. split; [vm_compute; reflexivity|].
  split; [vm_compute; reflexivity|].
  split; [|split].
  - vm_compute. repeat constructor.
  - vm_compute. repeat constructor.
  - vm_compute. discriminate.
Qed.

(** ** Canonical LinkedIn URLs (C2) *)

Lemma lower_char_idem c : lower_char (lower_char c) = lower_char c.
Proof. destruct c as [[] [] [] [] [] [] [] []]; reflexivity. Qed.

Lemma Forall_lower s : Forall (fun c => lower_char c = c) (lower s).
Proof.
  induction s as [|c s IH]; simpl; constructor; [apply lower_char_idem | exact IH].
Qed.

Lemma lower_fixed s : Forall (fun c => lower_char c = c) s -> lower s = s.
Proof.
  induction 1 as [|c s Hc _ IH]; simpl; [reflexivity|]. rewrite Hc, IH. reflexivity.
Qed.

Lemma Forall_strip_scheme P s : Forall P s -> Forall P (strip_scheme s).
Proof.
  intros H. unfold strip_scheme.
  repeat match goal with |- context [if ?b then _ else _] => destruct b end;
    try assumption; apply Forall_drop, H.
Qed.

Lemma Forall_strip_www P s : Forall P s -> Forall P (strip_www s).
Proof.
  intros H. unfold strip_www. destruct (startswith _ _); [apply Forall_drop, H | exact H].
Qed.

Lemma Forall_before P sep s : Forall P s -> Forall P (before sep s).
Proof.
  induction 1 as [|c s Hc _ IH]; simpl; [constructor|].
  case_bool_decide; constructor; assumption.
Qed.

Lemma before_no_sep sep s : Forall (fun c => c <> sep) (before sep s).
Proof.
  induction s as [|c s IH]; simpl; [constructor|].
  case_bool_decide; constructor; assumption.
Qed.

Lemma before_id sep s : Forall (fun c => c <> sep) s -> before sep s = s.
Proof.
  induction 1 as [|c s Hc _ IH]; simpl; [reflexivity|].
  rewrite bool_decide_eq_false_2 by exact Hc. rewrite IH. reflexivity.
Qed.

Lemma Forall_collapse P s : Forall P s -> Forall P (collapse_slashes s).
Proof.
  induction 1 as [|c s Hc Hs IH]; [constructor|].
  simpl. destruct s as [|d s]; [constructor; [exact Hc|constructor]|].
  destruct (_ && _); [exact IH | constructor; [exact Hc | exact IH]].
Qed.

Lemma Forall_lstrip_chars P chars s : Forall P s -> Forall P (lstrip_chars chars s).
Proof.
  induction 1 as [|c s Hc Hs IH]; simpl; [constructor|].
  destruct (char_in c chars); [exact IH | constructor; assumption].
Qed.

Lemma Forall_rev_text (P : ascii -> Prop) s : Forall P s -> Forall P (rev s).
Proof.
  rewrite !Forall_forall. intros H c Hc. apply H.
  apply list_elem_of_In, in_rev, list_elem_of_In. exact Hc.
Qed.

Lemma Forall_rstrip_chars P chars s : Forall P s -> Forall P (rstrip_chars chars s).
Proof.
  intros H. unfold rstrip_chars.
  apply Forall_rev_text, Forall_lstrip_chars, Forall_rev_text, H.
Qed.

Lemma span_Forall P p s :
  Forall P s -> Forall (fun c => P c /\ p c = true) (fst (span p s)).
Proof.
  induction 1 as [|c s Hc Hs IH]; simpl; [constructor|].
  destruct (p c) eqn:Hp; [|constructor].
  destruct (span p s) as [a b]. simpl in *. constructor; auto.
Qed.

Lemma span_all p s : Forall (fun c => p c = true) s -> span p s = (s, []).
Proof.
  induction 1 as [|c s Hc _ IH]; simpl; [reflexivity|]. rewrite Hc, IH. reflexivity.
Qed.

(** What the search for a slug returns. *)
Lemma slug_search_spec P marker url slug :
  Forall P url -> slug_search marker url = Some slug ->
  slug <> [] /\ Forall (fun c => P c /\ not_slash c = true) slug.
Proof.
  induction 1 as [|c url Hc Hu IH]; simpl.
  - destruct (startswith marker []); [|discriminate].
    destruct (fst (span not_slash (drop (length marker) []))) eqn:Hs; [discriminate|].
    intros [= <-]. destruct marker; simpl in Hs; discriminate.
  - destruct (if startswith marker (c :: url) then _ else _) as [slug'|] eqn:Hm.
    + intros [= <-]. destruct (startswith marker (c :: url)); [|discriminate].
      assert (HF : Forall P (drop (length marker) (c :: url)))
        by (apply Forall_drop; constructor; assumption).
      pose proof (span_Forall P not_slash _ HF) as Hsp.
      destruct (fst (span not_slash (drop (length marker) (c :: url))));
        [discriminate|].
      injection Hm as <-. split; [discriminate | exact Hsp].
    + exact IH.
Qed.

Lemma startswith_app p s : startswith p (p ++ s) = true.
Proof.
  induction p as [|c p IH]; simpl; [reflexivity|].
  rewrite bool_decide_eq_true_2 by reflexivity. exact IH.
Qed.

Lemma slug_search_here marker slug :
  slug <> [] -> Forall (fun c => not_slash c = true) slug ->
  slug_search marker (marker ++ slug) = Some slug.
Proof.
  intros Hne Hs.
  assert (Hm : (if startswith marker (marker ++ slug)
                then match fst (span not_slash (drop (length marker) (marker ++ slug))) with
                     | [] => None
                     | c :: l => Some (c :: l)
                     end
                else None) = Some slug).
  { rewrite startswith_app, drop_app_length, (span_all _ _ Hs). simpl.
    destruct slug; [congruence | reflexivity]. }
  destruct (marker ++ slug) as [|c u] eqn:Hu; simpl; simpl in Hm; rewrite Hm; reflexivity.
Qed.

Lemma lstrip_id c s : py_isspace c = false -> lstrip (c :: s) = c :: s.
Proof. intros H. simpl. rewrite H. reflexivity. Qed.

Lemma rstrip_id s : ends_in_space s = false -> rstrip s = s.
Proof.
  unfold ends_in_space, rstrip. destruct (last s) as [c|] eqn:Hl.
  - apply last_Some in Hl as [s' ->]. intros Hc.
    rewrite rev_app_distr. simpl. rewrite Hc. simpl.
    rewrite rev_involutive. reflexivity.
  - apply last_None in Hl as ->. reflexivity.
Qed.

Lemma rstrip_chars_id chars s :
  match last s with Some c => char_in c chars = false | None => True end ->
  rstrip_chars chars s = s.
Proof.
  unfold rstrip_chars. destruct (last s) as [c|] eqn:Hl.
  - apply last_Some in Hl as [s' ->]. intros Hc.
    rewrite rev_app_distr. simpl. rewrite Hc. simpl.
    rewrite rev_involutive. reflexivity.
  - apply last_None in Hl as ->. reflexivity.
Qed.

Lemma collapse_no_slash s :
  Forall (fun c => not_slash c = true) s -> collapse_slashes s = s.
Proof.
  induction 1 as [|c s Hc _ IH]; [reflexivity|].
  simpl. destruct s as [|d s]; [reflexivity|].
  unfold not_slash in Hc. apply negb_true_iff in Hc. rewrite Hc. simpl.
  simpl in IH. rewrite IH. reflexivity.
Qed.

Lemma collapse_keep c d s :
  N.eqb (cp c) 47 && N.eqb (cp d) 47 = false ->
  collapse_slashes (c :: d :: s) = c :: collapse_slashes (d :: s).
Proof. intros H. simpl. rewrite H. reflexivity. Qed.

Lemma last_app_nonempty (a b : text) : b <> [] -> last (a ++ b) = last b.
Proof.
  intros H. rewrite last_app. destruct (last b) eqn:Hl; [reflexivity|].
  apply last_None in Hl. congruence.
Qed.

(** A canonical form that does not end in a whitespace character is
    normalized to itself. *)
Lemma normalize_canonical marker url_type slug :
  (marker = str "linkedin.com/in/" /\ url_type = str "profile")
  \/ (marker = str "linkedin.com/company/" /\ url_type = str "company") ->
  slug_ok slug -> ends_in_space slug = false ->
  normalize_linkedin_url (VStr (marker ++ slug)) url_type = marker ++ slug.
Proof.
  intros Hm [Hne Hslug] Hsp.
  assert (Hlow : Forall (fun c => lower_char c = c) slug).
  { eapply Forall_impl; [exact Hslug|]. intros c [[H _] _]. exact H. }
  assert (Hq : Forall (fun c => c <> "?"%char) slug).
  { eapply Forall_impl; [exact Hslug|]. intros c [(_ & H & _) _]. exact H. }
  assert (Hh : Forall (fun c => c <> "#"%char) slug).
  { eapply Forall_impl; [exact Hslug|]. intros c [(_ & _ & H) _]. exact H. }
  assert (Hns : Forall (fun c => not_slash c = true) slug).
  { eapply Forall_impl; [exact Hslug|]. intros c [_ H]. exact H. }
  assert (Hlast : match last slug with
                  | Some c => char_in c (str "/") = false
                  | None => True
                  end).
  { destruct (last slug) as [c|] eqn:Hl; [|exact I].
    apply last_Some in Hl as [s' ->]. apply Forall_app in Hns as [_ Hc].
    apply Forall_cons in Hc as [Hc _]. unfold not_slash in Hc.
    apply negb_true_iff in Hc. simpl. rewrite orb_false_r.
    apply bool_decide_eq_false. intros ->. vm_compute in Hc. discriminate. }
  assert (Hmarker : Forall (fun c => lower_char c = c /\ c <> "?"%char /\ c <> "#"%char)
                           marker).
  { destruct Hm as [[-> _]|[-> _]]; repeat constructor; discriminate. }
  unfold normalize_linkedin_url.
  assert (Hy : marker ++ slug <> []) by (destruct Hm as [[-> _]|[-> _]]; discriminate).
  assert (truthy (VStr (marker ++ slug)) = true) as ->
    by (simpl; destruct (marker ++ slug); [congruence | reflexivity]).
  cbn [negb py_str].
  assert (strip (marker ++ slug) = marker ++ slug) as ->.
  { unfold strip.
    assert (lstrip (marker ++ slug) = marker ++ slug) as ->
      by (destruct Hm as [[-> _]|[-> _]]; reflexivity).
    apply rstrip_id. unfold ends_in_space in *.
    rewrite last_app_nonempty by exact Hne. exact Hsp. }
  assert (lower (marker ++ slug) = marker ++ slug) as ->.
  { apply lower_fixed, Forall_app. split; [|exact Hlow].
    eapply Forall_impl; [exact Hmarker|]. intros c [H _]. exact H. }
  assert (strip_scheme (marker ++ slug) = marker ++ slug) as ->
    by (destruct Hm as [[-> _]|[-> _]]; reflexivity).
  assert (strip_www (marker ++ slug) = marker ++ slug) as ->
    by (destruct Hm as [[-> _]|[-> _]]; reflexivity).
  assert (startswith (str "linkedin.com") (marker ++ slug) = true) as ->
    by (destruct Hm as [[-> _]|[-> _]]; reflexivity).
  cbn [negb].
  rewrite (before_id "?" (marker ++ slug)).
  2:{ apply Forall_app. split; [|exact Hq].
      eapply Forall_impl; [exact Hmarker|]. intros c (_ & H & _). exact H. }
  rewrite (before_id "#" (marker ++ slug)).
  2:{ apply Forall_app. split; [|exact Hh].
      eapply Forall_impl; [exact Hmarker|]. intros c (_ & _ & H). exact H. }
  assert (collapse_slashes (marker ++ slug) = marker ++ slug) as ->.
  { destruct slug as [|c slug']; [congruence|].
    pose proof (collapse_no_slash _ Hns) as Hc.
    apply Forall_cons in Hns as [Hc0 _]. unfold not_slash in Hc0.
    apply negb_true_iff in Hc0.
    destruct Hm as [[-> _]|[-> _]]; cbn -[collapse_slashes];
      repeat (rewrite collapse_keep
                by (reflexivity || (cbn; rewrite Hc0; reflexivity)));
      rewrite Hc; reflexivity. }
  rewrite rstrip_chars_id by (rewrite last_app_nonempty by exact Hne; exact Hlast).
  destruct Hm as [[-> ->]|[-> ->]].
  - rewrite bool_decide_eq_true_2 by reflexivity.
    rewrite slug_search_here by assumption. reflexivity.
  - rewrite bool_decide_eq_false_2 by (vm_compute; discriminate).
    rewrite bool_decide_eq_true_2 by reflexivity.
    rewrite slug_search_here by assumption. reflexivity.
Qed.

(** The results of the normalization. *)
Lemma normalize_forms url url_type :
  normalize_linkedin_url url url_type = []
  \/ exists marker slug,
       normalize_linkedin_url url url_type = marker ++ slug
       /\ ((marker = str "linkedin.com/in/" /\ url_type = str "profile")
           \/ (marker = str "linkedin.com/company/" /\ url_type = str "company"))
       /\ slug_ok slug.
Proof.
  unfold normalize_linkedin_url.
  destruct (negb (truthy url)); [auto|].
  set (u2 := strip_www (strip_scheme (lower (strip (py_str url))))).
  destruct (negb (startswith (str "linkedin.com") u2)); [auto|].
  set (u5 := rstrip_chars (str "/") (collapse_slashes (before "#" (before "?" u2)))).
  assert (Hu5 : Forall url_char u5).
  { subst u5. apply Forall_rstrip_chars, Forall_collapse.
    assert (H1 : Forall (fun c => lower_char c = c) u2)
      by (apply Forall_strip_www, Forall_strip_scheme, Forall_lower).
    assert (H2 : Forall (fun c => lower_char c = c /\ c <> "?"%char)
                        (before "?" u2)).
    { apply Forall_and. split; [apply Forall_before, H1 | apply before_no_sep]. }
    apply Forall_and. split; [|apply Forall_and; split].
    - apply Forall_before. eapply Forall_impl; [exact H2|]. intros c [H _]. exact H.
    - apply Forall_before. eapply Forall_impl; [exact H2|]. intros c [_ H]. exact H.
    - apply before_no_sep. }
  case_bool_decide as Hp.
  - destruct (slug_search _ u5) as [slug|] eqn:Hs; [|auto].
    right. exists (str "linkedin.com/in/"), slug. split; [reflexivity|].
    split; [auto|]. exact (slug_search_spec _ _ _ _ Hu5 Hs).
  - case_bool_decide as Hc; [|auto].
    destruct (slug_search _ u5) as [slug|] eqn:Hs; [|auto].
    right. exists (str "linkedin.com/company/"), slug. split; [reflexivity|].
    split; [auto|]. exact (slug_search_spec _ _ _ _ Hu5 Hs).
Qed.

Lemma startswith_span p q s :
  forallb q p = true -> startswith p (fst (span q s)) = startswith p s.
Proof.
  revert s. induction p as [|c p IH]; intros s Hp; [reflexivity|].
  simpl in Hp. apply andb_true_iff in Hp as [Hc Hp].
  destruct s as [|d s]; [reflexivity|]. simpl.
  destruct (q d) eqn:Hd.
  - specialize (IH s Hp). destruct (span q s) as [a b]. simpl in *.
    rewrite IH. reflexivity.
  - simpl. case_bool_decide as Heq; [|reflexivity]. subst d. congruence.
Qed.

(** *** A second pass never gives back a text that ends in a space *)

Lemma lstrip_length s : (length (lstrip s) <= length s)%nat.
Proof.
  induction s as [|c s IH]; simpl; [lia|].
  destruct (py_isspace c); simpl; lia.
Qed.

Lemma rstrip_length s : (length (rstrip s) <= length s)%nat.
Proof.
  unfold rstrip. rewrite length_rev.
  pose proof (lstrip_length (rev s)) as H. rewrite length_rev in H. exact H.
Qed.

Lemma lstrip_same_or_shorter s :
  lstrip s = s \/ (length (lstrip s) < length s)%nat.
Proof.
  destruct s as [|c s]; [auto|]. simpl.
  destruct (py_isspace c); [|auto].
  right. pose proof (lstrip_length s). simpl. lia.
Qed.

Lemma strip_shorter s :
  ends_in_space s = true -> (length (strip s) < length s)%nat.
Proof.
  unfold ends_in_space, strip. intros H.
  destruct (lstrip_same_or_shorter s) as [->|Hl].
  - destruct (last s) as [c|] eqn:Hlast; [|discriminate].
    apply last_Some in Hlast as [s' ->].
    unfold rstrip. rewrite rev_app_distr. simpl. rewrite H.
    rewrite length_rev, length_app. simpl.
    pose proof (lstrip_length (rev s')) as Hr. rewrite length_rev in Hr. lia.
  - pose proof (rstrip_length (lstrip s)). lia.
Qed.

Lemma strip_scheme_length s : (length (strip_scheme s) <= length s)%nat.
Proof.
  unfold strip_scheme.
  repeat match goal with |- context [if ?b then _ else _] => destruct b end;
    rewrite ?length_drop; lia.
Qed.

Lemma strip_www_length s : (length (strip_www s) <= length s)%nat.
Proof.
  unfold strip_www. destruct (startswith _ _); rewrite ?length_drop; lia.
Qed.

Lemma before_length sep s : (length (before sep s) <= length s)%nat.
Proof.
  induction s as [|c s IH]; simpl; [lia|].
  case_bool_decide; simpl; lia.
Qed.

Lemma collapse_length s : (length (collapse_slashes s) <= length s)%nat.
Proof.
  induction s as [|c s IH]; [simpl; lia|].
  simpl. destruct s as [|d s]; [simpl; lia|].
  destruct (_ && _); simpl in *; lia.
Qed.

Lemma lstrip_chars_length chars s :
  (length (lstrip_chars chars s) <= length s)%nat.
Proof.
  induction s as [|c s IH]; simpl; [lia|].
  destruct (char_in c chars); simpl; lia.
Qed.

Lemma rstrip_chars_length chars s :
  (length (rstrip_chars chars s) <= length s)%nat.
Proof.
  unfold rstrip_chars. rewrite length_rev.
  pose proof (lstrip_chars_length chars (rev s)) as H.
  rewrite length_rev in H. exact H.
Qed.

Lemma startswith_length p : forall s,
  startswith p s = true -> (length p <= length s)%nat.
Proof.
  induction p as [|c p IH]; intros s H; [simpl; lia|].
  destruct s as [|d s]; [discriminate|]. simpl in *.
  apply andb_true_iff in H as [_ H]. specialize (IH s H). lia.
Qed.

Lemma span_fst_length p s : (length (fst (span p s)) <= length s)%nat.
Proof.
  induction s as [|c s IH]; simpl; [lia|].
  destruct (p c); [|simpl; lia].
  destruct (span p s) as [a b]. simpl in *. lia.
Qed.

Lemma slug_search_length marker url slug :
  slug_search marker url = Some slug ->
  (length marker + length slug <= length url)%nat.
Proof.
  assert (Hhere : forall u,
            (if startswith marker u
             then match fst (span not_slash (drop (length marker) u)) with
                  | [] => None
                  | c :: l => Some (c :: l)
                  end
             else None) = Some slug ->
            (length marker + length slug <= length u)%nat).
  { intros u H. destruct (startswith marker u) eqn:Hs; [|discriminate].
    apply startswith_length in Hs.
    pose proof (span_fst_length not_slash (drop (length marker) u)) as Hl.
    rewrite length_drop in Hl.
    destruct (fst (span not_slash (drop (length marker) u))); [discriminate|].
    injection H as <-. lia. }
  induction url as [|c url IH]; simpl.
  - intros H. apply (Hhere []).
    destruct (if startswith marker [] then _ else _); [exact H | discriminate].
  - destruct (if startswith marker (c :: url) then _ else _) as [s|] eqn:Hm.
    + intros [= <-]. apply (Hhere (c :: url)), Hm.
    + intros H. specialize (IH H). simpl. lia.
Qed.

(** The result is never longer than the stripped input. *)
Lemma normalize_length v url_type :
  (length (normalize_linkedin_url (VStr v) url_type) <= length (strip v))%nat.
Proof.
  unfold normalize_linkedin_url.
  destruct (negb (truthy (VStr v))); [simpl; lia|]. cbn [py_str].
  set (u2 := strip_www (strip_scheme (lower (strip v)))).
  assert (H2 : (length u2 <= length (strip v))%nat).
  { subst u2. pose proof (strip_www_length (strip_scheme (lower (strip v)))).
    pose proof (strip_scheme_length (lower (strip v))).
    unfold lower in *. rewrite length_map in *. lia. }
  destruct (negb (startswith _ u2)); [simpl; lia|].
  set (u5 := rstrip_chars (str "/") (collapse_slashes (before "#" (before "?" u2)))).
  assert (H5 : (length u5 <= length u2)%nat).
  { subst u5.
    pose proof (rstrip_chars_length (str "/")
                  (collapse_slashes (before "#" (before "?" u2)))).
    pose proof (collapse_length (before "#" (before "?" u2))).
    pose proof (before_length "#" (before "?" u2)).
    pose proof (before_length "?" u2). lia. }
  repeat case_bool_decide;
    try (destruct (slug_search _ u5) as [slug|] eqn:Hs;
         [apply slug_search_length in Hs; rewrite length_app;
          change (length (str "linkedin.com/in/")) with 16%nat in *;
          change (length (str "linkedin.com/company/")) with 21%nat in *; lia|]);
    simpl; lia.
Qed.

Lemma normalize_not_fixed y url_type :
  ends_in_space y = true -> normalize_linkedin_url (VStr y) url_type <> y.
Proof.
  intros H Heq. pose proof (normalize_length y url_type) as Hl.
  pose proof (strip_shorter y H). rewrite Heq in Hl. lia.
Qed.

(** What the code does on its own results: normalizing a second time
    changes nothing exactly when the first result does not end in a
    whitespace character (a slug cut at a slash may end in one, and a second
    pass strips it). *)
Lemma normalize_linkedin_url_fixed_point (x url_type : text) :
  let y := normalize_linkedin_url (VStr x) url_type in
  normalize_linkedin_url (VStr y) url_type = y <-> ends_in_space y = false.
Proof.
  intros y. split.
  - intros Heq. destruct (ends_in_space y) eqn:Hsp; [|reflexivity].
    exfalso. exact (normalize_not_fixed y url_type Hsp Heq).
  - intros Hsp. subst y.
    destruct (normalize_forms (VStr x) url_type)
      as [->|(marker & slug & Hy & Hm & Hslug)]; [reflexivity|].
    rewrite Hy in *. apply normalize_canonical; [exact Hm | exact Hslug|].
    unfold ends_in_space in *. destruct Hslug as [Hne _].
    rewrite last_app_nonempty in Hsp by exact Hne. exact Hsp.
Qed.

(** C2: the function is documented to normalize a URL to its canonical
    form, and it guards against hosts other than [linkedin.com]; the code
    misses both at these inputs.  A slug followed by a space and a slash is
    normalized to a text that ends in the space, which a second pass
    shortens, so the first result is not canonical and the function is not
    idempotent.  A URL whose host is [linkedin.com.evil.com] passes the
    guard, which only tests how the URL begins, and is normalized to a
    profile of [linkedin.com]. *)
Theorem normalize_linkedin_url_failing_inputs :
  (normalize_linkedin_url (VStr (str "linkedin.com/in/abc /x")) (str "profile")
   = str "linkedin.com/in/abc "
   /\ normalize_linkedin_url (VStr (str "linkedin.com/in/abc ")) (str "profile")
      = str "linkedin.com/in/abc"
   /\ normalize_linkedin_url
        (VStr (normalize_linkedin_url (VStr (str "linkedin.com/in/abc /x"))
                                      (str "profile"))) (str "profile")
      <> normalize_linkedin_url (VStr (str "linkedin.com/in/abc /x"))
                                (str "profile"))
  /\ (host_of (str "https://linkedin.com.evil.com/linkedin.com/in/bob")
      = str "linkedin.com.evil.com"
      /\ host_of (str "https://linkedin.com.evil.com/linkedin.com/in/bob")
         <> str "linkedin.com"
      /\ normalize_linkedin_url
           (VStr (str "https://linkedin.com.evil.com/linkedin.com/in/bob"))
           (str "profile")
         = str "linkedin.com/in/bob").
Proof.
  repeat split; try (vm_compute; reflexivity); vm_compute; discriminate.
Qed.

(** ** Employee brackets and the size adjustment *)

Lemma valid_counts_cases (P : text -> Prop) :
  P (str "0-1") -> P (str "2-10") -> P (str "11-50") -> P (str "51-200") ->
  P (str "201-500") -> P (str "501-1,000") -> P (str "1,001-5,000") ->
  P (str "5,001-10,000") -> P (str "10,001+") ->
  forall s, s ∈ VALID_EMPLOYEE_COUNTS -> P s.
Proof.
  intros H1 H2 H3 H4 H5 H6 H7 H8 H9 s Hs. cbn in Hs.
  repeat (apply elem_of_cons in Hs as [->|Hs]); try assumption.
  apply elem_of_nil in Hs. tauto.
Qed.

Ltac parse_values :=
  repeat match goal with
         | |- context [parse_employee_count (str ?t)] =>
             let v := eval vm_compute in (parse_employee_count (str t)) in
             change (parse_employee_count (str t)) with v
         end;
  cbn [fst snd].

Ltac bracket n s :=
  exists (str s); split; [apply mem_spec; vm_compute; reflexivity|];
  split; [parse_values; lia|];
  apply (valid_counts_cases
           (fun s' => fst (parse_employee_count s') <= n
                      <= snd (parse_employee_count s') -> s' = str s));
  parse_values; intros; first [reflexivity | lia].

(** X1: The nine brackets are exactly the strings that [parse_employee_count]
    knows; each is a range [min <= max]; and every head count from 0 to
    100,000 lies in one bracket and in no other. *)
Theorem parse_employee_count_brackets :
  (forall s, s ∈ VALID_EMPLOYEE_COUNTS <-> parse_employee_count s <> (0, 0))
  /\ (forall s, s ∈ VALID_EMPLOYEE_COUNTS ->
        0 <= fst (parse_employee_count s) <= snd (parse_employee_count s))
  /\ (forall n, 0 <= n <= 100000 ->
        exists s, s ∈ VALID_EMPLOYEE_COUNTS
          /\ fst (parse_employee_count s) <= n <= snd (parse_employee_count s)
          /\ forall s', s' ∈ VALID_EMPLOYEE_COUNTS ->
               fst (parse_employee_count s') <= n <= snd (parse_employee_count s') ->
               s' = s).
Proof.
  split; [|split].
  - intros s. split.
    + revert s. apply valid_counts_cases; vm_compute; discriminate.
    + unfold parse_employee_count.
      repeat match goal with
             | |- context [bool_decide (s = ?t)] =>
                 destruct (bool_decide_reflect (s = t)) as [->|?];
                 [intros _; apply mem_spec; vm_compute; reflexivity|]
             end.
      intros H. exfalso. apply H. reflexivity.
  - apply valid_counts_cases; vm_compute; split; discriminate.
  - intros n Hn.
    assert (n <= 1 \/ 2 <= n <= 10 \/ 11 <= n <= 50 \/ 51 <= n <= 200
            \/ 201 <= n <= 500 \/ 501 <= n <= 1000 \/ 1001 <= n <= 5000
            \/ 5001 <= n <= 10000 \/ 10001 <= n) as Hcase by lia.
    destruct Hcase as [H|[H|[H|[H|[H|[H|[H|[H|H]]]]]]]].
    + bracket n "0-1".
    + bracket n "2-10".
    + bracket n "11-50".
    + bracket n "51-200".
    + bracket n "201-500".
    + bracket n "501-1,000".
    + bracket n "1,001-5,000".
    + bracket n "5,001-10,000".
    + bracket n "10,001+".
Qed.

Lemma parse_employee_count_brackets_witness :
  str "11-50" ∈ VALID_EMPLOYEE_COUNTS
  /\ exists s, s ∈ VALID_EMPLOYEE_COUNTS
       /\ fst (parse_employee_count s) <= 37 <= snd (parse_employee_count s).
Proof.
  split.
  - apply (proj1 parse_employee_count_brackets (str "11-50")).
    vm_compute. discriminate.
  - destruct (proj2 (proj2 parse_employee_count_brackets) 37) as (s & Hs & Hn & _).
    + lia.
    + exists s. split; assumption.
Defined.


Lemma size_adjustment_table employee_count city country :
  let adj := fst (calculate_size_adjustment employee_count city country) in
  adj ∈ [50; 20; 0; -10; -15]
  /\ (adj = 50 <->
      (employee_count = VStr (str "0-1") \/ employee_count = VStr (str "2-10"))
      /\ is_major_hub city country = true)
  /\ (adj = 20 <->
      ((employee_count = VStr (str "0-1") \/ employee_count = VStr (str "2-10"))
       /\ is_major_hub city country = false)
      \/ employee_count = VStr (str "11-50"))
  /\ (adj = -10 <->
      employee_count = VStr (str "1,001-5,000")
      \/ employee_count = VStr (str "10,001+"))
  /\ (adj = -15 <-> employee_count = VStr (str "5,001-10,000")).
Proof.
  intros adj. subst adj.
  assert (forall s, s ∉ VALID_EMPLOYEE_COUNTS ->
            valid_count (VStr s) = None) as Hinvalid.
  { intros s Hs. unfold valid_count. destruct (mem s VALID_EMPLOYEE_COUNTS) eqn:Hm.
    - apply mem_spec in Hm. contradiction.
    - reflexivity. }
  destruct employee_count as [|b|n|s].
  1-3: unfold calculate_size_adjustment; simpl;
       repeat match goal with |- context [if ?b then _ else _] => destruct b end;
       simpl; (split; [in_list|]); intuition discriminate.
  destruct (decide (s ∈ VALID_EMPLOYEE_COUNTS)) as [Hs|Hs].
  - pattern s. revert s Hs. apply valid_counts_cases;
      unfold calculate_size_adjustment;
      destruct (is_major_hub city country); vm_compute;
      (split; [in_list|]); intuition (first [discriminate | congruence]).
  - unfold calculate_size_adjustment. rewrite (Hinvalid s Hs).
    assert ((if truthy (VStr s) then None else None) = (None : option text)) as ->
      by (destruct (truthy _); reflexivity).
    cbn [fst]. split; [in_list|].
    intuition (try discriminate;
      exfalso; apply Hs;
      match goal with
      | H : VStr _ = VStr _ |- _ => injection H as ->
      end; apply mem_spec; vm_compute; reflexivity).
Qed.

(** X2: The size adjustment is one of 50, 20, 0, -10 and -15, by this table:
    50 for the brackets 0-1 and 2-10 in a major hub; 20 for the same
    brackets elsewhere and for 11-50; -10 for 1,001-5,000 and for 10,001+;
    -15 for 5,001-10,000 only, so that the largest bracket is penalised
    less than the one below it. *)
Theorem calculate_size_adjustment_values (employee_count city country : value) :
  let adj := fst (calculate_size_adjustment employee_count city country) in
  adj ∈ [50; 20; 0; -10; -15]
  /\ (adj = 50 <->
      (employee_count = VStr (str "0-1") \/ employee_count = VStr (str "2-10"))
      /\ is_major_hub city country = true)
  /\ (adj = 20 <->
      ((employee_count = VStr (str "0-1") \/ employee_count = VStr (str "2-10"))
       /\ is_major_hub city country = false)
      \/ employee_count = VStr (str "11-50"))
  /\ (adj = -10 <->
      employee_count = VStr (str "1,001-5,000")
      \/ employee_count = VStr (str "10,001+"))
  /\ (adj = -15 <-> employee_count = VStr (str "5,001-10,000")).
Proof. exact (size_adjustment_table employee_count city country). Qed.

Lemma calculate_size_adjustment_values_witness :
  fst (calculate_size_adjustment (VStr (str "10,001+")) (VStr (str "Paris"))
         (VStr (str "France"))) = -10
  /\ fst (calculate_size_adjustment (VStr (str "5,001-10,000")) (VStr (str "Paris"))
            (VStr (str "France"))) = -15.
Proof.
  split.
  - apply (calculate_size_adjustment_values (VStr (str "10,001+"))
             (VStr (str "Paris")) (VStr (str "France"))).
    right. reflexivity.
  - apply (calculate_size_adjustment_values (VStr (str "5,001-10,000"))
             (VStr (str "Paris")) (VStr (str "France"))).
    reflexivity.
Defined.

(** X3: The estimated adjustment of the preview is one of -15, -10, 0, 20, 35,
    40 and 50: a bonus never exceeds 50 and a lead never loses more than 15
    points. *)
Theorem preview_score_range (lead : gmap string value) :
  estimated_adjustment (preview_score lead) ∈ [-15; -10; 0; 20; 35; 40; 50]
  /\ -15 <= estimated_adjustment (preview_score lead) <= 50.
Proof.
  assert (estimated_adjustment (preview_score lead)
            ∈ [-15; -10; 0; 20; 35; 40; 50]) as H.
  { unfold preview_score.
    pose proof (check_icp_match_cases (get lead "sub_industry" (VStr []))
                  (get lead "role" (VStr [])) (get lead "country" (VStr []))
                  (get lead "city" (VStr []))) as Hicp.
    pose proof (proj1 (size_adjustment_table (get lead "employee_count" (VStr []))
                  (get lead "city" (VStr [])) (get lead "country" (VStr [])))) as Hsize.
    destruct (calculate_size_adjustment _ _ _) as [size_adj reason_text].
    destruct (check_icp_match _ _ _ _) as [m nm b]. simpl in *.
    destruct Hicp as [[_ ->]|[_ ->]]; cases_in Hsize; vm_compute; in_list. }
  split; [exact H|].
  cases_in H; lia.
Qed.

(** ** Padding, presence and the state rule *)

Lemma elem_of_flat_map {A} (f : A -> list text) (l : list A) (x : text) :
  x ∈ flat_map f l <-> exists y, y ∈ l /\ x ∈ f y.
Proof.
  rewrite list_elem_of_In, in_flat_map. split.
  - intros (y & Hy & Hx). exists y. rewrite !list_elem_of_In. auto.
  - intros (y & Hy & Hx). exists y. rewrite <- !list_elem_of_In. auto.
Qed.

Lemma str_inj (a b : string) : str a = str b -> a = b.
Proof.
  unfold str. intros H.
  rewrite <- (string_of_list_ascii_of_string a),
          <- (string_of_list_ascii_of_string b), H. reflexivity.
Qed.

Lemma lstrip_spaces p s : forallb py_isspace p = true -> lstrip (p ++ s) = lstrip s.
Proof.
  induction p as [|c p IH]; simpl; [reflexivity|].
  intros H. apply andb_true_iff in H as [-> H]. auto.
Qed.

Lemma lstrip_app s q :
  lstrip (s ++ q) = match lstrip s with [] => lstrip q | _ => lstrip s ++ q end.
Proof.
  induction s as [|c s IH]; simpl.
  - reflexivity.
  - destruct (py_isspace c); [exact IH | reflexivity].
Qed.

Lemma lstrip_all_spaces q : forallb py_isspace q = true -> lstrip q = [].
Proof.
  intros H. rewrite <- (app_nil_r q). rewrite lstrip_spaces by exact H. reflexivity.
Qed.

Lemma forallb_rev_text (p : ascii -> bool) (s : text) :
  forallb p (rev s) = forallb p s.
Proof.
  apply eq_true_iff_eq. rewrite !forallb_forall. split; intros H x Hx.
  - apply H, in_rev. rewrite rev_involutive. exact Hx.
  - apply H, in_rev, Hx.
Qed.

Lemma rstrip_spaces s q : forallb py_isspace q = true -> rstrip (s ++ q) = rstrip s.
Proof.
  intros H. unfold rstrip. rewrite rev_app_distr, lstrip_spaces; [reflexivity|].
  rewrite forallb_rev_text. exact H.
Qed.

(** Whitespace around a text does not change what [strip] returns. *)
Lemma strip_padded p s q :
  forallb py_isspace p = true -> forallb py_isspace q = true ->
  strip (p ++ s ++ q) = strip s.
Proof.
  intros Hp Hq. unfold strip. rewrite lstrip_spaces by exact Hp.
  rewrite lstrip_app. destruct (lstrip s) as [|c t] eqn:Hs.
  - rewrite lstrip_all_spaces by exact Hq. reflexivity.
  - rewrite <- Hs. apply rstrip_spaces, Hq.
Qed.

Lemma strip_empty_spaces s : strip s = [] -> forallb py_isspace s = true.
Proof.
  intros H. destruct (strip_split s) as (p & q & Hs & Hp & Hq).
  rewrite H in Hs. rewrite Hs. simpl. apply forallb_app_true. auto.
Qed.

Lemma valid_count_stripped s : s ∈ VALID_EMPLOYEE_COUNTS -> strip s = s /\ s <> [].
Proof.
  revert s. apply valid_counts_cases; split; first [reflexivity | discriminate].
Qed.

(** X4: [validate_employee_count] strips its argument and the size adjustment
    does not: a bracket written with whitespace around it is accepted by
    the validator and earns no size adjustment, while the bare bracket
    always has a reason other than [no_employee_count]. *)
Theorem employee_count_padding (s p q : text) (city country : value) :
  s ∈ VALID_EMPLOYEE_COUNTS ->
  forallb py_isspace p = true -> forallb py_isspace q = true ->
  p ++ q <> [] ->
  validate_employee_count (VStr (p ++ s ++ q)) = []
  /\ calculate_size_adjustment (VStr (p ++ s ++ q)) city country
     = (0, str "no_employee_count")
  /\ snd (calculate_size_adjustment (VStr s) city country)
     <> str "no_employee_count".
Proof.
  intros Hs Hp Hq Hpq.
  destruct (valid_count_stripped s Hs) as [Hstrip Hne].
  assert (strip (p ++ s ++ q) = s) as Hpad
    by (rewrite strip_padded by assumption; exact Hstrip).
  assert (p ++ s ++ q ∉ VALID_EMPLOYEE_COUNTS) as Hout.
  { intros Hin. apply valid_count_stripped in Hin as [Hfix _].
    rewrite Hpad in Hfix. apply Hpq.
    apply (f_equal (@length ascii)) in Hfix. rewrite !length_app in Hfix.
    destruct p, q; simpl in *; try reflexivity; lia. }
  repeat split.
  - unfold validate_employee_count.
    assert (truthy (VStr (p ++ s ++ q)) = true) as ->.
    { destruct p; [|reflexivity]. destruct s; [congruence | reflexivity]. }
    cbn [negb py_str]. rewrite Hpad.
    rewrite (proj2 (mem_spec s VALID_EMPLOYEE_COUNTS) Hs). reflexivity.
  - unfold calculate_size_adjustment, valid_count.
    destruct (mem (p ++ s ++ q) VALID_EMPLOYEE_COUNTS) eqn:Hm.
    + apply mem_spec in Hm. contradiction.
    + destruct (truthy _); reflexivity.
  - pattern s. revert s Hs Hstrip Hne Hpad Hout.
    apply (valid_counts_cases
             (fun s => strip s = s -> s <> [] -> strip (p ++ s ++ q) = s ->
                       p ++ s ++ q ∉ VALID_EMPLOYEE_COUNTS -> _));
      intros _ _ _ _; unfold calculate_size_adjustment;
      destruct (is_major_hub city country); vm_compute; discriminate.
Qed.

Lemma employee_count_padding_witness :
  validate_employee_count (VStr (str " 2-10")) = []
  /\ calculate_size_adjustment (VStr (str " 2-10")) (VStr (str "Berlin"))
       (VStr (str "Germany")) = (0, str "no_employee_count").
Proof.
  destruct (employee_count_padding (str "2-10") (str " ") [] (VStr (str "Berlin"))
              (VStr (str "Germany"))) as (H1 & H2 & _).
  - apply mem_spec. vm_compute. reflexivity.
  - reflexivity.
  - reflexivity.
  - discriminate.
  - split; [exact H1 | exact H2].
Defined.

(** ** Required fields *)

Lemma dec_Z_visible n : exists c s, dec_Z n = c :: s /\ py_isspace c = false.
Proof.
  unfold dec_Z. destruct (Z.to_int n) as [d|d]; destruct d; simpl; eauto.
Qed.

Lemma strip_visible c s : py_isspace c = false -> strip (c :: s) <> [].
Proof.
  intros Hc H. apply strip_empty_spaces in H. simpl in H.
  rewrite Hc in H. discriminate.
Qed.

Lemma missing_code_inj f g : missing_code f = missing_code g -> f = g.
Proof.
  unfold missing_code. intros H. apply app_inv_head in H. apply str_inj, H.
Qed.

Lemma elem_of_required_codes lead x :
  x ∈ flat_map (fun f => when (field_missing lead f) (str "missing_field:" ++ str f))
               REQUIRED_FIELDS
  <-> exists f, f ∈ REQUIRED_FIELDS /\ field_missing lead f = true
                /\ x = missing_code f.
Proof.
  rewrite elem_of_flat_map. split.
  - intros (f & Hf & Hx). apply elem_of_when in Hx as [Hm ->]. eauto.
  - intros (f & Hf & Hm & ->). exists f. split; [exact Hf|].
    apply elem_of_when. auto.
Qed.

(** X5: For a required field, [missing_field:<field>] is reported exactly when
    the key is absent or [str(value).strip()] is empty.  The test is made
    on the string form of the value, so a JSON null (whose string form is
    [None]), a boolean or a number counts as present. *)
Theorem required_field_presence (lead : gmap string value) (f : string) :
  f ∈ REQUIRED_FIELDS ->
  (missing_code f ∈ validate_required_fields lead
   <-> lead !! f = None
       \/ exists s, lead !! f = Some (VStr s) /\ forallb py_isspace s = true)
  /\ (forall v, lead !! f = Some v ->
        v = VNone \/ (exists b, v = VBool b) \/ (exists n, v = VInt n) ->
        missing_code f ∉ validate_required_fields lead).
Proof.
  intros Hf.
  assert (missing_code f ∈ validate_required_fields lead
          <-> field_missing lead f = true) as Hiff.
  { unfold validate_required_fields. cbv zeta.
    rewrite elem_of_app, elem_of_required_codes, elem_of_when. split.
    - intros [(g & Hg & Hm & Heq)|[_ Heq]].
      + apply missing_code_inj in Heq as ->. exact Hm.
      + apply (missing_code_inj f "state (required for US leads)") in Heq.
        subst f. exfalso. revert Hf.
        apply (bool_decide_unpack _). vm_compute. exact I.
    - intros Hm. left. eauto. }
  assert (forall v, lead !! f = Some v ->
            v = VNone \/ (exists b, v = VBool b) \/ (exists n, v = VInt n) ->
            field_missing lead f = false) as Hpresent.
  { intros v Hv Hcase. unfold field_missing. rewrite Hv.
    apply is_empty_false.
    destruct Hcase as [->|[[[] ->]|[n ->]]]; simpl py_str.
    - apply (strip_visible "N"). reflexivity.
    - apply (strip_visible "T"). reflexivity.
    - apply (strip_visible "F"). reflexivity.
    - destruct (dec_Z_visible n) as (c & s & -> & Hc). apply strip_visible, Hc. }
  split.
  - rewrite Hiff. unfold field_missing. split.
    + unfold field_missing in Hpresent.
      destruct (lead !! f) as [v|] eqn:Hv; [|auto].
      intros He. right.
      pose proof (Hpresent v eq_refl) as Hp. cbv beta iota in Hp.
      destruct v as [|b|n|s].
      1-3: rewrite Hp in He by eauto; discriminate.
      exists s. split; [reflexivity|].
      apply strip_empty_spaces, is_empty_spec, He.
    + intros [->|(s & -> & Hs)]; [reflexivity|].
      simpl py_str. apply is_empty_spec.
      rewrite <- (app_nil_r s), <- (app_nil_l (s ++ [])).
      rewrite (strip_padded [] s [] eq_refl eq_refl).
      unfold strip. rewrite lstrip_all_spaces by exact Hs. reflexivity.
  - intros v Hv Hcase Hin. apply Hiff in Hin.
    rewrite (Hpresent v Hv Hcase) in Hin. discriminate.
Qed.

Lemma required_field_presence_witness :
  missing_code "role" ∈ validate_required_fields lead_null_email
  /\ (missing_code "email" ∉ validate_required_fields lead_null_email).
Proof.
  split.
  - apply (required_field_presence lead_null_email "role").
    + apply (bool_decide_unpack _). vm_compute. exact I.
    + right. exists (str "  "). split; reflexivity.
  - destruct (required_field_presence lead_null_email "email") as [_ H].
    + apply (bool_decide_unpack _). vm_compute. exact I.
    + apply (H VNone); [reflexivity | left; reflexivity].
Defined.

(** X6: The state is required when the lower-cased country contains one of the
    aliases of the United States as a substring and the state is absent,
    false or blank.  The alias [us] makes this a test on two letters: a
    lead without a state whose country merely contains [us] (Australia,
    Russia, Cyprus) is asked for a state. *)
Theorem us_state_rule (lead : gmap string value) :
  let country := lower (py_str (get lead "country" (VStr []))) in
  let state := get_none lead "state" in
  (state_code ∈ validate_required_fields lead
   <-> (exists alias, alias ∈ US_COUNTRY_ALIASES /\ contains alias country = true)
       /\ (truthy state = false \/ forallb py_isspace (py_str state) = true))
  /\ (contains (str "us") country = true -> lead !! "state" = None ->
      state_code ∈ validate_required_fields lead).
Proof.
  intros country state.
  assert (state_code ∈ validate_required_fields lead
   <-> (exists alias, alias ∈ US_COUNTRY_ALIASES /\ contains alias country = true)
       /\ (truthy state = false \/ forallb py_isspace (py_str state) = true))
    as Hiff.
  { unfold validate_required_fields. cbv zeta. fold country. fold state.
    rewrite elem_of_app, elem_of_required_codes, elem_of_when.
    rewrite andb_true_iff, orb_true_iff, negb_true_iff, existsb_exists.
    split.
    - intros [(g & Hg & _ & Heq)|[[(alias & Hin & Hc) Hs] _]].
      + apply (missing_code_inj "state (required for US leads)" g) in Heq.
        subst g. exfalso. revert Hg.
        apply (bool_decide_unpack _). vm_compute. exact I.
      + split.
        * exists alias. split; [apply list_elem_of_In, Hin | exact Hc].
        * destruct Hs as [Hs|Hs]; [left; exact Hs|right].
          apply strip_empty_spaces, is_empty_spec, Hs.
    - intros [(alias & Hin & Hc) Hs]. right. split; [|reflexivity]. split.
      + exists alias. split; [apply list_elem_of_In, Hin | exact Hc].
      + destruct Hs as [Hs|Hs]; [left; exact Hs|right].
        apply is_empty_spec. unfold strip.
        rewrite lstrip_all_spaces by exact Hs. reflexivity. }
  split; [exact Hiff|].
  intros Hus Hstate. apply Hiff. split.
  - exists (str "us"). split; [in_list | exact Hus].
  - left. unfold state, get_none, get. rewrite Hstate. reflexivity.
Qed.

Lemma us_state_rule_witness :
  state_code ∈ validate_required_fields lead_australia.
Proof.
  apply (us_state_rule lead_australia); reflexivity.
Defined.

(** ** The licence hash of a resale lead *)

Lemma lstrip_head s :
  match lstrip s with c :: _ => py_isspace c = false | [] => True end.
Proof.
  induction s as [|c s IH]; simpl; [exact I|].
  destruct (py_isspace c) eqn:Hc; [exact IH | exact Hc].
Qed.

Lemma rstrip_no_trailing s : ends_in_space (rstrip s) = false.
Proof.
  unfold rstrip, ends_in_space. pose proof (lstrip_head (rev s)) as H.
  destruct (lstrip (rev s)) as [|c t]; [reflexivity|].
  simpl. rewrite last_snoc. exact H.
Qed.

Lemma strip_no_trailing s : ends_in_space (strip s) = false.
Proof. apply rstrip_no_trailing. Qed.

Lemma strip_idem s : strip (strip s) = strip s.
Proof.
  destruct (strip_split s) as (p & q & Hs & Hp & Hq).
  rewrite Hs at 2. rewrite strip_padded by assumption. reflexivity.
Qed.

(** After [strip] the pattern [^[a-fA-F0-9]{64}$] accepts the texts of 64
    hexadecimal digits and no others: the newline that [$] tolerates at the
    end has been stripped. *)
Lemma is_sha256_hex_stripped h :
  ends_in_space h = false ->
  (is_sha256_hex h = true <-> length h = 64%nat /\ forallb is_hex h = true).
Proof.
  intros Hend. unfold is_sha256_hex.
  rewrite !andb_true_iff, Nat.eqb_eq. split.
  - intros [[Hhex Hlen] Hat].
    assert (drop 64 h = []) as Hdrop.
    { destruct (drop 64 h) as [|c [|d t]] eqn:Hd; [reflexivity| |discriminate].
      exfalso. simpl in Hat. apply N.eqb_eq in Hat.
      rewrite <- (take_drop 64 h), Hd in Hend.
      unfold ends_in_space in Hend. rewrite last_snoc in Hend.
      unfold py_isspace, in_range in Hend. rewrite Hat in Hend. discriminate. }
    rewrite <- (take_drop 64 h), Hdrop, app_nil_r. auto.
  - intros [Hlen Hhex].
    rewrite take_ge, drop_ge by lia. auto.
Qed.

Lemma license_code_not_before lead x :
  x = license_missing_code \/ x = license_format_code ->
  let source_url := strip (py_str (get lead "source_url" (VStr []))) in
  let source_type := strip (py_str (get lead "source_type" (VStr []))) in
  (x ∉ (if is_empty source_url
        then [str "missing_field:source_url"]
        else first_code (fun restricted => contains restricted (lower source_url))
                        RESTRICTED_SOURCES
                        (fun restricted => str "restricted_source:" ++ restricted)))
  /\ (x ∉ (if is_empty source_type
           then [str "missing_field:source_type"]
           else when (negb (mem source_type VALID_SOURCE_TYPES))
                  (str "source_type_invalid:" ++ source_type ++ str " (valid: "
                   ++ join (str ", ") VALID_SOURCE_TYPES ++ str ")"))).
Proof.
  intros Hx source_url source_type. split; intros Hin.
  - destruct (is_empty source_url).
    + apply list_elem_of_singleton in Hin. destruct Hx; subst x; discriminate.
    + apply elem_of_first_code in Hin as (y & _ & Hy).
      destruct Hx; subst x; discriminate.
  - destruct (is_empty source_type).
    + apply list_elem_of_singleton in Hin. destruct Hx; subst x; discriminate.
    + apply elem_of_when in Hin as [_ Hy]. destruct Hx; subst x; discriminate.
Qed.

(** X7: The licence hash is examined only when the stripped source type is
    [licensed_resale].  Then an absent or blank hash is reported as missing,
    and a hash is reported as badly formed unless, once stripped, it
    consists of exactly 64 hexadecimal digits. *)
Theorem license_hash_rule (lead : gmap string value) :
  let source_type := strip (py_str (get lead "source_type" (VStr []))) in
  let license_hash := strip (py_str (get lead "license_doc_hash" (VStr []))) in
  (license_missing_code ∈ validate_source_provenance lead
   <-> source_type = str "licensed_resale" /\ license_hash = [])
  /\ (license_format_code ∈ validate_source_provenance lead
      <-> source_type = str "licensed_resale" /\ license_hash <> []
          /\ ~ (length license_hash = 64%nat /\ forallb is_hex license_hash = true)).
Proof.
  intros source_type license_hash.
  pose proof (license_code_not_before lead license_missing_code
                (or_introl eq_refl)) as [Hm1 Hm2].
  pose proof (license_code_not_before lead license_format_code
                (or_intror eq_refl)) as [Hf1 Hf2].
  pose proof (is_sha256_hex_stripped license_hash (strip_no_trailing _)) as Hhex.
  unfold validate_source_provenance. cbv zeta.
  fold source_type. fold license_hash.
  rewrite !elem_of_app.
  destruct (bool_decide_reflect (source_type = str "licensed_resale")) as [Hst|Hst].
  - destruct (is_empty license_hash) eqn:He.
    + apply is_empty_spec in He. split.
      * split; [auto|]. intros _. right. right. apply list_elem_of_here.
      * split.
        -- intros [H|[H|H]]; [contradiction|contradiction|].
           apply list_elem_of_singleton in H. discriminate.
        -- intros (_ & Hne & _). contradiction.
    + apply is_empty_false in He. split.
      * split.
        -- intros [H|[H|H]]; [contradiction|contradiction|].
           apply elem_of_when in H as [_ H]. discriminate.
        -- intros [_ H]. contradiction.
      * rewrite elem_of_when, negb_true_iff. split.
        -- intros [H|[H|[H _]]]; [contradiction|contradiction|].
           split; [exact Hst|]. split; [exact He|].
           intros Hok. apply Hhex in Hok. congruence.
        -- intros (_ & _ & Hbad). right. right. split; [|reflexivity].
           destruct (is_sha256_hex license_hash); [|reflexivity].
           exfalso. apply Hbad, Hhex. reflexivity.
  - split; (split; [intros [H|[H|H]];
                    [contradiction|contradiction|apply elem_of_nil in H; tauto]
                   | intros [H _]; contradiction]).
Qed.

Lemma license_hash_rule_witness :
  license_format_code ∈ validate_source_provenance lead_short_license.
Proof.
  apply (license_hash_rule lead_short_license).
  split; [reflexivity|]. split; [discriminate|].
  intros [H _]. vm_compute in H. discriminate.
Defined.

(** ** The role validator at its edges *)

Lemma set_order_nil order : set_order_ok order -> order [] = [].
Proof.
  intros H. destruct (H []) as [_ Hel].
  destruct (order []) as [|x l]; [reflexivity|].
  exfalso. apply (elem_of_nil x), Hel, list_elem_of_here.
Qed.

Lemma strip_blank s : forallb py_isspace s = true -> strip s = [].
Proof.
  intros H. unfold strip. rewrite lstrip_all_spaces by exact H. reflexivity.
Qed.

(** X8: A role that is not empty but consists of whitespace is not reported as
    [role_empty]: it passes the emptiness test, is stripped to the empty
    text, and receives exactly the three codes [role_too_short],
    [role_no_letters] and [role_too_few_letters]. *)
Theorem validate_role_blank (order : list text -> list text) (s : text) :
  set_order_ok order ->
  s <> [] -> forallb py_isspace s = true ->
  validate_role order (VStr s) = blank_role_codes.
Proof.
  intros Horder Hne Hs.
  unfold validate_role.
  assert (truthy (VStr s) = true) as -> by (destruct s; [congruence|reflexivity]).
  cbv beta iota zeta delta [negb py_str].
  rewrite (strip_blank s Hs).
  change (split_ws (lower [])) with (@nil text).
  rewrite (set_order_nil order Horder).
  vm_compute. reflexivity.
Qed.

Lemma validate_role_blank_witness :
  validate_role set_iter_first (VStr (str "   ")) = blank_role_codes.
Proof.
  apply (validate_role_blank set_iter_first (str "   ")).
  - exact set_iter_first_ok.
  - discriminate.
  - reflexivity.
Defined.

Lemma split_on_aux_Forall (Q : ascii -> Prop) sep s : forall cur,
  Forall Q cur -> Forall (fun c => c = sep \/ Q c) s ->
  Forall (Forall Q) (split_on_aux sep cur s).
Proof.
  induction s as [|c s IH]; intros cur Hcur Hs; simpl.
  - constructor; [|constructor]. apply Forall_rev_text, Hcur.
  - apply Forall_cons in Hs as [Hc Hs].
    destruct (bool_decide_reflect (c = sep)) as [->|Hne].
    + constructor; [apply Forall_rev_text, Hcur|]. apply IH; [constructor | exact Hs].
    + apply IH; [|exact Hs]. constructor; [|exact Hcur].
      destruct Hc as [Hc|Hc]; [contradiction | exact Hc].
Qed.

Lemma split_on_aux_nonempty sep s : forall cur,
  (1 <= length (split_on_aux sep cur s))%nat.
Proof.
  induction s as [|c s IH]; intros cur; simpl; [lia|].
  destruct (bool_decide (c = sep)); simpl; [lia | apply IH].
Qed.

Lemma split_on_aux_length sep s : forall cur,
  char_in sep s = true -> (2 <= length (split_on_aux sep cur s))%nat.
Proof.
  induction s as [|c s IH]; intros cur H; simpl in *; [discriminate|].
  destruct (bool_decide_reflect (c = sep)) as [->|Hne].
  - simpl. pose proof (split_on_aux_nonempty sep s []). lia.
  - destruct (bool_decide_reflect (sep = c)) as [->|_]; [contradiction|].
    apply IH, H.
Qed.

(** X9: Check 28 asks that every non-empty part between pipes has a job
    keyword, and a role without such a part satisfies it: a role that
    contains a pipe and otherwise only whitespace and pipes is reported as
    [role_pipe_stuffing]. *)
Theorem role_pipe_blank_parts (order : list text -> list text) (role : value) :
  truthy role = true ->
  char_in "|" (strip (py_str role)) = true ->
  Forall (fun c => c = "|"%char \/ py_isspace c = true) (strip (py_str role)) ->
  str "role_pipe_stuffing" ∈ validate_role order role.
Proof.
  intros Ht Hpipe Hall.
  unfold validate_role. rewrite Ht. cbv beta iota zeta delta [negb].
  do 28 skip_check.
  apply elem_of_when. split; [|reflexivity].
  rewrite Hpipe. cbn [andb].
  apply andb_true_iff. split.
  - apply Nat.leb_le. rewrite length_map.
    apply split_on_aux_length, Hpipe.
  - match goal with
    | |- forallb _ (List.filter ?f ?l) = true =>
        assert (List.filter f l = []) as ->; [|reflexivity]
    end.
    pose proof (split_on_aux_Forall (fun c => py_isspace c = true) "|"
                  (strip (py_str role)) [] (List.Forall_nil _) Hall) as Hparts.
    fold (split_on "|" (strip (py_str role))) in Hparts.
    induction Hparts as [|p ps Hp _ IH]; [reflexivity|].
    assert (strip p = []) as Hblank.
    { apply strip_blank, forallb_forall. intros c Hc.
      rewrite Forall_forall in Hp. apply Hp, list_elem_of_In, Hc. }
    simpl. rewrite Hblank. simpl. exact IH.
Qed.

Lemma role_pipe_blank_parts_witness :
  str "role_pipe_stuffing" ∈ validate_role set_iter_first (VStr (str "| |")).
Proof.
  apply (role_pipe_blank_parts set_iter_first (VStr (str "| |"))).
  - reflexivity.
  - reflexivity.
  - repeat first [ apply List.Forall_nil
                 | apply List.Forall_cons;
                   [first [left; reflexivity | right; reflexivity]|] ].
Defined.

(** Every code of the role validator begins with [role_]. *)
Lemma validate_role_codes (order : list text -> list text) (role : value)
    (x : text) :
  x ∈ validate_role order role -> startswith (str "role_") x = true.
Proof.
  unfold validate_role. destruct (truthy role);
    cbv beta iota zeta delta [negb]; intros H.
  2:{ apply list_elem_of_singleton in H as ->. reflexivity. }
  repeat (apply elem_of_app in H as [H|H]);
    first [ apply elem_of_when in H as [_ ->]; reflexivity
          | apply elem_of_first_code in H as (? & _ & ->); reflexivity
          | apply elem_of_role_typos in H as (? & ? & ? & _ & _ & ->); reflexivity
          | apply elem_of_nil in H; destruct H ].
Qed.


(** ** Short descriptions *)

Lemma count_chars_le p s : (count_chars p s <= length s)%nat.
Proof. unfold count_chars. apply length_filter. Qed.

(** X10: The only warning of the description validator is [desc_short], given
    to a non-empty description of fewer than 70 characters once stripped.
    The warning makes no difference below 50 characters: such a
    description cannot hold 50 letters, so it always has the blocking code
    [desc_too_few_letters]. *)
Theorem description_short_warning (description : value) :
  let d := strip (py_str description) in
  (forall x, x ∈ snd (validate_description description)
     <-> truthy description = true /\ (length d < 70)%nat
         /\ x = desc_short_code (length d))
  /\ (truthy description = true -> (length d < 50)%nat ->
      exists n, (n < 50)%nat
        /\ desc_letters_code n ∈ fst (validate_description description)).
Proof.
  intros d. unfold validate_description.
  destruct (truthy description) eqn:Ht; cbv beta iota zeta delta [negb].
  2:{ split.
      - intros x. cbn [snd]. rewrite elem_of_nil. split; [tauto|].
        intros [? _]. discriminate.
      - intros ?. discriminate. }
  fold d. cbn [fst snd]. split.
  - intros x. fold (desc_short_code (length d)).
    rewrite elem_of_when, Nat.ltb_lt. tauto.
  - intros _ Hlen. exists (count_chars py_isalpha d).
    pose proof (count_chars_le py_isalpha d) as Hle.
    split; [lia|].
    do 2 skip_check. this_check.
    apply elem_of_when. split; [|reflexivity].
    apply Nat.ltb_lt. lia.
Qed.

Lemma description_short_warning_witness :
  exists n, (n < 50)%nat
    /\ desc_letters_code n
       ∈ fst (validate_description (VStr (str "We build software for small teams."))).
Proof.
  apply (description_short_warning (VStr (str "We build software for small teams.")));
    [reflexivity | vm_compute; lia].
Defined.

(** ** The two email patterns *)

Lemma cp_eq c n : N.eqb (cp c) n = true -> c = chr n.
Proof.
  intros H. apply N.eqb_eq in H. unfold cp in H. unfold chr.
  rewrite <- H. symmetry. apply ascii_N_embedding.
Qed.

Lemma span_wider (p q : ascii -> bool) s :
  (forall c, p c = true -> q c = true) ->
  match snd (span p s) with c :: _ => q c = false | [] => True end ->
  span q s = span p s.
Proof.
  intros Hpq. induction s as [|c s IH]; simpl; [reflexivity|].
  destruct (p c) eqn:Hp.
  - rewrite (Hpq c Hp). destruct (span p s) as [a b] eqn:Hs. simpl.
    intros H. rewrite (IH H). reflexivity.
  - simpl. intros ->. reflexivity.
Qed.

Lemma email_local_wider c : is_email_local c = true -> is_email_local_u c = true.
Proof.
  unfold is_email_local, is_email_local_u, re_word, py_isalnum, py_isalpha,
    py_isdecimal.
  destruct (is_azAZ c), (is_09 c), (char_in c (str "._%+-")); simpl;
    try discriminate; rewrite ?orb_true_r; reflexivity.
Qed.

Lemma email_domain_wider c : is_email_domain c = true -> is_email_domain_u c = true.
Proof.
  unfold is_email_domain, is_email_domain_u, re_word, py_isalnum, py_isalpha,
    py_isdecimal.
  destruct (is_azAZ c), (is_09 c), (char_in c (str ".-")); simpl;
    try discriminate; rewrite ?orb_true_r; reflexivity.
Qed.

(** Every text accepted by the ASCII pattern is accepted by the Unicode
    pattern, so the first test adds nothing to the second. *)
Lemma email_ascii_unicode s :
  email_full is_email_local is_email_domain s = true ->
  email_full is_email_local_u is_email_domain_u s = true.
Proof.
  unfold email_full.
  destruct (span is_email_local s) as [loc rest] eqn:Hloc.
  destruct loc as [|l0 loc]; [discriminate|].
  destruct rest as [|c rest']; [discriminate|].
  intros H. apply andb_true_iff in H as [Hat H].
  assert (span is_email_local_u s = (l0 :: loc, c :: rest')) as ->.
  { rewrite <- Hloc. apply span_wider; [exact email_local_wider|].
    rewrite Hloc. simpl. apply cp_eq in Hat. subst c. reflexivity. }
  rewrite Hat. cbn [andb].
  destruct (span is_email_domain rest') as [dom tl] eqn:Hdom.
  assert (span is_email_domain_u rest' = (dom, tl)) as ->; [|exact H].
  rewrite <- Hdom. apply span_wider; [exact email_domain_wider|].
  rewrite Hdom. simpl.
  destruct (span is_azAZ (rev dom)) as [tld_rev before_rev].
  apply andb_true_iff in H as [H _]. apply andb_true_iff in H as [Hend _].
  destruct tl as [|t [|t' tl]]; [exact I| |discriminate].
  simpl in Hend. apply cp_eq in Hend. subst t. reflexivity.
Qed.

Lemma email_code_first (pkg : option (list text)) email first last x :
  truthy email = true ->
  x = str "email_invalid_format" ->
  (x ∈ validate_email pkg email first last
   <-> email_full is_email_local is_email_domain (strip (py_str email))
       || email_full is_email_local_u is_email_domain_u (strip (py_str email))
       = false).
Proof.
  intros Ht ->. unfold validate_email. rewrite Ht.
  cbv beta iota zeta delta [negb].
  rewrite elem_of_app, elem_of_when. split.
  - intros [[H _]|H].
    + destruct (_ || _); [discriminate | reflexivity].
    + exfalso.
      repeat (apply elem_of_app in H as [H|H]);
        first [ apply elem_of_when in H as [_ H]; discriminate
              | apply elem_of_first_code in H as (? & _ & H); discriminate ].
  - intros ->. left. auto.
Qed.

(** X11: [email_invalid_format] is reported for a non-empty email exactly when
    the Unicode pattern rejects it: a local part of word characters and
    [._%+-], an [@], a domain of word characters, dots and hyphens that
    ends in a dot and at least two ASCII letters.  The ASCII pattern that
    the code tries first never decides. *)
Theorem email_format_unicode (pkg : option (list text))
    (email first last : value) :
  truthy email = true ->
  (str "email_invalid_format" ∈ validate_email pkg email first last
   <-> email_full is_email_local_u is_email_domain_u (strip (py_str email)) = false)
  /\ (email_full is_email_local is_email_domain (strip (py_str email)) = true ->
      email_full is_email_local_u is_email_domain_u (strip (py_str email)) = true).
Proof.
  intros Ht. split; [|apply email_ascii_unicode].
  rewrite (email_code_first pkg email first last _ Ht eq_refl).
  pose proof (email_ascii_unicode (strip (py_str email))) as H.
  destruct (email_full is_email_local is_email_domain _);
    destruct (email_full is_email_local_u is_email_domain_u _); simpl in *;
    split; intros; try reflexivity; try discriminate.
  discriminate (H eq_refl).
Qed.

Lemma email_format_unicode_witness :
  str "email_invalid_format"
    ∈ validate_email None (VStr (str "ann.lee@acme")) (VStr (str "Ann"))
        (VStr (str "Lee")).
Proof.
  apply (email_format_unicode None (VStr (str "ann.lee@acme")) (VStr (str "Ann"))
           (VStr (str "Lee"))); reflexivity.
Defined.


(** ** Hubs and customer profiles *)

Lemma contains_nil s : contains [] s = true.
Proof. destruct s; reflexivity. Qed.

Lemma existsb_eq {A} (f g : A -> bool) l :
  (forall x, In x l -> f x = g x) -> existsb f l = existsb g l.
Proof.
  induction l as [|x l IH]; intros H; simpl; [reflexivity|].
  rewrite (H x (or_introl eq_refl)), IH; [reflexivity|].
  intros y Hy. apply H. right. exact Hy.
Qed.

(** X13: The country test of [is_major_hub] accepts a country that contains the
    name of a hub country or is contained in it.  The empty text is
    contained in every name: for a lead without a country a city counts as
    a major hub as soon as it is listed under any country.  A lead without
    a city is never in a hub. *)
Theorem is_major_hub_empty (city country : value) :
  (lower_strip country = [] ->
   is_major_hub city country
   = existsb (fun '(_, hub_cities) => mem (lower_strip city) hub_cities)
             MAJOR_HUBS_BY_COUNTRY)
  /\ (lower_strip city = [] -> is_major_hub city country = false).
Proof.
  unfold is_major_hub. split.
  - intros ->. apply existsb_eq. intros [hub_country hub_cities] _.
    rewrite contains_nil, orb_true_r. reflexivity.
  - intros ->.
    rewrite (existsb_eq _ (fun _ => false)).
    + induction MAJOR_HUBS_BY_COUNTRY; [reflexivity | exact IHl].
    + intros [hub_country hub_cities] Hin.
      assert (mem [] hub_cities = false) as ->; [|apply andb_false_r].
      revert Hin. generalize hub_country hub_cities.
      assert (forallb (fun '(_, cities) => negb (mem [] cities))
                      MAJOR_HUBS_BY_COUNTRY = true) as Hall
        by (vm_compute; reflexivity).
      rewrite forallb_forall in Hall.
      intros c cs Hin. specialize (Hall (c, cs) Hin). simpl in Hall.
      destruct (mem [] cs); [discriminate | reflexivity].
Qed.

Lemma is_major_hub_empty_witness :
  is_major_hub (VStr (str "Dublin")) VNone = true.
Proof.
  rewrite (proj1 (is_major_hub_empty (VStr (str "Dublin")) VNone)).
  - vm_compute. reflexivity.
  - reflexivity.
Defined.

Lemma foldl_last_such {A B} (p : A -> bool) (g : A -> B) (l : list A) : forall a,
  foldl (fun acc x => if p x then g x else acc) a l
  = match last (List.filter p l) with Some x => g x | None => a end.
Proof.
  induction l as [|x l IH]; intros a; [reflexivity|].
  cbn [foldl List.filter]. rewrite IH. destruct (p x); [|reflexivity].
  destruct (List.filter p l) as [|y l'] eqn:Hf; [reflexivity|].
  change (last (x :: y :: l')) with (last (y :: l')).
  destruct (last (y :: l')) eqn:Hl; [reflexivity|].
  apply last_None in Hl. discriminate.
Qed.

Lemma foldl_same {A B} (f g : B -> A -> B) (l : list A) : forall a,
  (forall acc x, f acc x = g acc x) -> foldl f a l = foldl g a l.
Proof.
  induction l as [|x l IH]; intros a H; simpl; [reflexivity|].
  rewrite H. apply IH, H.
Qed.

Lemma expand_role_unfold (role_lower : text) :
  expand_role role_lower
  = match last (expansions_in role_lower) with
    | Some (_, abbr) => role_lower ++ str " " ++ abbr
    | None => role_lower
    end.
Proof.
  unfold expand_role, expansions_in.
  rewrite <- (foldl_last_such (fun '(full, _) => contains full role_lower)
                (fun '(_, abbr) => role_lower ++ str " " ++ abbr)
                role_expansions role_lower).
  apply foldl_same. intros acc [full abbr]. reflexivity.
Qed.

(** X14: The loop over the role expansions overwrites its result at every
    expansion found: the expanded role is the role followed by the
    abbreviation of the last expansion of the table that occurs in the role,
    and the abbreviations of the earlier ones are lost.  The expansion of
    [vice president] is the last of the table, so a role that contains it
    is expanded with [vp] and with nothing else. *)
Theorem expand_role_last (role_lower : text) :
  expand_role role_lower
  = match last (expansions_in role_lower) with
    | Some (_, abbr) => role_lower ++ str " " ++ abbr
    | None => role_lower
    end
  /\ (contains (str "vice president") role_lower = true ->
      expand_role role_lower = role_lower ++ str " vp").
Proof.
  split; [apply expand_role_unfold|].
  intros H. rewrite expand_role_unfold. unfold expansions_in.
  change role_expansions
    with (take 12 role_expansions ++ [(str "vice president", str "vp")]).
  rewrite List.filter_app. cbn [List.filter]. rewrite H.
  rewrite last_snoc. reflexivity.
Qed.

Lemma expand_role_last_witness :
  expand_role (str "chief executive officer and vice president")
  = str "chief executive officer and vice president vp".
Proof.
  apply (expand_role_last (str "chief executive officer and vice president")).
  vm_compute. reflexivity.
Defined.

Lemma find_all_false {A} (p : A -> bool) (l : list A) :
  (forall x, In x l -> p x = false) -> List.find p l = None.
Proof.
  induction l as [|x l IH]; intros H; simpl; [reflexivity|].
  rewrite (H x (or_introl eq_refl)). apply IH. intros y Hy. apply H. right. exact Hy.
Qed.

(** X15: Two edges of the profile match.  A lead without a role matches no
    profile.  A lead without a sub-industry passes the sub-industry test of
    every profile, because the empty text is contained in every name: with
    a role that contains [cto] it matches the first profile and earns the
    bonus of 50. *)
Theorem icp_empty_fields (sub_industry role country city : value) :
  (lower_strip role = [] ->
   check_icp_match sub_industry role country city
   = {| matches := false; match_name := None; bonus := 0 |})
  /\ (lower_strip sub_industry = [] ->
      contains (str "cto") (lower_strip role) = true ->
      check_icp_match sub_industry role country city
      = {| matches := true; match_name := Some (str "Fuel/Energy Operations");
           bonus := 50 |}).
Proof.
  unfold check_icp_match, first_such. split.
  - intros ->. change (expand_role []) with (@nil ascii).
    rewrite find_all_false; [reflexivity|].
    intros icp Hin. unfold icp_applies.
    assert (forallb (fun icp => negb (existsb (fun r => contains r [] || contains r [])
                                              (icp_roles icp)))
                    ICP_DEFINITIONS = true) as Hall by (vm_compute; reflexivity).
    rewrite forallb_forall in Hall. specialize (Hall icp Hin).
    apply negb_true_iff in Hall. rewrite Hall.
    rewrite andb_false_r. reflexivity.
  - intros -> Hrole. unfold ICP_DEFINITIONS.
    match goal with
    | |- context [List.find ?p (?x :: ?l)] =>
        assert (p x = true) as Hx; [|cbn [List.find]; rewrite Hx; reflexivity]
    end.
    unfold icp_applies. cbn [icp_sub_industries icp_roles icp_regions map].
    rewrite andb_true_r. apply andb_true_iff. split.
    + cbn [existsb]. rewrite contains_nil, orb_true_r. reflexivity.
    + apply existsb_exists. exists (str "cto"). split.
      * apply list_elem_of_In. in_list.
      * rewrite Hrole. reflexivity.
Qed.

Lemma icp_empty_fields_witness :
  matches (check_icp_match VNone (VStr (str "Director")) VNone VNone) = true.
Proof.
  rewrite (proj2 (icp_empty_fields VNone (VStr (str "Director")) VNone VNone));
    reflexivity.
Defined.

(** ** Fingerprints *)

Lemma lower_space c : py_isspace (lower_char c) = py_isspace c.
Proof. destruct c as [[] [] [] [] [] [] [] []]; reflexivity. Qed.

Lemma lower_app a b : lower (a ++ b) = lower a ++ lower b.
Proof. apply map_app. Qed.

Lemma lower_idem s : lower (lower s) = lower s.
Proof. apply lower_fixed, Forall_lower. Qed.

Lemma lower_lstrip s : lower (lstrip s) = lstrip (lower s).
Proof.
  induction s as [|c s IH]; simpl; [reflexivity|].
  rewrite lower_space. destruct (py_isspace c); [exact IH | reflexivity].
Qed.

Lemma lower_rev s : lower (rev s) = rev (lower s).
Proof. apply map_rev. Qed.

Lemma lower_strip_comm s : lower (strip s) = strip (lower s).
Proof.
  unfold strip, rstrip.
  rewrite lower_rev, lower_lstrip, lower_rev, lower_lstrip. reflexivity.
Qed.

Lemma forallb_lower_space p :
  forallb py_isspace p = true -> forallb py_isspace (lower p) = true.
Proof.
  induction p as [|c p IH]; simpl; [reflexivity|].
  rewrite lower_space. intros H. apply andb_true_iff in H as [-> H]. auto.
Qed.

Lemma hex_digit_hex x : (x < 16)%N -> is_hex (SHA256.hex_digit x) = true.
Proof.
  intros H.
  assert (x = 0 \/ x = 1 \/ x = 2 \/ x = 3 \/ x = 4 \/ x = 5 \/ x = 6 \/ x = 7
          \/ x = 8 \/ x = 9 \/ x = 10 \/ x = 11 \/ x = 12 \/ x = 13 \/ x = 14
          \/ x = 15)%N as Hx by lia.
  repeat (destruct Hx as [->|Hx]; [reflexivity|]). subst x. reflexivity.
Qed.

Lemma be_bytes_small n : forall x, Forall (fun b => (b < 256)%N) (SHA256.be_bytes n x).
Proof.
  induction n as [|n IH]; intros x; simpl; [constructor|].
  apply Forall_app. split; [apply IH|].
  constructor; [|constructor].
  change 255%N with (N.ones 8). rewrite N.land_ones.
  apply N.mod_lt. discriminate.
Qed.

Lemma hex_byte_hex b : (b < 256)%N -> forallb is_hex (SHA256.hex_byte b) = true.
Proof.
  intros H. unfold SHA256.hex_byte. cbn [forallb].
  rewrite !hex_digit_hex; [reflexivity| |].
  - change 15%N with (N.ones 4). rewrite N.land_ones.
    apply N.mod_lt. discriminate.
  - rewrite N.shiftr_div_pow2. change (2 ^ 4)%N with 16%N.
    apply N.Div0.div_lt_upper_bound. exact H.
Qed.

Lemma forallb_flat_map {A} (p : ascii -> bool) (f : A -> text) (l : list A) :
  Forall (fun x => forallb p (f x) = true) l -> forallb p (flat_map f l) = true.
Proof.
  induction 1 as [|x l Hx _ IH]; simpl; [reflexivity|].
  apply forallb_app_true. auto.
Qed.

Lemma sha256_hex_format s : is_sha256_hex (sha256_hex s) = true.
Proof.
  pose proof (sha256_hex_length s) as Hlen.
  unfold is_sha256_hex. rewrite take_ge, drop_ge by lia.
  rewrite Hlen. cbn [Nat.eqb at_end andb]. rewrite !andb_true_r.
  unfold sha256_hex, SHA256.hexdigest.
  apply forallb_flat_map, Forall_forall. intros h _.
  apply forallb_flat_map.
  eapply Forall_impl; [apply be_bytes_small|].
  intros b Hb. apply hex_byte_hex, Hb.
Qed.

(** X16: The email fingerprint does not depend on the case of the letters nor
    on whitespace around the address, and it is a text of 64 hexadecimal
    digits: it has the format that the licence check demands. *)
Theorem email_hash_fingerprint (e p q : text) :
  forallb py_isspace p = true -> forallb py_isspace q = true ->
  compute_email_hash (p ++ e ++ q) = compute_email_hash e
  /\ compute_email_hash (lower e) = compute_email_hash e
  /\ is_sha256_hex (compute_email_hash e) = true.
Proof.
  intros Hp Hq. unfold compute_email_hash. repeat split.
  - rewrite !lower_app.
    rewrite strip_padded by (apply forallb_lower_space; assumption).
    reflexivity.
  - rewrite lower_idem. reflexivity.
  - apply sha256_hex_format.
Qed.

Lemma email_hash_fingerprint_witness :
  compute_email_hash (str " Ann.Lee@Acme.io ") = compute_email_hash (str "Ann.Lee@Acme.io")
  /\ compute_email_hash (str "ann.lee@acme.io") = compute_email_hash (str "Ann.Lee@Acme.io").
Proof.
  destruct (email_hash_fingerprint (str "Ann.Lee@Acme.io") (str " ") (str " "))
    as (H1 & H2 & _); [reflexivity | reflexivity|].
  split; [exact H1 | exact H2].
Defined.

(** ** Spellings of a LinkedIn URL *)

Lemma rstrip_app_visible a b :
  a <> [] -> ends_in_space a = false -> rstrip (a ++ b) = a ++ rstrip b.
Proof.
  intros Hne Hend. unfold rstrip at 1. rewrite rev_app_distr, lstrip_app.
  destruct (lstrip (rev b)) as [|c t] eqn:Hb.
  - unfold rstrip. rewrite Hb. simpl. rewrite app_nil_r.
    apply rstrip_id, Hend.
  - unfold rstrip. rewrite Hb. rewrite rev_app_distr, rev_involutive. reflexivity.
Qed.

Lemma strip_visible_front a b :
  a <> [] -> lstrip a = a -> ends_in_space a = false ->
  strip (a ++ b) = a ++ rstrip b.
Proof.
  intros Hne Hl Hend. unfold strip. rewrite lstrip_app, Hl.
  destruct a as [|c a]; [congruence|].
  apply (rstrip_app_visible (c :: a) b Hne Hend).
Qed.

Lemma normalize_front (pre rest : text) :
  pre ∈ url_prefixes ->
  strip_www (strip_scheme (lower (strip (pre ++ str "linkedin.com" ++ rest))))
  = str "linkedin.com" ++ lower (rstrip rest).
Proof.
  intros Hpre. rewrite app_assoc.
  unfold url_prefixes in Hpre. cbn [map] in Hpre.
  cases_in Hpre;
    (rewrite strip_visible_front; [|discriminate|reflexivity|reflexivity]);
    rewrite lower_app; reflexivity.
Qed.

Lemma normalize_same_front (v1 v2 url_type : text) :
  v1 <> [] -> v2 <> [] ->
  strip_www (strip_scheme (lower (strip v1)))
  = strip_www (strip_scheme (lower (strip v2))) ->
  normalize_linkedin_url (VStr v1) url_type
  = normalize_linkedin_url (VStr v2) url_type.
Proof.
  intros H1 H2 H. unfold normalize_linkedin_url.
  assert (truthy (VStr v1) = true) as -> by (destruct v1; [congruence|reflexivity]).
  assert (truthy (VStr v2) = true) as -> by (destruct v2; [congruence|reflexivity]).
  cbv beta iota zeta delta [negb py_str]. rewrite H. reflexivity.
Qed.

Lemma normalize_lower (x url_type : text) :
  normalize_linkedin_url (VStr (lower x)) url_type
  = normalize_linkedin_url (VStr x) url_type.
Proof.
  destruct x as [|c x]; [reflexivity|].
  apply normalize_same_front; [discriminate | discriminate|].
  rewrite <- lower_strip_comm, lower_idem. reflexivity.
Qed.

Lemma normalize_prefix (pre rest url_type : text) :
  pre ∈ url_prefixes ->
  normalize_linkedin_url (VStr (pre ++ str "linkedin.com" ++ rest)) url_type
  = normalize_linkedin_url (VStr (str "linkedin.com" ++ rest)) url_type.
Proof.
  intros Hpre. apply normalize_same_front.
  - destruct pre; discriminate.
  - discriminate.
  - rewrite (normalize_front pre rest Hpre).
    symmetry. apply (normalize_front [] rest). apply list_elem_of_here.
Qed.

(** X17: The canonical form of a LinkedIn URL, and with it the LinkedIn
    fingerprint of a lead, does not depend on the case of the letters, nor
    on which of the prefixes [http://], [https://] and [www.] the URL is
    written with. *)
Theorem normalize_spelling (url_type : text) :
  (forall x, normalize_linkedin_url (VStr (lower x)) url_type
             = normalize_linkedin_url (VStr x) url_type)
  /\ (forall pre rest, pre ∈ url_prefixes ->
        normalize_linkedin_url (VStr (pre ++ str "linkedin.com" ++ rest)) url_type
        = normalize_linkedin_url (VStr (str "linkedin.com" ++ rest)) url_type)
  /\ (forall pre1 pre2 rest1 rest2,
        pre1 ∈ url_prefixes -> pre2 ∈ url_prefixes ->
        compute_linkedin_combo_hash
          (VStr (pre1 ++ str "linkedin.com" ++ rest1))
          (VStr (pre2 ++ str "linkedin.com" ++ rest2))
        = compute_linkedin_combo_hash
            (VStr (str "linkedin.com" ++ rest1))
            (VStr (str "linkedin.com" ++ rest2))).
Proof.
  split; [|split].
  - intros x. apply normalize_lower.
  - intros pre rest. apply normalize_prefix.
  - intros pre1 pre2 rest1 rest2 H1 H2. unfold compute_linkedin_combo_hash.
    rewrite (normalize_prefix pre1 rest1 _ H1), (normalize_prefix pre2 rest2 _ H2).
    reflexivity.
Qed.

Lemma normalize_spelling_witness :
  normalize_linkedin_url (VStr (str "https://www.linkedin.com/in/ann-lee/"))
    (str "profile")
  = normalize_linkedin_url (VStr (str "linkedin.com/in/ann-lee/")) (str "profile").
Proof.
  apply (proj1 (proj2 (normalize_spelling (str "profile")))
           (str "https://www.") (str "/in/ann-lee/")).
  unfold url_prefixes. cbn [map]. in_list.
Defined.

(** X18: The LinkedIn fingerprint exists exactly for the pairs of URLs that the
    URL validator accepts, and it is then a text of 64 hexadecimal digits;
    for all other pairs it is the empty text, which the duplicate checker
    never looks up. *)
Theorem combo_hash_defined (linkedin company_linkedin : value) :
  (compute_linkedin_combo_hash linkedin company_linkedin = []
   <-> validate_linkedin_urls linkedin company_linkedin <> [])
  /\ (validate_linkedin_urls linkedin company_linkedin = [] ->
      is_sha256_hex (compute_linkedin_combo_hash linkedin company_linkedin) = true).
Proof.
  unfold compute_linkedin_combo_hash, validate_linkedin_urls.
  destruct (is_empty (normalize_linkedin_url linkedin (str "profile")));
    destruct (is_empty (normalize_linkedin_url company_linkedin (str "company")));
    cbn [orb when app]; (split; [split|]); try discriminate; try congruence.
  - intros H. apply (f_equal (@length ascii)) in H.
    rewrite sha256_hex_length in H. discriminate.
  - intros _. apply sha256_hex_format.
Qed.

Lemma combo_hash_defined_witness :
  compute_linkedin_combo_hash (VStr (str "linkedin.com/company/acme")) example_company
  = [].
Proof.
  apply (combo_hash_defined (VStr (str "linkedin.com/company/acme")) example_company).
  vm_compute. discriminate.
Defined.

(** ** The duplicate checker without a remote answer *)

Lemma email_hash_of_some email :
  str_or_false email -> exists h, email_hash_of email = Some h.
Proof.
  unfold email_hash_of. intros [[e ->]|Hf].
  - destruct (truthy (VStr e)); eauto.
  - rewrite Hf. eauto.
Qed.

(** X19: Two ways in which [check] answers [new] without looking anywhere.  In
    the online mode with the client library installed and a credential
    missing, and with a mode that is neither [online] nor [offline], no
    query is sent and the cache is not read: the lead is reported as new
    even when the cache or the log holds an approval. *)
Theorem check_new_unchecked (mode : text) (r : Remote) (cache : Cache)
    (email linkedin company_linkedin : value) :
  str_or_false email ->
  (mode = str "online" /\ supabase_installed r = true /\ credentials_set r = false)
  \/ (mode <> str "online" /\ mode <> str "offline") ->
  check mode r cache email linkedin company_linkedin
  = Some (status_new mode, []).
Proof.
  intros He Hcase. unfold check.
  destruct (email_hash_of_some email He) as [h ->].
  destruct Hcase as [(-> & Hi & Hc)|[Hon Hoff]].
  - rewrite bool_decide_eq_true_2 by reflexivity.
    unfold online_block. rewrite Hi, Hc. reflexivity.
  - rewrite bool_decide_eq_false_2 by exact Hon.
    rewrite bool_decide_eq_false_2 by exact Hoff. reflexivity.
Qed.

Lemma check_new_unchecked_witness :
  check (str "online") (remote_no_credentials log_pending_and_linkedin)
        cache_approved (VStr example_email) example_linkedin example_company
  = Some (status_new (str "online"), []).
Proof.
  apply (check_new_unchecked (str "online")
           (remote_no_credentials log_pending_and_linkedin) cache_approved).
  - left. eauto.
  - left. repeat split.
Defined.

(** X20: When the client library is missing, or the client cannot be created,
    the online mode sends no query and answers as the offline mode does,
    from the cache and with the source [cache]. *)
Theorem check_online_fallback (r : Remote) (cache : Cache)
    (email linkedin company_linkedin : value) :
  supabase_installed r = false
  \/ (supabase_installed r = true /\ credentials_set r = true
      /\ create_client_ok r = false) ->
  check (str "online") r cache email linkedin company_linkedin
  = check (str "offline") r cache email linkedin company_linkedin.
Proof.
  intros Hcase. unfold check. destruct (email_hash_of email) as [h|]; [|reflexivity].
  change (bool_decide (str "online" = str "online")) with true.
  change (bool_decide (str "offline" = str "online")) with false.
  change (bool_decide (str "offline" = str "offline")) with true.
  cbv iota. unfold online_block.
  destruct Hcase as [->|(-> & -> & ->)]; reflexivity.
Qed.

Lemma check_online_fallback_witness :
  check (str "online") no_remote cache_approved (VStr example_email)
        example_linkedin example_company
  = check (str "offline") no_remote cache_approved (VStr example_email)
          example_linkedin example_company.
Proof.
  apply (check_online_fallback no_remote cache_approved).
  left. reflexivity.
Defined.

(** ** The most recent consensus decides *)

Lemma foldl_latest rows : forall best,
  match foldl (fun best e =>
                 match best with
                 | None => Some e
                 | Some b => if ev_created_at b <? ev_created_at e
                             then Some e else Some b
                 end) best rows with
  | Some m =>
      (best = Some m \/ m ∈ rows)
      /\ (forall x, x ∈ rows -> ev_created_at x <= ev_created_at m)
      /\ (forall b, best = Some b -> ev_created_at b <= ev_created_at m)
  | None => best = None /\ rows = []
  end.
Proof.
  induction rows as [|e rows IH]; intros best; simpl.
  - destruct best as [b|].
    + split; [auto|]. split.
      * intros x Hx. apply elem_of_nil in Hx. tauto.
      * intros b' [= ->]. lia.
    + auto.
  - match goal with |- context [foldl _ ?b rows] => specialize (IH b) end.
    destruct (foldl _ _ rows) as [m|].
    + destruct IH as (Hm & Hmax & Hbest). split; [|split].
      * destruct Hm as [Hm|Hm]; [|right; apply list_elem_of_further, Hm].
        destruct best as [b|].
        -- destruct (ev_created_at b <? ev_created_at e); injection Hm as <-;
             [right; apply list_elem_of_here | left; reflexivity].
        -- injection Hm as <-. right. apply list_elem_of_here.
      * intros x Hx. apply elem_of_cons in Hx as [->|Hx]; [|apply Hmax, Hx].
        destruct best as [b|].
        -- destruct (Z.ltb_spec (ev_created_at b) (ev_created_at e)).
           ++ apply (Hbest e eq_refl).
           ++ specialize (Hbest b eq_refl). lia.
        -- apply (Hbest e eq_refl).
      * intros b ->.
        destruct (Z.ltb_spec (ev_created_at b) (ev_created_at e)).
        -- specialize (Hbest e eq_refl). lia.
        -- apply (Hbest b eq_refl).
    + destruct IH as [IH _]. destruct best as [b|]; [|discriminate].
      destruct (ev_created_at b <? ev_created_at e); discriminate.
Qed.

Lemma latest_spec rows :
  rows <> [] ->
  exists row, latest rows = [row] /\ row ∈ rows
    /\ forall x, x ∈ rows -> ev_created_at x <= ev_created_at row.
Proof.
  intros Hne. unfold latest. pose proof (foldl_latest rows None) as H.
  destruct (foldl _ None rows) as [m|].
  - destruct H as ([H|H] & Hmax & _); [discriminate|]. eauto.
  - destruct H as [_ H]. contradiction.
Qed.

(** X21: In the online mode, on a remote log that answers, a consensus result
    recorded for the email decides alone.  The row with the latest date is
    read; [approve] gives [email_already_approved], and any other decision,
    or none, gives [email_was_denied_can_resubmit].  One query is sent: the
    LinkedIn pair and the pending submissions are not looked at, so an
    approval of the LinkedIn pair or an earlier approval of the same email
    does not stop a resubmission after a later denial. *)
Theorem check_online_email_consensus (r : Remote) (cache : Cache) (e : text)
    (linkedin company_linkedin : value) :
  let h := compute_email_hash e in
  let rows := email_rows (str "CONSENSUS_RESULT") h (log r) in
  operational r -> e <> [] -> rows <> [] ->
  exists row,
    row ∈ rows
    /\ (forall x, x ∈ rows -> ev_created_at x <= ev_created_at row)
    /\ check (str "online") r cache (VStr e) linkedin company_linkedin
       = Some (if is_approve (ev_final_decision row)
               then status_email_approved (str "online")
               else status_email_denied (str "online"),
               [QEmailConsensus h]).
Proof.
  intros h rows Hop He Hrows.
  destruct (latest_spec rows Hrows) as (row & Hlatest & Hin & Hmax).
  exists row. split; [exact Hin|]. split; [exact Hmax|].
  unfold check. rewrite (email_hash_of_str e He). fold h.
  change (bool_decide (str "online" = str "online")) with true. cbv iota.
  rewrite (online_block_operational r h _ Hop).
  rewrite (compute_email_hash_nonempty e : is_empty h = false).
  fold rows. rewrite Hlatest. reflexivity.
Qed.

Lemma check_online_email_consensus_witness :
  exists row,
    check (str "online") (remote_with log_approved_then_denied) empty_cache
          (VStr example_email) example_linkedin example_company
    = Some (if is_approve (ev_final_decision row)
            then status_email_approved (str "online")
            else status_email_denied (str "online"),
            [QEmailConsensus (compute_email_hash example_email)]).
Proof.
  destruct (check_online_email_consensus (remote_with log_approved_then_denied)
              empty_cache example_email example_linkedin example_company)
    as (row & _ & _ & H).
  - repeat split.
  - discriminate.
  - vm_compute. discriminate.
  - exists row. exact H.
Defined.

(** ** The orchestrator: exceptions, the taxonomy and the network flag *)

Lemma not_str_or_false v :
  ~ str_or_false v <-> truthy v = true /\ forall s, v <> VStr s.
Proof.
  unfold str_or_false. split.
  - intros H. split.
    + destruct (truthy v); [reflexivity|]. exfalso. apply H. right. reflexivity.
    + intros s ->. apply H. left. eauto.
  - intros [Ht Hs] [[s ->]|Hf]; [exact (Hs s eq_refl) | congruence].
Qed.

Lemma network_checks_none net website email :
  validate_network_checks net website email = None
  <-> ~ str_or_false email \/ ~ str_or_false website.
Proof.
  rewrite !not_str_or_false. unfold validate_network_checks. split.
  - destruct (truthy email) eqn:He.
    + destruct email as [|b|n|e]; try (intros _; left; split; [reflexivity|discriminate]).
      destruct (truthy website) eqn:Hw; [|discriminate].
      destruct website as [|b|n|w]; try (intros _; right; split; [reflexivity|discriminate]).
      discriminate.
    + destruct (truthy website) eqn:Hw; [|discriminate].
      destruct website as [|b|n|w]; try (intros _; right; split; [reflexivity|discriminate]).
      discriminate.
  - intros [[He Hs]|[Hw Hs]].
    + rewrite He. destruct email as [|b|n|e]; try reflexivity.
      exfalso. exact (Hs e eq_refl).
    + rewrite Hw. destruct website as [|b|n|w].
      1-3: destruct (if truthy email then _ else _); reflexivity.
      exfalso. exact (Hs w eq_refl).
Qed.

Lemma check_none mode r cache email linkedin company_linkedin :
  check mode r cache email linkedin company_linkedin = None
  <-> ~ str_or_false email.
Proof.
  unfold check. split.
  - intros H Hs. destruct (email_hash_of_some email Hs) as [h Hh].
    rewrite Hh in H. repeat case_bool_decide; try discriminate.
    destruct (online_block _ _ _) as [[]]; discriminate.
  - intros H. apply not_str_or_false in H as [Ht Hs].
    unfold email_hash_of. rewrite Ht.
    destruct email as [|b|n|e]; try reflexivity.
    exfalso. exact (Hs e eq_refl).
Qed.

(** ** The network checks *)

Lemma true_scalar_not_str v : true_scalar v -> ~ str_or_false v.
Proof.
  intros [->|(n & Hn & ->)] [[s H]|H]; try discriminate.
  simpl in H. apply negb_false_iff, Z.eqb_eq in H. contradiction.
Qed.

(** X12: [validate_network_checks] returns a list of warnings whenever the
    email and the website are strings or false values, and it raises when
    one of them is [true] or a number other than 0, on which the test
    ['@' in email] and the method [website.lower] raise.  With none of the
    three packages installed it returns the single warning that the DNS
    checks were skipped, whatever strings the website and the email are. *)
Theorem network_checks_returns (net : Network) (website email : value) :
  (str_or_false email -> str_or_false website ->
   exists ws, validate_network_checks net website email = Some ws)
  /\ (true_scalar email \/ true_scalar website ->
      validate_network_checks net website email = None)
  /\ (dns_installed net = false -> whois_installed net = false ->
      requests_installed net = false ->
      str_or_false email -> str_or_false website ->
      validate_network_checks net website email = Some [dns_skipped_code]).
Proof.
  split; [|split].
  - intros He Hw.
    destruct (validate_network_checks net website email) as [ws|] eqn:H; [eauto|].
    apply network_checks_none in H as [H|H]; contradiction.
  - intros H. apply network_checks_none.
    destruct H as [H|H]; [left | right]; apply true_scalar_not_str, H.
  - intros Hdns Hwhois Hreq He Hw. unfold validate_network_checks.
    rewrite Hdns, Hwhois, Hreq. cbn [andb].
    destruct He as [[e ->]|He], Hw as [[w ->]|Hw];
      rewrite ?He, ?Hw; destruct (truthy _); try destruct (truthy _); reflexivity.
Qed.

Lemma network_checks_returns_witness :
  validate_network_checks no_network (VStr (str "https://acme.io"))
    (VStr (str "ann.lee@acme.io")) = Some [dns_skipped_code]
  /\ validate_network_checks no_network (VInt 42) (VStr (str "ann.lee@acme.io"))
     = None.
Proof.
  split.
  - apply (proj2 (proj2 (network_checks_returns no_network
                           (VStr (str "https://acme.io"))
                           (VStr (str "ann.lee@acme.io"))))); try reflexivity.
    + left. eauto.
    + left. eauto.
  - apply (proj1 (proj2 (network_checks_returns no_network (VInt 42)
                           (VStr (str "ann.lee@acme.io"))))).
    right. right. exists 42. split; [discriminate | reflexivity].
Defined.

(** ** Values that make the audit raise *)

Lemma uint_chars d :
  Forall (fun c => is_email_local c = true /\ is_email_local_u c = true)
         (list_ascii_of_string (NilEmpty.string_of_uint d)).
Proof.
  induction d; simpl; constructor; auto; split; reflexivity.
Qed.

Lemma dec_Z_chars n :
  Forall (fun c => is_email_local c = true /\ is_email_local_u c = true) (dec_Z n).
Proof.
  unfold dec_Z. destruct (Z.to_int n) as [d|d]; simpl.
  - destruct d; try apply uint_chars. repeat constructor.
  - constructor; [split; reflexivity|].
    destruct d; try apply uint_chars. repeat constructor.
Qed.

Lemma email_full_no_at (is_local is_domain : ascii -> bool) s :
  Forall (fun c => is_local c = true) s -> email_full is_local is_domain s = false.
Proof.
  intros H. unfold email_full. rewrite (span_all is_local s H).
  destruct s; reflexivity.
Qed.

Lemma Forall_strip (P : ascii -> Prop) s : Forall P s -> Forall P (strip s).
Proof.
  intros H. destruct (strip_split s) as (p & q & Hs & _ & _).
  rewrite Hs in H. apply Forall_app in H as [_ H]. apply Forall_app in H as [H _].
  exact H.
Qed.

Lemma true_scalar_email_format pkg email first last :
  true_scalar email ->
  str "email_invalid_format" ∈ validate_email pkg email first last.
Proof.
  intros H.
  assert (truthy email = true) as Ht.
  { destruct H as [->|(n & Hn & ->)]; [reflexivity|].
    simpl. apply negb_true_iff, Z.eqb_neq, Hn. }
  apply (email_code_first pkg email first last _ Ht eq_refl).
  assert (Forall (fun c => is_email_local c = true /\ is_email_local_u c = true)
                 (strip (py_str email))) as Hall.
  { apply Forall_strip. destruct H as [->|(n & Hn & ->)]; simpl py_str.
    - repeat constructor.
    - apply dec_Z_chars. }
  rewrite !email_full_no_at; [reflexivity| |].
  - eapply Forall_impl; [exact Hall|]. intros c [_ Hc]. exact Hc.
  - eapply Forall_impl; [exact Hall|]. intros c [Hc _]. exact Hc.
Qed.

(** X22: a lead whose email is [true] or a number other than 0 makes
    [audit_lead] end with an exception, with or without the network checks,
    although [validate_email] on its own reports such an email as
    [email_invalid_format]; and a lead whose website is such a value makes
    [audit_lead] end with an exception when the network checks are run. *)
Theorem audit_lead_raises (w : World)
    (taxonomy_cache : option (gmap text (list text)))
    (lead : gmap string value) (mode : text) (run_network_checks : bool) :
  (true_scalar (get lead "email" (VStr [])) ->
   fst (audit_lead w taxonomy_cache lead mode run_network_checks) = None
   /\ str "email_invalid_format"
        ∈ validate_email (disposable_pkg w) (get lead "email" (VStr []))
            (get lead "first" (VStr [])) (get lead "last" (VStr [])))
  /\ (true_scalar (get lead "website" (VStr [])) ->
      fst (audit_lead w taxonomy_cache lead mode true) = None).
Proof.
  split.
  - intros He. split; [|apply true_scalar_email_format, He].
    apply true_scalar_not_str in He. unfold audit_lead.
    destruct (if run_network_checks then _ else _) as [nw|]; [|reflexivity].
    destruct (validate_description _) as [de dw].
    destruct (validate_industry_pair _ _ _ _) as [ie tc'].
    rewrite (proj2 (check_none mode (remote w) (load_cache (cache_file w))
                      (get lead "email" (VStr [])) (get lead "linkedin" (VStr []))
                      (get lead "company_linkedin" (VStr []))) He).
    reflexivity.
  - intros Hw. apply true_scalar_not_str in Hw. unfold audit_lead.
    rewrite (proj2 (network_checks_none (network w) (get lead "website" (VStr []))
                      (get lead "email" (VStr []))) (or_intror Hw)).
    reflexivity.
Qed.

Lemma audit_lead_raises_witness :
  fst (audit_lead (bare_world set_iter_first) None lead_numeric_website
         (str "offline") true) = None
  /\ fst (audit_lead (bare_world set_iter_first) None lead_numeric_email
            (str "offline") false) = None.
Proof.
  split.
  - apply (proj2 (audit_lead_raises (bare_world set_iter_first) None
                    lead_numeric_website (str "offline") true)).
    right. exists 42. split; [discriminate | reflexivity].
  - apply (proj1 (audit_lead_raises (bare_world set_iter_first) None
                    lead_numeric_email (str "offline") false)).
    right. exists 42. split; [discriminate | reflexivity].
Defined.


Lemma audit_lead_result w tc lead mode net r tc' :
  audit_lead w tc lead mode net = (Some r, tc') ->
  exists nw st qs,
    (if net then validate_network_checks (network w)
                   (get lead "website" (VStr [])) (get lead "email" (VStr []))
     else Some []) = Some nw
    /\ check mode (remote w) (load_cache (cache_file w))
             (get lead "email" (VStr [])) (get lead "linkedin" (VStr []))
             (get lead "company_linkedin" (VStr [])) = Some (st, qs)
    /\ tc' = snd (load_industry_taxonomy (taxonomy_file w) tc)
    /\ duplicate_status r = st
    /\ score_preview r = preview_score lead
    /\ warnings r = nw ++ snd (validate_description (get lead "description" (VStr [])))
    /\ passed r = bool_decide (blocking_errors r = [])
    /\ blocking_errors r
       = (validate_attestation lead ++ validate_required_fields lead
          ++ validate_source_provenance lead)
         ++ validate_role (set_iter w) (get lead "role" (VStr []))
         ++ fst (validate_description (get lead "description" (VStr [])))
         ++ validate_email (disposable_pkg w) (get lead "email" (VStr []))
              (get lead "first" (VStr [])) (get lead "last" (VStr []))
         ++ validate_employee_count (get lead "employee_count" (VStr []))
         ++ industry_pair_errors
              (fst (load_industry_taxonomy (taxonomy_file w) tc))
              (get lead "industry" (VStr [])) (get lead "sub_industry" (VStr []))
         ++ validate_linkedin_urls (get lead "linkedin" (VStr []))
              (get lead "company_linkedin" (VStr []))
         ++ validate_location (set_iter w)
              (get lead "city" (VStr [])) (get lead "country" (VStr []))
              (get lead "region" (get lead "state" (VStr [])))
         ++ when (is_duplicate st && negb (can_resubmit st))
              (str "duplicate:" ++ reason st).
Proof.
  unfold audit_lead, validate_industry_pair. intros H.
  destruct (if net then _ else _) as [nw|]; [|discriminate].
  destruct (validate_description _) as [de dw].
  destruct (load_industry_taxonomy _ _) as [taxonomy tc2].
  destruct (check _ _ _ _ _ _) as [[st qs]|]; [|discriminate].
  injection H as <- <-. exists nw, st, qs. cbn [fst snd].
  repeat split. rewrite <- !app_assoc. reflexivity.
Qed.

(** X23: Without a taxonomy no lead passes.  When the taxonomy that
    [load_industry_taxonomy] hands out is empty, which is the case when the
    file [industry_taxonomy.py] is missing or cannot be read and nothing
    was loaded before, every result of [audit_lead] has the blocking error
    [taxonomy_not_loaded] and [passed = false], whatever the lead holds. *)
Theorem audit_lead_taxonomy_missing (w : World)
    (taxonomy_cache : option (gmap text (list text)))
    (lead : gmap string value) (mode : text) (run_network_checks : bool)
    (r : AuditResult) (taxonomy_cache' : option (gmap text (list text))) :
  (taxonomy_cache = None /\ taxonomy_file w = None)
  \/ fst (load_industry_taxonomy (taxonomy_file w) taxonomy_cache) = ∅ ->
  audit_lead w taxonomy_cache lead mode run_network_checks
  = (Some r, taxonomy_cache') ->
  str "taxonomy_not_loaded" ∈ blocking_errors r /\ passed r = false.
Proof.
  intros Hcase H.
  assert (fst (load_industry_taxonomy (taxonomy_file w) taxonomy_cache) = ∅) as Hempty.
  { destruct Hcase as [[-> Hf]|Hc]; [|exact Hc]. unfold load_industry_taxonomy.
    rewrite Hf. reflexivity. }
  apply audit_lead_result in H
    as (nw & st & qs & _ & _ & _ & _ & _ & _ & Hpassed & Hblocking).
  assert (str "taxonomy_not_loaded" ∈ blocking_errors r) as Hin.
  { rewrite Hblocking, Hempty. do 5 skip_check. this_check.
    unfold industry_pair_errors. rewrite bool_decide_eq_true_2 by reflexivity.
    apply list_elem_of_here. }
  split; [exact Hin|].
  rewrite Hpassed. apply bool_decide_eq_false_2. intros Hnil.
  rewrite Hnil in Hin. apply elem_of_nil in Hin. exact Hin.
Qed.

Lemma audit_lead_taxonomy_missing_witness :
  exists r tc', audit_lead (bare_world set_iter_first) None lead_small_hub_icp
                  (str "offline") false = (Some r, tc')
    /\ passed r = false.
Proof.
  destruct (audit_lead (bare_world set_iter_first) None lead_small_hub_icp
              (str "offline") false) as [[r|] tc'] eqn:H.
  - exists r, tc'. split; [reflexivity|].
    apply (audit_lead_taxonomy_missing (bare_world set_iter_first) None
             lead_small_hub_icp (str "offline") false r tc').
    + left. split; reflexivity.
    + exact H.
  - exfalso. vm_compute in H. discriminate.
Defined.

(** X24: The flag [run_network_checks] changes the warnings and nothing else.
    For a lead whose website is a string or a false value, the audit with
    the network checks and the audit without them either both raise, or
    both return, with the same verdict, the same blocking errors, the same
    duplicate status, the same score and the same taxonomy cache; the
    warnings of the first are those of the network checks followed by the
    warnings of the second. *)
Theorem audit_lead_skip_network (w : World)
    (taxonomy_cache : option (gmap text (list text)))
    (lead : gmap string value) (mode : text) :
  str_or_false (get lead "website" (VStr [])) ->
  match audit_lead w taxonomy_cache lead mode true,
        audit_lead w taxonomy_cache lead mode false with
  | (Some rt, ct), (Some rf, cf) =>
      ct = cf /\ passed rt = passed rf
      /\ blocking_errors rt = blocking_errors rf
      /\ duplicate_status rt = duplicate_status rf
      /\ score_preview rt = score_preview rf
      /\ exists nw,
           validate_network_checks (network w) (get lead "website" (VStr []))
             (get lead "email" (VStr [])) = Some nw
           /\ warnings rt = nw ++ warnings rf
  | (None, _), (None, _) => True
  | _, _ => False
  end.
Proof.
  intros Hweb. unfold audit_lead.
  destruct (validate_network_checks _ _ _) as [nw|] eqn:Hn.
  - destruct (validate_description _) as [de dw].
    destruct (validate_industry_pair _ _ _ _) as [ie tc'].
    destruct (check _ _ _ _ _ _) as [[st qs]|]; [|exact I].
    cbn [passed blocking_errors duplicate_status score_preview warnings].
    repeat split. exists nw. split; reflexivity.
  - apply network_checks_none in Hn as [He|Hw]; [|contradiction].
    destruct (validate_description _) as [de dw].
    destruct (validate_industry_pair _ _ _ _) as [ie tc'].
    rewrite (proj2 (check_none mode (remote w) (load_cache (cache_file w))
                      (get lead "email" (VStr [])) (get lead "linkedin" (VStr []))
                      (get lead "company_linkedin" (VStr []))) He).
    exact I.
Qed.

Lemma audit_lead_skip_network_witness :
  match audit_lead (bare_world set_iter_first) None lead_small_hub_icp
          (str "offline") true,
        audit_lead (bare_world set_iter_first) None lead_small_hub_icp
          (str "offline") false with
  | (Some rt, ct), (Some rf, cf) =>
      ct = cf /\ passed rt = passed rf
      /\ blocking_errors rt = blocking_errors rf
      /\ duplicate_status rt = duplicate_status rf
      /\ score_preview rt = score_preview rf
      /\ exists nw,
           validate_network_checks (network (bare_world set_iter_first))
             (get lead_small_hub_icp "website" (VStr []))
             (get lead_small_hub_icp "email" (VStr [])) = Some nw
           /\ warnings rt = nw ++ warnings rf
  | (None, _), (None, _) => True
  | _, _ => False
  end.
Proof.
  apply (audit_lead_skip_network (bare_world set_iter_first) None
           lead_small_hub_icp (str "offline")).
  right. reflexivity.
Defined.

(** X25: How the verdict is composed: a result has [passed = true] exactly when
    each of the ten validators returns no error and the duplicate check
    does not report a duplicate that cannot be resubmitted.  Warnings and
    the score preview play no part in it. *)
Theorem audit_lead_passed (w : World)
    (taxonomy_cache : option (gmap text (list text)))
    (lead : gmap string value) (mode : text) (run_network_checks : bool)
    (r : AuditResult) (taxonomy_cache' : option (gmap text (list text))) :
  audit_lead w taxonomy_cache lead mode run_network_checks
  = (Some r, taxonomy_cache') ->
  (passed r = true
   <-> validate_attestation lead = []
       /\ validate_required_fields lead = []
       /\ validate_source_provenance lead = []
       /\ validate_role (set_iter w) (get lead "role" (VStr [])) = []
       /\ fst (validate_description (get lead "description" (VStr []))) = []
       /\ validate_email (disposable_pkg w) (get lead "email" (VStr []))
            (get lead "first" (VStr [])) (get lead "last" (VStr [])) = []
       /\ validate_employee_count (get lead "employee_count" (VStr [])) = []
       /\ fst (validate_industry_pair (taxonomy_file w) taxonomy_cache
                 (get lead "industry" (VStr []))
                 (get lead "sub_industry" (VStr []))) = []
       /\ validate_linkedin_urls (get lead "linkedin" (VStr []))
            (get lead "company_linkedin" (VStr [])) = []
       /\ validate_location (set_iter w)
            (get lead "city" (VStr [])) (get lead "country" (VStr []))
            (get lead "region" (get lead "state" (VStr []))) = []
       /\ (is_duplicate (duplicate_status r) = false
           \/ can_resubmit (duplicate_status r) = true)).
Proof.
  intros H.
  apply audit_lead_result in H
    as (nw & st & qs & _ & _ & _ & Hst & _ & _ & Hpassed & Hblocking).
  rewrite Hpassed, Hblocking, Hst. rewrite bool_decide_eq_true.
  assert (fst (validate_industry_pair (taxonomy_file w) taxonomy_cache
                 (get lead "industry" (VStr [])) (get lead "sub_industry" (VStr [])))
          = industry_pair_errors
              (fst (load_industry_taxonomy (taxonomy_file w) taxonomy_cache))
              (get lead "industry" (VStr [])) (get lead "sub_industry" (VStr [])))
    as ->.
  { unfold validate_industry_pair.
    destruct (load_industry_taxonomy _ _). reflexivity. }
  assert (when (is_duplicate st && negb (can_resubmit st))
               (str "duplicate:" ++ reason st) = []
          <-> is_duplicate st = false \/ can_resubmit st = true) as Hdup.
  { destruct (is_duplicate st), (can_resubmit st); simpl;
      split; intros; try reflexivity; try discriminate; auto;
      destruct H; discriminate. }
  rewrite <- Hdup.
  repeat rewrite app_nil. tauto.
Qed.

Lemma audit_lead_passed_witness :
  exists r tc', audit_lead (bare_world set_iter_first) None lead_small_hub_icp
                  (str "offline") false = (Some r, tc')
    /\ (passed r = true -> validate_attestation lead_small_hub_icp = []).
Proof.
  destruct (audit_lead_returns (bare_world set_iter_first) None
              lead_small_hub_icp (str "offline") false) as (r & tc' & H);
    [right; reflexivity | right; reflexivity|].
  exists r, tc'. split; [exact H|]. intros Hp.
  apply (audit_lead_passed (bare_world set_iter_first) None
           lead_small_hub_icp (str "offline") false r tc' H) in Hp.
  apply Hp.
Defined.

(** X26: The taxonomy is read once in a process.  When a taxonomy is cached, the
    audit does not depend on the file any more; a first audit that returns
    leaves the taxonomy of the file in the cache; and when the file is
    missing nothing is cached, so that the next audit looks for it again. *)
Theorem taxonomy_read_once (w : World) (lead : gmap string value) (mode : text)
    (run_network_checks : bool) :
  (forall taxonomy file,
     audit_lead (with_taxonomy w file) (Some taxonomy) lead mode run_network_checks
     = audit_lead w (Some taxonomy) lead mode run_network_checks)
  /\ (forall raw r taxonomy_cache',
        taxonomy_file w = Some raw ->
        audit_lead w None lead mode run_network_checks = (Some r, taxonomy_cache') ->
        taxonomy_cache' = Some (build_taxonomy raw))
  /\ (forall r taxonomy_cache',
        taxonomy_file w = None ->
        audit_lead w None lead mode run_network_checks = (Some r, taxonomy_cache') ->
        taxonomy_cache' = None).
Proof.
  split; [|split].
  - intros taxonomy file. reflexivity.
  - intros raw r tc' Hf H.
    apply audit_lead_result in H as (nw & st & qs & _ & _ & -> & _).
    unfold load_industry_taxonomy. rewrite Hf. reflexivity.
  - intros r tc' Hf H.
    apply audit_lead_result in H as (nw & st & qs & _ & _ & -> & _).
    unfold load_industry_taxonomy. rewrite Hf. reflexivity.
Qed.

Lemma taxonomy_read_once_witness :
  exists r, audit_lead (with_taxonomy (bare_world set_iter_first) (Some taxonomy_one))
              None lead_small_hub_icp (str "offline") false
            = (Some r, Some (build_taxonomy taxonomy_one)).
Proof.
  destruct (audit_lead_returns
              (with_taxonomy (bare_world set_iter_first) (Some taxonomy_one)) None
              lead_small_hub_icp (str "offline") false) as (r & tc' & H);
    [right; reflexivity | right; reflexivity|].
  exists r. rewrite H. f_equal.
  apply (proj1 (proj2 (taxonomy_read_once
                         (with_taxonomy (bare_world set_iter_first) (Some taxonomy_one))
                         lead_small_hub_icp (str "offline") false))
           taxonomy_one r tc' eq_refl H).
Defined.

(** ** The taxonomy lookup *)

Lemma build_other (raw : list (text * list text)) : forall (m : gmap text (list text)) key,
  key ∉ taxonomy_keys raw ->
  foldl (fun taxonomy '(sub_industry, industries) =>
           <[lower sub_industry := map lower industries]> taxonomy) m raw !! key
  = m !! key.
Proof.
  induction raw as [|[k v] raw IH]; intros m key Hkey; simpl; [reflexivity|].
  unfold taxonomy_keys in Hkey. simpl in Hkey.
  apply not_elem_of_cons in Hkey as [Hne Hkey].
  rewrite IH by exact Hkey. apply lookup_insert_ne. congruence.
Qed.

Lemma build_listed (raw : list (text * list text)) : forall (m : gmap text (list text)) sub inds,
  NoDup (taxonomy_keys raw) -> (sub, inds) ∈ raw ->
  foldl (fun taxonomy '(sub_industry, industries) =>
           <[lower sub_industry := map lower industries]> taxonomy) m raw
    !! lower sub
  = Some (map lower inds).
Proof.
  induction raw as [|[k v] raw IH]; intros m sub inds Hnd Hin.
  - apply elem_of_nil in Hin. tauto.
  - unfold taxonomy_keys in Hnd. simpl in Hnd. apply NoDup_cons in Hnd as [Hk Hnd].
    apply elem_of_cons in Hin as [Heq|Hin]; simpl.
    + injection Heq as -> ->. rewrite build_other by exact Hk.
      apply lookup_insert_eq.
    + apply IH; assumption.
Qed.

Lemma lower_strip_padded p s q :
  forallb py_isspace p = true -> forallb py_isspace q = true -> s <> [] ->
  lower_strip (VStr (p ++ s ++ q)) = strip (lower s).
Proof.
  intros Hp Hq Hs. unfold lower_strip.
  assert (truthy (VStr (p ++ s ++ q)) = true) as ->.
  { destruct p; [|reflexivity]. destruct s; [congruence | reflexivity]. }
  cbn [py_str]. rewrite !lower_app.
  apply strip_padded; apply forallb_lower_space; assumption.
Qed.

(** X27: A pair of the taxonomy file is accepted in any letter case and with
    any whitespace around it.  The file is read as a table from the
    lower-cased sub-industry to the lower-cased industries; when no two of
    its sub-industries differ only in case, and a listed sub-industry and
    one of its industries are written without surrounding whitespace, every
    spelling of the pair that agrees with them up to case and padding
    passes [validate_industry_pair].  A sub-industry that the file does not
    list, under any case, is reported with the text the lead holds. *)
Theorem industry_pair_lookup (raw : list (text * list text))
    (sub ind : text) (inds : list text) (s i p1 q1 p2 q2 : text) :
  NoDup (taxonomy_keys raw) ->
  forallb py_isspace p1 = true -> forallb py_isspace q1 = true ->
  forallb py_isspace p2 = true -> forallb py_isspace q2 = true ->
  s <> [] -> strip (lower s) = lower s ->
  (forall industry,
     lower s ∉ taxonomy_keys raw -> raw <> [] ->
     validate_industry_pair (Some raw) None industry (VStr (p1 ++ s ++ q1))
     = ([str "sub_industry_invalid:" ++ p1 ++ s ++ q1], Some (build_taxonomy raw)))
  /\ ((sub, inds) ∈ raw -> ind ∈ inds ->
      lower s = lower sub -> lower i = lower ind ->
      i <> [] -> strip (lower i) = lower i ->
      validate_industry_pair (Some raw) None (VStr (p2 ++ i ++ q2))
        (VStr (p1 ++ s ++ q1))
      = ([], Some (build_taxonomy raw))).
Proof.
  intros Hnd Hp1 Hq1 Hp2 Hq2 Hs Hss.
  assert (lower s <> []) as Hls by (destruct s; [congruence | discriminate]).
  assert (lower_strip (VStr (p1 ++ s ++ q1)) = lower s) as Hsub
    by (rewrite lower_strip_padded by assumption; exact Hss).
  split.
  - intros industry Hout Hraw.
    unfold validate_industry_pair, load_industry_taxonomy, industry_pair_errors.
    rewrite Hsub.
    rewrite bool_decide_eq_false_2.
    + rewrite (proj2 (is_empty_false (lower s)) Hls).
      unfold build_taxonomy. rewrite build_other by exact Hout.
      rewrite lookup_empty. reflexivity.
    + destruct raw as [|[k v] raw]; [congruence|]. intros Hm.
      assert (build_taxonomy ((k, v) :: raw) !! lower k = (∅ : gmap text (list text)) !! lower k)
        as Hlook by (rewrite Hm; reflexivity).
      unfold build_taxonomy in Hlook.
      rewrite (build_listed ((k, v) :: raw) ∅ k v Hnd (list_elem_of_here _ _)) in Hlook.
      rewrite lookup_empty in Hlook. discriminate.
  - intros Hin Hind Hsl Hil Hi Hii.
    assert (lower i <> []) as Hli by (destruct i; [congruence | discriminate]).
    assert (lower_strip (VStr (p2 ++ i ++ q2)) = lower i) as Hindl
      by (rewrite lower_strip_padded by assumption; exact Hii).
    pose proof (build_listed raw ∅ sub inds Hnd Hin) as Hlook.
    fold (build_taxonomy raw) in Hlook.
    unfold validate_industry_pair, load_industry_taxonomy, industry_pair_errors.
    rewrite Hsub, Hindl.
    rewrite bool_decide_eq_false_2.
    + rewrite (proj2 (is_empty_false (lower s)) Hls).
      rewrite Hsl, Hlook.
      rewrite (proj2 (is_empty_false (lower i)) Hli).
      rewrite (proj2 (mem_spec (lower i) (map lower inds))); [reflexivity|].
      rewrite Hil. apply list_elem_of_In, in_map, list_elem_of_In, Hind.
    + intros Hm. rewrite Hm, lookup_empty in Hlook. discriminate.
Qed.

Lemma industry_pair_lookup_witness :
  validate_industry_pair (Some taxonomy_one) None (VStr (str "SOFTWARE "))
    (VStr (str " machine learning"))
  = ([], Some (build_taxonomy taxonomy_one)).
Proof.
  apply (industry_pair_lookup taxonomy_one (str "Machine Learning") (str "Software")
           [str "Software"; str "Technology"]
           (str "machine learning") (str "SOFTWARE") (str " ") [] [] (str " "));
    try reflexivity; try discriminate.
  - vm_compute. repeat constructor. intros H. apply elem_of_nil in H. exact H.
  - apply list_elem_of_here.
  - apply list_elem_of_here.
Defined.

(** ** Synchronising the cache *)

Lemma sync_email_lookup env records : forall cache h,
  h <> [] ->
  email_hashes (foldl (sync_record env) cache records) !! h
  = match last (email_records h records) with
    | Some record =>
        Some {| decision := decision_of record;
                timestamp := created_text env (ev_created_at record) |}
    | None => email_hashes cache !! h
    end.
Proof.
  induction records as [|record records IH]; intros cache h Hh; [reflexivity|].
  cbn [foldl]. rewrite IH by exact Hh.
  unfold email_records. cbn [List.filter].
  fold (email_records h records).
  destruct (bool_decide_reflect (ev_email_hash record = h)) as [Heq|Hne].
  - destruct (email_records h records) as [|y l] eqn:Hf.
    + cbn [last]. unfold sync_record. cbn [email_hashes]. rewrite Heq.
      rewrite (proj2 (is_empty_false h) Hh). apply lookup_insert_eq.
    + change (last (record :: y :: l)) with (last (y :: l)).
      destruct (last (y :: l)) eqn:Hl; [reflexivity|].
      apply last_None in Hl. discriminate.
  - destruct (last (email_records h records)); [reflexivity|].
    unfold sync_record. cbn [email_hashes].
    destruct (is_empty (ev_email_hash record)); [reflexivity|].
    apply lookup_insert_ne. exact Hne.
Qed.

(** X28: Synchronising and then checking offline.  When the synchronisation
    succeeds, it returns the number of recent rows that carry an email
    hash (rows, not distinct hashes) and writes the cache it leaves in the
    checker.  An offline check of an email is then decided by the last of
    the recent rows recorded for its hash, in the order in which the log
    returned them: [approve] gives [email_already_approved], anything else
    [email_was_denied_can_resubmit].  For an email without a recent row the
    cache entry is what it was before. *)
Theorem sync_then_check (remote : Remote) (env : SyncEnv) (since_hours since : Z)
    (cache : Cache) (file : option Cache) :
  supabase_installed remote = true -> credentials_set remote = true ->
  create_client_ok remote = true ->
  since_of env since_hours = Some since -> recent_fails env = false ->
  save_ok env = true ->
  let records := recent_rows (log remote) since in
  exists cache',
    sync_cache remote env since_hours cache file
    = (length (List.filter (fun record => negb (is_empty (ev_email_hash record)))
                           records),
       cache', Some cache')
    /\ forall (e : text) (linkedin company_linkedin : value),
         e <> [] ->
         match last (email_records (compute_email_hash e) records) with
         | Some record =>
             check (str "offline") remote (load_cache (Some cache')) (VStr e)
                   linkedin company_linkedin
             = Some (if is_approve (ev_final_decision record)
                     then status_email_approved (str "cache")
                     else status_email_denied (str "cache"), [])
         | None =>
             email_hashes cache' !! compute_email_hash e
             = email_hashes cache !! compute_email_hash e
         end.
Proof.
  intros Hi Hc Hk Hsince Hq Hsave records.
  unfold sync_cache. rewrite Hi, Hc, Hk, Hsince, Hq, Hsave. cbn [negb].
  fold records. eexists. split; [reflexivity|].
  intros e linkedin company_linkedin He.
  cbn [email_hashes load_cache default from_option id].
  pose proof (sync_email_lookup env records cache (compute_email_hash e)) as Hl.
  assert (compute_email_hash e <> []) as Hh
    by (apply is_empty_false, compute_email_hash_nonempty).
  specialize (Hl Hh).
  destruct (last (email_records (compute_email_hash e) records)) as [record|];
    [|exact Hl].
  unfold check. rewrite (email_hash_of_str e He).
  change (bool_decide (str "offline" = str "online")) with false.
  change (bool_decide (str "offline" = str "offline")) with true.
  cbv iota. unfold offline_block.
  cbn [email_hashes load_cache default from_option id].
  rewrite (compute_email_hash_nonempty e). rewrite Hl. cbn [decision].
  unfold is_approve, decision_of.
  destruct (ev_final_decision record) as [d|]; cbn [default].
  - destruct (bool_decide_reflect (d = str "approve")) as [->|Hd].
    + rewrite bool_decide_eq_true_2 by reflexivity. reflexivity.
    + rewrite (bool_decide_eq_false_2 (d = str "approve")) by exact Hd.
      rewrite (bool_decide_eq_false_2 (Some d = Some (str "approve")))
        by (intros [= ?]; contradiction).
      reflexivity.
  - reflexivity.
Qed.

Lemma sync_then_check_witness :
  exists cache',
    sync_cache (remote_with log_approved_then_denied) sync_env_ok 24
               empty_cache None
    = (2%nat, cache', Some cache').
Proof.
  destruct (sync_then_check (remote_with log_approved_then_denied) sync_env_ok
              24 0 empty_cache None) as (cache' & H & _); try reflexivity.
  exists cache'. exact H.
Defined.

Lemma sync_record_keeps env cache record h :
  (is_Some (email_hashes cache !! h) ->
   is_Some (email_hashes (sync_record env cache record) !! h))
  /\ (is_Some (linkedin_hashes cache !! h) ->
      is_Some (linkedin_hashes (sync_record env cache record) !! h)).
Proof.
  unfold sync_record. cbn [email_hashes linkedin_hashes]. split; intros H.
  - destruct (is_empty (ev_email_hash record)); [exact H|].
    apply lookup_insert_is_Some'. right. exact H.
  - destruct (is_empty (ev_linkedin_combo_hash record)); [exact H|].
    apply lookup_insert_is_Some'. right. exact H.
Qed.

Lemma sync_fold_keeps env records : forall cache h,
  (is_Some (email_hashes cache !! h) ->
   is_Some (email_hashes (foldl (sync_record env) cache records) !! h))
  /\ (is_Some (linkedin_hashes cache !! h) ->
      is_Some (linkedin_hashes (foldl (sync_record env) cache records) !! h)).
Proof.
  induction records as [|record records IH]; intros cache h; [auto|].
  cbn [foldl]. destruct (IH (sync_record env cache record) h) as [IH1 IH2].
  destruct (sync_record_keeps env cache record h) as [H1 H2]. auto.
Qed.

(** X29: What the synchronisation never does.  When the client library is
    missing, a credential is missing, the client cannot be created, the
    date cannot be computed or the query raises, it returns 0 and leaves the
    cache and the file as they were.  In every case the file is left alone
    or replaced by the cache of the checker, a result other than 0 means
    that the file was written, and no entry is ever removed from the cache:
    a hash that was cached stays cached. *)
Theorem sync_cache_failure (remote : Remote) (env : SyncEnv) (since_hours : Z)
    (cache : Cache) (file : option Cache) :
  let '(count, cache', file') := sync_cache remote env since_hours cache file in
  (supabase_installed remote = false \/ credentials_set remote = false
   \/ create_client_ok remote = false \/ since_of env since_hours = None
   \/ recent_fails env = true ->
   count = O /\ cache' = cache /\ file' = file)
  /\ (file' = file \/ file' = Some cache')
  /\ (count <> O -> file' = Some cache')
  /\ (forall h, is_Some (email_hashes cache !! h) ->
                is_Some (email_hashes cache' !! h))
  /\ (forall h, is_Some (linkedin_hashes cache !! h) ->
                is_Some (linkedin_hashes cache' !! h)).
Proof.
  unfold sync_cache.
  destruct (supabase_installed remote); cbn [negb];
    [|repeat split; auto; congruence].
  destruct (credentials_set remote); cbn [negb];
    [|repeat split; auto; congruence].
  destruct (create_client_ok remote); cbn [negb];
    [|repeat split; auto; congruence].
  destruct (since_of env since_hours) as [since|];
    [|repeat split; auto; congruence].
  destruct (recent_fails env); [repeat split; auto; congruence|].
  destruct (save_ok env).
  - split; [intros [H|[H|[H|[H|H]]]]; discriminate|].
    split; [right; reflexivity|]. split; [reflexivity|].
    cbn [email_hashes linkedin_hashes].
    split; intros h; apply sync_fold_keeps.
  - split; [intros [H|[H|[H|[H|H]]]]; discriminate|].
    split; [left; reflexivity|]. split; [congruence|].
    cbn [email_hashes linkedin_hashes].
    split; intros h; apply sync_fold_keeps.
Qed.

Lemma sync_cache_failure_witness :
  sync_cache no_remote sync_env_ok 24 cache_approved None
  = (O, cache_approved, None).
Proof.
  pose proof (sync_cache_failure no_remote sync_env_ok 24 cache_approved None) as H.
  destruct (sync_cache no_remote sync_env_ok 24 cache_approved None)
    as [[count cache'] file'].
  destruct H as [H _]. destruct H as (-> & -> & ->); [left; reflexivity|].
  reflexivity.
Defined.

(** ** Repeated words in a location *)

Lemma count_occ_text_le x l : (count_occ_text x l <= length l)%nat.
Proof. unfold count_occ_text. apply length_filter. Qed.

(** X30: The iteration order of the set decides which repeated word of a
    location is named, and nothing else: a word is named only if it has
    more than three characters and occurs at least twice, and one is named
    exactly when such a word exists.  Words of up to three characters may
    be repeated freely. *)
Theorem location_duplicate_word (order : list text -> list text)
    (location_value : value) (field_name : text) :
  set_order_ok order ->
  (forall word,
     duplicate_word_code field_name word
       ∈ validate_location_field order location_value field_name ->
     word ∈ repeated_long_words location_value)
  /\ (truthy location_value = true ->
      repeated_long_words location_value <> [] ->
      exists word,
        duplicate_word_code field_name word
          ∈ validate_location_field order location_value field_name).
Proof.
  intros Horder. unfold validate_location_field, repeated_long_words.
  cbv zeta.
  set (words := split_ws (lower (strip (py_str location_value)))).
  set (p := fun word : text => (3 <? length word)%nat
                               && (2 <=? count_occ_text word words)%nat).
  destruct (Horder words) as [_ Hel].
  split.
  - intros word. destruct (negb (truthy location_value)).
    { intros H. apply elem_of_nil in H. tauto. }
    unfold duplicate_word_code. intros H.
    apply elem_of_app in H as [H|H].
    { apply elem_of_when in H as [_ H]. apply app_inv_head in H. discriminate. }
    apply elem_of_app in H as [H|H].
    { apply elem_of_first_code in H as (y & _ & H).
      apply app_inv_head in H. discriminate. }
    apply elem_of_app in H as [H|H].
    2:{ apply elem_of_when in H as [_ H]. apply app_inv_head in H. discriminate. }
    destruct (2 <=? length words)%nat; [|apply elem_of_nil in H; tauto].
    apply elem_of_first_code in H as (y & Hy & H).
    apply app_inv_head in H. apply (app_inv_head (str "_duplicate_word:")) in H.
    subst y. unfold first_such in Hy. apply find_some in Hy as [Hin Hp].
    apply list_elem_of_In, filter_In. split; [|exact Hp].
    apply list_elem_of_In, elem_of_remove_dups, Hel, list_elem_of_In, Hin.
  - intros Ht Hne. rewrite Ht. cbn [negb].
    destruct (List.filter p (remove_dups words)) as [|x l] eqn:Hf; [congruence|].
    assert (In x (List.filter p (remove_dups words))) as Hx
      by (rewrite Hf; left; reflexivity).
    apply filter_In in Hx as [Hx Hp].
    assert (In x (order words)) as Hin
      by (apply list_elem_of_In, Hel, elem_of_remove_dups, list_elem_of_In, Hx).
    destruct (List.find p (order words)) as [y|] eqn:Hfind.
    2:{ pose proof (find_none _ _ Hfind x Hin). congruence. }
    exists y. do 2 skip_check. this_check.
    assert ((2 <=? length words)%nat = true) as ->.
    { apply Nat.leb_le. unfold p in Hp. apply andb_true_iff in Hp as [_ Hp].
      apply Nat.leb_le in Hp. pose proof (count_occ_text_le x words). lia. }
    apply elem_of_first_code. exists y. split; [exact Hfind | reflexivity].
Qed.

Lemma location_duplicate_word_witness :
  exists word,
    duplicate_word_code (str "city") word
      ∈ validate_location_field set_iter_last (VStr (str "alpha alpha gamma gamma"))
          (str "city").
Proof.
  apply (location_duplicate_word set_iter_last
           (VStr (str "alpha alpha gamma gamma")) (str "city")).
  - exact set_iter_last_ok.
  - reflexivity.
  - vm_compute. discriminate.
Defined.
